(** * oclDijkstra: the reference relaxation engine and the workload partitioner

  A shallow embedding of [oclDijkstraKernel.cpp].  C arrays are lists read
  with [load] and written with [store]; the [float] cost type and its two
  operations ([+] and [>]) are parameters of the engine, instantiated
  further down with IEEE-754 binary32 as specified by [SpecFloat]. *)

From Stdlib Require Import List ZArith Lia Bool Arith PeanoNat.
From Stdlib Require Import SpecFloat.
Import ListNotations.

Set Implicit Arguments.

(** ** Arrays *)

(** A C array is a list.  Every access the engine makes is in range under the
  caller contract (CSR invariants, valid sources, arrays of [vertexCount]
  entries); a read outside the list yields the default and a write outside
  it is dropped, where C leaves the behaviour undefined. *)
Section Arrays.
Context {A : Type}.

Definition load (d : A) (l : list A) (i : nat) : A := nth i l d.

Fixpoint store (l : list A) (i : nat) (x : A) : list A :=
  match l, i with
  | [], _ => []
  | _ :: t, O => x :: t
  | h :: t, S j => h :: store t j x
  end.

Lemma length_store l i x : length (store l i x) = length l.
Proof.
  revert i; induction l as [|h t IH]; intros [|j]; simpl; auto.
Qed.

Lemma load_store_same d l i x : i < length l -> load d (store l i x) i = x.
Proof.
  unfold load; revert i; induction l as [|h t IH]; intros [|j]; simpl;
    intros H; try lia; auto.
  apply IH; lia.
Qed.

Lemma load_store_other d l i j x : i <> j -> load d (store l i x) j = load d l j.
Proof.
  unfold load; revert i j; induction l as [|h t IH]; intros [|i] [|j]; simpl;
    intros H; try congruence; auto.
Qed.

Lemma load_store d l i j x :
  load d (store l i x) j =
  if (i =? j) && (i <? length l) then x else load d l j.
Proof.
  destruct (Nat.eqb_spec i j) as [->|Hne]; simpl.
  - destruct (Nat.ltb_spec j (length l)) as [Hlt|Hge].
    + now apply load_store_same.
    + unfold load. rewrite !nth_overflow; auto. now rewrite length_store.
  - now apply load_store_other.
Qed.

Lemma store_load_id d l i : store l i (load d l i) = l.
Proof.
  unfold load; revert i; induction l as [|h t IH]; intros [|j]; simpl; auto.
  now rewrite IH.
Qed.


Lemma nth_error_load d (l : list A) i :
  i < length l -> nth_error l i = Some (load d l i).
Proof. intros H. unfold load. now apply nth_error_nth'. Qed.

Lemma list_eq_load d (l1 l2 : list A) :
  length l1 = length l2 ->
  (forall i, i < length l1 -> load d l1 i = load d l2 i) -> l1 = l2.
Proof.
  unfold load. intros Hlen H. apply nth_ext with (d := d) (d' := d); auto.
Qed.
End Arrays.

(** ** Machine integers *)

(** The 32-bit [int] that an operation of mathematical result [z] leaves:
    two's complement wrap-around. *)
Definition wrapInt (z : Z) : Z :=
  let u := (z mod 2 ^ 32)%Z in if (u <? 2 ^ 31)%Z then u else (u - 2 ^ 32)%Z.

(** [i * graph->vertexCount], the [int] index of the first entry of row
    [i] of the output. *)
Definition rowIndex (i vertexCount : nat) : Z :=
  wrapInt (Z.of_nat i * Z.of_nat vertexCount).

Lemma wrapInt_small z : (- 2 ^ 31 <= z < 2 ^ 31)%Z -> wrapInt z = z.
Proof.
  intros Hz. unfold wrapInt.
  change (2 ^ 31)%Z with 2147483648%Z in *. change (2 ^ 32)%Z with 4294967296%Z.
  destruct (Z_lt_le_dec z 0) as [Hneg|Hpos].
  - assert (Hm : (z mod 4294967296 = z + 4294967296)%Z).
    { symmetry. apply Z.mod_unique with (q := (-1)%Z); lia. }
    rewrite Hm. destruct (Z.ltb_spec (z + 4294967296) 2147483648); lia.
  - rewrite Z.mod_small by lia. destruct (Z.ltb_spec z 2147483648); lia.
Qed.

Lemma rowIndex_exact i n :
  (Z.of_nat (i * n) < 2 ^ 31)%Z -> rowIndex i n = Z.of_nat (i * n).
Proof.
  intros H. unfold rowIndex. rewrite <- Nat2Z.inj_mul. apply wrapInt_small. lia.
Qed.

(** ** The engine, over an arbitrary cost type *)

Section Engine.
(** [F] stands for C's [float], [fadd] for [+], [fgt a b] for [a > b];
    [fzero] is the literal [0.0] and [FLT_MAX] the constant of [<float.h>]. *)
Variable F : Type.
Variable fadd : F -> F -> F.
Variable fgt : F -> F -> bool.
Variable fzero : F.
Variable FLT_MAX : F.

(** The fields of [GraphData] that the engine reads. *)
Record GraphData : Type := mkGraph {
  vertexCount : nat;
  edgeCount : nat;
  vertexArray : list nat;
  edgeArray : list nat;
  weightArray : list F
}.

(** The three work arrays of [runDijkstraRef]. *)
Record State : Type := mkState {
  maskArray : list Z;
  costArray : list F;
  updatingCostArray : list F
}.

(** [maskArrayEmpty]: scan [0 .. count), answer [false] at the first entry
    equal to 1. *)
Fixpoint maskScan (mask : list Z) (idx : list nat) : bool :=
  match idx with
  | [] => true
  | i :: rest => if (load 0 mask i =? 1)%Z then false else maskScan mask rest
  end.

Definition maskArrayEmpty (mask : list Z) (count : nat) : bool :=
  maskScan mask (seq 0 count).

(** The initialisation loop at the head of each query. *)
Definition initStep (src : nat) (st : State) (v : nat) : State :=
  if v =? src then
    mkState (store (maskArray st) v 1%Z)
            (store (costArray st) v fzero)
            (store (updatingCostArray st) v fzero)
  else
    mkState (store (maskArray st) v 0%Z)
            (store (costArray st) v FLT_MAX)
            (store (updatingCostArray st) v FLT_MAX).

Definition initializeBuffers (g : GraphData) (src : nat) (st : State) : State :=
  fold_left (initStep src) (seq 0 (vertexCount g)) st.

(** [edgeStart] and [edgeEnd] of vertex [tid]. *)
Definition edgeStartOf (g : GraphData) (tid : nat) : nat :=
  load 0 (vertexArray g) tid.

Definition edgeEndOf (g : GraphData) (tid : nat) : nat :=
  if tid + 1 <? vertexCount g then load 0 (vertexArray g) (tid + 1)
  else edgeCount g.

(** Body of the inner [for (edge ...)] loop. *)
Definition relaxEdge (g : GraphData) (cost : list F) (tid : nat)
           (upd : list F) (edge : nat) : list F :=
  let nid := load 0 (edgeArray g) edge in
  let c := fadd (load fzero cost tid) (load fzero (weightArray g) edge) in
  if fgt (load fzero upd nid) c then store upd nid c else upd.

(** Body of the first [for (tid ...)] loop (the OCL_SSSP_KERNEL1 part). *)
Definition kernel1Step (g : GraphData) (st : State) (tid : nat) : State :=
  if negb (load 0 (maskArray st) tid =? 0)%Z then
    let edgeStart := edgeStartOf g tid in
    let edgeEnd := edgeEndOf g tid in
    mkState (store (maskArray st) tid 0%Z)
            (costArray st)
            (fold_left (relaxEdge g (costArray st) tid)
                       (seq edgeStart (edgeEnd - edgeStart))
                       (updatingCostArray st))
  else st.

Definition kernel1 (g : GraphData) (st : State) : State :=
  fold_left (kernel1Step g) (seq 0 (vertexCount g)) st.

(** Body of the second [for (tid ...)] loop (the OCL_SSSP_KERNEL2 part). *)
Definition kernel2Step (st : State) (tid : nat) : State :=
  let st1 :=
    if fgt (load fzero (costArray st) tid) (load fzero (updatingCostArray st) tid)
    then mkState (store (maskArray st) tid 1%Z)
                 (store (costArray st) tid (load fzero (updatingCostArray st) tid))
                 (updatingCostArray st)
    else st in
  mkState (maskArray st1) (costArray st1)
          (store (updatingCostArray st1) tid (load fzero (costArray st1) tid)).

Definition kernel2 (g : GraphData) (st : State) : State :=
  fold_left kernel2Step (seq 0 (vertexCount g)) st.

(** One trip through the body of the [while] loop. *)
Definition iteration (g : GraphData) (st : State) : State :=
  kernel2 g (kernel1 g st).

(** The [while (!maskArrayEmpty(...))] loop; [fuel] bounds the number of
    tests of the condition, [None] means the bound was reached. *)
Fixpoint whileLoop (fuel : nat) (g : GraphData) (st : State) : option State :=
  match fuel with
  | O => None
  | S fuel' =>
      if maskArrayEmpty (maskArray st) (vertexCount g) then Some st
      else whileLoop fuel' g (iteration g st)
  end.

(** [memcpy(&dst[off], src, n * sizeof(float))]. *)
Definition memcpy (dst : list F) (off : nat) (src : list F) (n : nat) : list F :=
  fold_left (fun d j => store d (off + j) (load fzero src j)) (seq 0 n) dst.

(** [memcpy(&dst[idx], src, n * sizeof(float))] for an [int] index.  With a
    negative index the destination lies before the array, and nothing of
    the array is written. *)
Definition memcpyAt (dst : list F) (idx : Z) (src : list F) (n : nat) : list F :=
  if (idx <? 0)%Z then dst else memcpy dst (Z.to_nat idx) src n.

(** The [for (i ...)] loop over the queries.  The work arrays are carried
    from one query to the next, as in the source. *)
Fixpoint queryLoop (fuel : nat) (g : GraphData) (sourceVertices : list nat)
         (queries : list nat) (st : State) (out : list F) : option (list F) :=
  match queries with
  | [] => Some out
  | i :: rest =>
      match whileLoop fuel g (initializeBuffers g (load 0 sourceVertices i) st) with
      | None => None
      | Some st' =>
          queryLoop fuel g sourceVertices rest st'
                    (memcpyAt out (rowIndex i (vertexCount g)) (costArray st')
                              (vertexCount g))
      end
  end.

(** [new float[n]], [new int[n]]: the content is overwritten by
    [initializeBuffers] before it is read. *)
Definition allocState (g : GraphData) : State :=
  mkState (repeat 0%Z (vertexCount g)) (repeat fzero (vertexCount g))
          (repeat fzero (vertexCount g)).

Definition runDijkstraRef (fuel : nat) (g : GraphData) (sourceVertices : list nat)
           (outResultCosts : list F) (numResults : nat) : option (list F) :=
  queryLoop fuel g sourceVertices (seq 0 numResults) (allocState g) outResultCosts.


(** ** Phase 1 as the specification words it *)

(** [min(a, b)] on costs, decided by the engine's own comparison. *)
Definition fmin (a b : F) : F := if fgt a b then b else a.

(** The vertices whose mask entry is 1, in increasing order. *)
Definition isActive (st : State) (tid : nat) : bool :=
  (load 0 (maskArray st) tid =? 1)%Z.

Definition activeVertices (g : GraphData) (st : State) : list nat :=
  filter (isActive st) (seq 0 (vertexCount g)).

(** The edge indices [vertexArray[tid] .. vertexArray[tid+1]), with
    [edgeCount] closing the range of the last vertex. *)
Definition outgoingEdges (g : GraphData) (tid : nat) : list nat :=
  seq (edgeStartOf g tid) (edgeEndOf g tid - edgeStartOf g tid).

(** [updatingCost[nid] = min(updatingCost[nid], cost[tid] + w)], the weight
    taken at the edge index. *)
Definition relaxOne (g : GraphData) (cost : list F) (tid : nat)
           (upd : list F) (e : nat) : list F :=
  let nid := load 0 (edgeArray g) e in
  store upd nid
        (fmin (load fzero upd nid)
              (fadd (load fzero cost tid) (load fzero (weightArray g) e))).

Definition phase1Vertex (g : GraphData) (st : State) (tid : nat) : State :=
  mkState (store (maskArray st) tid 0%Z)
          (costArray st)
          (fold_left (relaxOne g (costArray st) tid) (outgoingEdges g tid)
                     (updatingCostArray st)).

Definition phase1Spec (g : GraphData) (st : State) : State :=
  fold_left (phase1Vertex g) (activeVertices g st) st.

(** ** Phase 2 as the specification words it *)

Definition commits (st : State) (tid : nat) : bool :=
  fgt (load fzero (costArray st) tid) (load fzero (updatingCostArray st) tid).

Definition phase2Cost (st : State) (tid : nat) : F :=
  if commits st tid then load fzero (updatingCostArray st) tid
  else load fzero (costArray st) tid.

Definition phase2Mask (st : State) (tid : nat) : Z :=
  if commits st tid then 1%Z else load 0%Z (maskArray st) tid.

(** ** States of the per-query loop *)

(** All three work arrays hold [vertexCount] entries. *)
Definition sized (g : GraphData) (st : State) : Prop :=
  length (maskArray st) = vertexCount g /\
  length (costArray st) = vertexCount g /\
  length (updatingCostArray st) = vertexCount g.

(** The states at the test of the [while] condition, for source [src]. *)
Inductive loopHead (g : GraphData) (src : nat) : State -> Prop :=
| head_init st0 :
    sized g st0 -> loopHead g src (initializeBuffers g src st0)
| head_iter st :
    loopHead g src st ->
    maskArrayEmpty (maskArray st) (vertexCount g) = false ->
    loopHead g src (iteration g st).

(** The states between the two sweeps of an iteration. *)
Definition loopMiddle (g : GraphData) (src : nat) (st : State) : Prop :=
  exists st0, loopHead g src st0 /\
              maskArrayEmpty (maskArray st0) (vertexCount g) = false /\
              st = kernel1 g st0.

Definition maskBinary (g : GraphData) (st : State) : Prop :=
  forall v, v < vertexCount g ->
            load 0%Z (maskArray st) v = 0%Z \/ load 0%Z (maskArray st) v = 1%Z.

Definition maskAllZero (g : GraphData) (st : State) : Prop :=
  forall v, v < vertexCount g -> load 0%Z (maskArray st) v = 0%Z.

(** The writes phase 1 attempts, in program order: destination vertex and
    candidate cost of every outgoing edge of every active vertex. *)
Definition relaxations (g : GraphData) (st : State) : list (nat * F) :=
  flat_map (fun tid =>
              map (fun e => (load 0 (edgeArray g) e,
                             fadd (load fzero (costArray st) tid)
                                  (load fzero (weightArray g) e)))
                  (outgoingEdges g tid))
           (activeVertices g st).

Definition applyRelaxation (upd : list F) (op : nat * F) : list F :=
  store upd (fst op) (fmin (load fzero upd (fst op)) (snd op)).

(** ** Walks of the CSR graph *)

Definition headOf (g : GraphData) (e : nat) : nat := load 0 (edgeArray g) e.

(** [walk g src v es]: the edge indices [es], last edge first, lead from
    [src] to [v]. *)
Inductive walk (g : GraphData) (src : nat) : nat -> list nat -> Prop :=
| walk_nil : walk g src src []
| walk_cons u es e :
    walk g src u es -> u < vertexCount g -> In e (outgoingEdges g u) ->
    walk g src (headOf g e) (e :: es).

Definition reachable (g : GraphData) (src v : nat) : Prop :=
  exists es, walk g src v es.

(** The cost the engine computes along a walk: the weights are added to
    [0.0] one edge after the other, from the source on. *)
Fixpoint pathCost (g : GraphData) (es : list nat) : F :=
  match es with
  | [] => fzero
  | e :: es' => fadd (pathCost g es') (load fzero (weightArray g) e)
  end.

(** The vertices a walk passes, last one first. *)
Fixpoint visits (g : GraphData) (src : nat) (es : list nat) : list nat :=
  match es with
  | [] => [src]
  | e :: es' => headOf g e :: visits g src es'
  end.

(** ** The caller contract on the graph *)

Fixpoint nondecreasing (l : list nat) : bool :=
  match l with
  | a :: t => match t with
              | b :: _ => (a <=? b) && nondecreasing t
              | [] => true
              end
  | [] => true
  end.

(** The CSR invariants of the data model: array sizes, offsets that do not
    decrease and stay within [edgeCount], destinations within
    [vertexCount]. *)
Definition csrInvariants (g : GraphData) : bool :=
  (length (vertexArray g) =? vertexCount g) &&
  (length (edgeArray g) =? edgeCount g) &&
  (length (weightArray g) =? edgeCount g) &&
  nondecreasing (vertexArray g) &&
  forallb (fun off => off <=? edgeCount g) (vertexArray g) &&
  forallb (fun nid => nid <? vertexCount g) (edgeArray g).

(** ** Facts that hold for any cost type *)

Lemma fold_left_invariant (S T : Type) (f : S -> T -> S) (P : S -> Prop) :
  (forall s t, P s -> P (f s t)) ->
  forall ts s, P s -> P (fold_left f ts s).
Proof.
  intros Hstep ts; induction ts as [|t ts IH]; simpl; auto.
Qed.

Lemma relaxEdge_relaxOne g cost tid upd e :
  relaxEdge g cost tid upd e = relaxOne g cost tid upd e.
Proof.
  unfold relaxEdge, relaxOne, fmin; cbv zeta.
  destruct (fgt _ _); auto.
  now rewrite store_load_id.
Qed.

Lemma relaxEdge_fold g cost tid es upd :
  fold_left (relaxEdge g cost tid) es upd = fold_left (relaxOne g cost tid) es upd.
Proof.
  revert upd; induction es as [|e es IH]; simpl; intros upd; auto.
  now rewrite relaxEdge_relaxOne, IH.
Qed.

Lemma kernel1Step_active g st tid :
  load 0%Z (maskArray st) tid = 1%Z -> kernel1Step g st tid = phase1Vertex g st tid.
Proof.
  intros H; unfold kernel1Step, phase1Vertex, outgoingEdges; rewrite H; simpl.
  now rewrite relaxEdge_fold.
Qed.

Lemma kernel1Step_idle g st tid :
  load 0%Z (maskArray st) tid = 0%Z -> kernel1Step g st tid = st.
Proof.
  intros H; unfold kernel1Step; now rewrite H.
Qed.

Lemma kernel1Step_cost g st tid :
  costArray (kernel1Step g st tid) = costArray st.
Proof.
  unfold kernel1Step; destruct (negb _); auto.
Qed.


Lemma kernel1_fold g ts : forall st,
  NoDup ts ->
  (forall t, In t ts ->
             load 0%Z (maskArray st) t = 0%Z \/ load 0%Z (maskArray st) t = 1%Z) ->
  fold_left (kernel1Step g) ts st =
  fold_left (phase1Vertex g) (filter (isActive st) ts) st.
Proof.
  induction ts as [|t ts IH]; intros st Hnd Hbin; simpl; auto.
  inversion Hnd as [|? ? Hnotin Hnd']; subst.
  assert (Hrest : forall st1,
             (forall v, v <> t ->
                        load 0%Z (maskArray st1) v = load 0%Z (maskArray st) v) ->
             fold_left (kernel1Step g) ts st1 =
             fold_left (phase1Vertex g) (filter (isActive st) ts) st1).
  { intros st1 Hsame. rewrite IH; auto.
    - f_equal. apply filter_ext_in. intros v Hv. unfold isActive.
      rewrite Hsame; auto. intros ->; contradiction.
    - intros v Hv. rewrite Hsame; [apply Hbin; now right|].
      intros ->; contradiction. }
  destruct (Hbin t (or_introl eq_refl)) as [H0|H1].
  - rewrite kernel1Step_idle by assumption.
    unfold isActive at 1. rewrite H0; simpl. apply Hrest; auto.
  - rewrite kernel1Step_active by assumption.
    unfold isActive at 1. rewrite H1; simpl. apply Hrest.
    intros v Hv; simpl. apply load_store_other; auto.
Qed.

Lemma kernel1_refines_spec g st :
  maskBinary g st -> kernel1 g st = phase1Spec g st.
Proof.
  intros Hbin. unfold kernel1, phase1Spec, activeVertices.
  apply kernel1_fold.
  - apply seq_NoDup.
  - intros t Ht. apply in_seq in Ht. apply Hbin. lia.
Qed.

(** *** Sizes *)

Lemma initStep_sized g src st v : sized g st -> sized g (initStep src st v).
Proof.
  unfold sized, initStep. intros (Hm & Hc & Hu).
  destruct (v =? src); simpl; rewrite !length_store; auto.
Qed.

Lemma relaxEdge_length g cost tid upd e :
  length (relaxEdge g cost tid upd e) = length upd.
Proof.
  unfold relaxEdge; cbv zeta. destruct (fgt _ _); auto using length_store.
Qed.

Lemma relaxEdge_fold_length g cost tid es : forall upd,
  length (fold_left (relaxEdge g cost tid) es upd) = length upd.
Proof.
  induction es as [|e es IH]; simpl; intros upd; auto.
  now rewrite IH, relaxEdge_length.
Qed.

Lemma kernel1Step_sized g st tid : sized g st -> sized g (kernel1Step g st tid).
Proof.
  unfold sized, kernel1Step. intros (Hm & Hc & Hu).
  destruct (negb _); simpl; auto.
  now rewrite length_store, relaxEdge_fold_length.
Qed.

Lemma kernel2Step_sized g st tid : sized g st -> sized g (kernel2Step st tid).
Proof.
  unfold sized, kernel2Step. intros (Hm & Hc & Hu).
  destruct (fgt _ _); simpl; rewrite ?length_store; auto.
Qed.

Lemma initializeBuffers_sized g src st :
  sized g st -> sized g (initializeBuffers g src st).
Proof.
  unfold initializeBuffers. apply fold_left_invariant.
  intros; now apply initStep_sized.
Qed.

Lemma kernel1_sized g st : sized g st -> sized g (kernel1 g st).
Proof.
  unfold kernel1. apply fold_left_invariant.
  intros; now apply kernel1Step_sized.
Qed.

Lemma kernel2_sized g st : sized g st -> sized g (kernel2 g st).
Proof.
  unfold kernel2. apply fold_left_invariant.
  intros; now apply kernel2Step_sized.
Qed.

Lemma iteration_sized g st : sized g st -> sized g (iteration g st).
Proof.
  intros H. unfold iteration. now apply kernel2_sized, kernel1_sized.
Qed.

Lemma allocState_sized g : sized g (allocState g).
Proof.
  unfold sized, allocState; simpl. now rewrite !repeat_length.
Qed.

Lemma loopHead_sized g src st : loopHead g src st -> sized g st.
Proof.
  induction 1.
  - now apply initializeBuffers_sized.
  - now apply iteration_sized.
Qed.

(** *** The sweeps, entry by entry *)

Ltac case_ltb :=
  repeat match goal with
         | |- context [?a <? ?b] => destruct (Nat.ltb_spec a b)
         | |- context [?a =? ?b] => destruct (Nat.eqb_spec a b)
         end; simpl; try lia; auto.

Lemma initializeBuffers_prefix g src k : forall st,
  k <= vertexCount g -> sized g st ->
  let st' := fold_left (initStep src) (seq 0 k) st in
  forall v,
    load 0%Z (maskArray st') v =
      (if v <? k then if v =? src then 1%Z else 0%Z
       else load 0%Z (maskArray st) v) /\
    load fzero (costArray st') v =
      (if v <? k then if v =? src then fzero else FLT_MAX
       else load fzero (costArray st) v) /\
    load fzero (updatingCostArray st') v =
      (if v <? k then if v =? src then fzero else FLT_MAX
       else load fzero (updatingCostArray st) v).
Proof.
  induction k as [|k IH]; intros st Hk Hsz; cbv zeta.
  - intros v; simpl; auto.
  - intros v. rewrite seq_S, fold_left_app, Nat.add_0_l; cbn [fold_left].
    assert (Hk' : k <= vertexCount g) by lia.
    specialize (IH st Hk' Hsz). cbv zeta in IH.
    assert (Hsz' : sized g (fold_left (initStep src) (seq 0 k) st)).
    { apply fold_left_invariant; auto. intros; now apply initStep_sized. }
    destruct Hsz' as (Hm & Hc & Hu).
    destruct (IH v) as (IHm & IHc & IHu).
    set (stk := fold_left (initStep src) (seq 0 k) st) in *.
    unfold initStep.
    destruct (Nat.eqb_spec k src) as [Hks|Hks];
      cbn [maskArray costArray updatingCostArray];
      rewrite !load_store, Hm, Hc, Hu, IHm, IHc, IHu;
      repeat split; case_ltb.
Qed.

Lemma initializeBuffers_spec g src st v :
  sized g st -> v < vertexCount g ->
  load 0%Z (maskArray (initializeBuffers g src st)) v = (if v =? src then 1%Z else 0%Z) /\
  load fzero (costArray (initializeBuffers g src st)) v = (if v =? src then fzero else FLT_MAX) /\
  load fzero (updatingCostArray (initializeBuffers g src st)) v =
    (if v =? src then fzero else FLT_MAX).
Proof.
  intros Hsz Hv.
  pose proof (@initializeBuffers_prefix g src (vertexCount g) st (Nat.le_refl _) Hsz v) as H.
  cbv zeta in H. fold (initializeBuffers g src st) in H.
  destruct (Nat.ltb_spec v (vertexCount g)); [exact H | lia].
Qed.

Lemma kernel2_prefix g k : forall st,
  k <= vertexCount g -> sized g st ->
  let st' := fold_left kernel2Step (seq 0 k) st in
  forall v,
    load 0%Z (maskArray st') v =
      (if v <? k then phase2Mask st v else load 0%Z (maskArray st) v) /\
    load fzero (costArray st') v =
      (if v <? k then phase2Cost st v else load fzero (costArray st) v) /\
    load fzero (updatingCostArray st') v =
      (if v <? k then phase2Cost st v else load fzero (updatingCostArray st) v).
Proof.
  induction k as [|k IH]; intros st Hk Hsz; cbv zeta.
  - intros v; simpl; auto.
  - intros v. rewrite seq_S, fold_left_app, Nat.add_0_l; cbn [fold_left].
    assert (Hk' : k <= vertexCount g) by lia.
    specialize (IH st Hk' Hsz). cbv zeta in IH.
    assert (Hsz' : sized g (fold_left kernel2Step (seq 0 k) st)).
    { apply fold_left_invariant; auto. intros; now apply kernel2Step_sized. }
    destruct Hsz' as (Hm & Hc & Hu).
    destruct (IH v) as (IHm & IHc & IHu).
    destruct (IH k) as (IHmk & IHck & IHuk).
    rewrite Nat.ltb_irrefl in IHmk, IHck, IHuk.
    set (stk := fold_left kernel2Step (seq 0 k) st) in *.
    unfold kernel2Step. rewrite IHck, IHuk.
    unfold phase2Mask, phase2Cost, commits.
    destruct (fgt (load fzero (costArray st) k) (load fzero (updatingCostArray st) k)) eqn:Hgt;
      cbn [maskArray costArray updatingCostArray]; rewrite !load_store, ?length_store, ?Hm, ?Hc, ?Hu, ?IHm, ?IHc, ?IHu, ?IHck, ?IHuk;
      unfold phase2Mask, phase2Cost, commits.
    + repeat split; case_ltb; try (assert (v = k) by lia; subst v);
        rewrite ?Hgt; auto; try lia.
    + repeat split; case_ltb; try (assert (v = k) by lia; subst v);
        rewrite ?Hgt; auto; try lia.
Qed.

Lemma kernel2_spec g st v :
  sized g st -> v < vertexCount g ->
  load 0%Z (maskArray (kernel2 g st)) v = phase2Mask st v /\
  load fzero (costArray (kernel2 g st)) v = phase2Cost st v /\
  load fzero (updatingCostArray (kernel2 g st)) v = phase2Cost st v.
Proof.
  intros Hsz Hv.
  pose proof (@kernel2_prefix g (vertexCount g) st (Nat.le_refl _) Hsz v) as H.
  cbv zeta in H. fold (kernel2 g st) in H.
  destruct (Nat.ltb_spec v (vertexCount g)); [exact H | lia].
Qed.

Lemma kernel2_resync g st :
  sized g st -> updatingCostArray (kernel2 g st) = costArray (kernel2 g st).
Proof.
  intros Hsz.
  destruct (kernel2_sized Hsz) as (_ & Hc & Hu).
  apply list_eq_load with (d := fzero); [congruence|].
  intros v Hv. rewrite Hu in Hv.
  destruct (kernel2_spec Hsz Hv) as (_ & -> & ->); auto.
Qed.

(** *** Phase 1: mask, cost and the list of relaxations *)

Lemma kernel1_mask_prefix g k : forall st,
  k <= vertexCount g -> sized g st ->
  forall v,
    load 0%Z (maskArray (fold_left (kernel1Step g) (seq 0 k) st)) v =
    if v <? k then 0%Z else load 0%Z (maskArray st) v.
Proof.
  induction k as [|k IH]; intros st Hk Hsz v.
  - simpl; auto.
  - rewrite seq_S, fold_left_app, Nat.add_0_l; cbn [fold_left].
    assert (Hk' : k <= vertexCount g) by lia.
    assert (Hsz' : sized g (fold_left (kernel1Step g) (seq 0 k) st)).
    { apply fold_left_invariant; auto. intros; now apply kernel1Step_sized. }
    pose proof (IH st Hk' Hsz v) as IHv.
    pose proof (IH st Hk' Hsz k) as IHk. rewrite Nat.ltb_irrefl in IHk.
    set (stk := fold_left (kernel1Step g) (seq 0 k) st) in *.
    destruct Hsz' as (Hm & _).
    unfold kernel1Step.
    destruct (Z.eqb_spec (load 0%Z (maskArray stk) k) 0) as [Hz|Hnz];
      cbn [negb maskArray].
    + rewrite IHv. case_ltb. assert (v = k) by lia; subst v. congruence.
    + rewrite load_store, Hm, IHv. case_ltb.
Qed.

Lemma kernel1_mask g st v :
  sized g st -> v < vertexCount g -> load 0%Z (maskArray (kernel1 g st)) v = 0%Z.
Proof.
  intros Hsz Hv. unfold kernel1.
  rewrite kernel1_mask_prefix by auto.
  destruct (Nat.ltb_spec v (vertexCount g)); [auto | lia].
Qed.

Lemma kernel1_cost g st : costArray (kernel1 g st) = costArray st.
Proof.
  unfold kernel1.
  apply (@fold_left_invariant _ _ (kernel1Step g)
           (fun s => costArray s = costArray st)); auto.
  intros s t Hs. now rewrite kernel1Step_cost.
Qed.

Lemma relaxOne_fold_ops g cost tid es : forall upd,
  fold_left (relaxOne g cost tid) es upd =
  fold_left applyRelaxation
            (map (fun e => (load 0 (edgeArray g) e,
                            fadd (load fzero cost tid)
                                 (load fzero (weightArray g) e))) es)
            upd.
Proof.
  induction es as [|e es IH]; simpl; intros upd; auto.
Qed.

Lemma phase1Vertex_fold g c ts : forall st,
  costArray st = c ->
  costArray (fold_left (phase1Vertex g) ts st) = c /\
  updatingCostArray (fold_left (phase1Vertex g) ts st) =
  fold_left applyRelaxation
            (flat_map (fun tid =>
                         map (fun e => (load 0 (edgeArray g) e,
                                        fadd (load fzero c tid)
                                             (load fzero (weightArray g) e)))
                             (outgoingEdges g tid)) ts)
            (updatingCostArray st).
Proof.
  induction ts as [|t ts IH]; intros st Hc; cbn [fold_left flat_map]; auto.
  destruct (IH (phase1Vertex g st t)) as (IHc & IHu); [exact Hc|].
  split; [exact IHc|].
  rewrite IHu, fold_left_app. cbn [phase1Vertex updatingCostArray].
  now rewrite relaxOne_fold_ops, Hc.
Qed.

Lemma kernel1_upd g st :
  maskBinary g st ->
  updatingCostArray (kernel1 g st) =
  fold_left applyRelaxation (relaxations g st) (updatingCostArray st).
Proof.
  intros Hbin. rewrite kernel1_refines_spec by assumption.
  unfold phase1Spec, relaxations.
  now destruct (@phase1Vertex_fold g (costArray st) (activeVertices g st) st eq_refl).
Qed.

Lemma in_relaxations g st tid e :
  tid < vertexCount g ->
  load 0%Z (maskArray st) tid = 1%Z ->
  In e (outgoingEdges g tid) ->
  In (load 0 (edgeArray g) e,
      fadd (load fzero (costArray st) tid) (load fzero (weightArray g) e))
     (relaxations g st).
Proof.
  intros Htid Hact He. unfold relaxations.
  apply in_flat_map. exists tid. split.
  - unfold activeVertices. apply filter_In. split.
    + apply in_seq; lia.
    + unfold isActive. now rewrite Hact.
  - apply in_map_iff. now exists e.
Qed.

Lemma relaxations_inv g st nid x :
  In (nid, x) (relaxations g st) ->
  exists tid e,
    tid < vertexCount g /\ load 0%Z (maskArray st) tid = 1%Z /\
    In e (outgoingEdges g tid) /\ nid = load 0 (edgeArray g) e /\
    x = fadd (load fzero (costArray st) tid) (load fzero (weightArray g) e).
Proof.
  unfold relaxations. intros H.
  apply in_flat_map in H. destruct H as (tid & Hact & H).
  apply in_map_iff in H. destruct H as (e & Heq & He).
  unfold activeVertices in Hact. apply filter_In in Hact.
  destruct Hact as (Hseq & Hact). apply in_seq in Hseq.
  unfold isActive in Hact. apply Z.eqb_eq in Hact.
  exists tid, e. inversion Heq; subst. repeat split; auto; lia.
Qed.

Lemma applyRelaxation_length upd op : length (applyRelaxation upd op) = length upd.
Proof. unfold applyRelaxation. apply length_store. Qed.


(** Every entry after the relaxations is the old entry or one of the
    candidates written to it. *)
Lemma applyRelaxations_provenance ops : forall upd v,
  load fzero (fold_left applyRelaxation ops upd) v = load fzero upd v \/
  exists x, In (v, x) ops /\ load fzero (fold_left applyRelaxation ops upd) v = x.
Proof.
  induction ops as [|[nid x] ops IH]; intros upd v; cbn [fold_left]; auto.
  destruct (IH (applyRelaxation upd (nid, x)) v) as [Hsame|(y & Hin & Hy)].
  - rewrite Hsame. unfold applyRelaxation; cbn [fst snd].
    rewrite load_store.
    destruct ((nid =? v) && (nid <? length upd)) eqn:Hc; auto.
    apply andb_true_iff in Hc. destruct Hc as (Hc & _).
    apply Nat.eqb_eq in Hc; subst v.
    unfold fmin. destruct (fgt _ _); auto.
    right. exists x. split; [now left | reflexivity].
  - right. exists y. split; [now right | assumption].
Qed.

(** *** The frontier mask *)

Lemma maskScan_true_iff mask idx :
  maskScan mask idx = true <-> forall i, In i idx -> load 0%Z mask i <> 1%Z.
Proof.
  induction idx as [|i idx IH]; simpl.
  - split; [intros _ i [] | reflexivity].
  - destruct (Z.eqb_spec (load 0%Z mask i) 1) as [H1|H1].
    + split; [discriminate|]. intros H. exfalso. apply (H i); auto.
    + rewrite IH. split.
      * intros H j [<-|Hj]; auto.
      * intros H j Hj. apply H; auto.
Qed.

Lemma maskArrayEmpty_true_iff mask n :
  maskArrayEmpty mask n = true <-> forall v, v < n -> load 0%Z mask v <> 1%Z.
Proof.
  unfold maskArrayEmpty. rewrite maskScan_true_iff. split.
  - intros H v Hv. apply H. apply in_seq. lia.
  - intros H v Hv. apply in_seq in Hv. apply H. lia.
Qed.


Lemma maskArrayEmpty_binary g st :
  maskBinary g st ->
  (maskArrayEmpty (maskArray st) (vertexCount g) = true <-> maskAllZero g st).
Proof.
  intros Hbin. rewrite maskArrayEmpty_true_iff. unfold maskAllZero. split.
  - intros H v Hv. destruct (Hbin v Hv) as [H0|H1]; auto.
    exfalso. now apply (H v Hv).
  - intros H v Hv. rewrite (H v Hv). discriminate.
Qed.

Lemma initializeBuffers_maskBinary g src st :
  sized g st -> maskBinary g (initializeBuffers g src st).
Proof.
  intros Hsz v Hv.
  destruct (initializeBuffers_spec src Hsz Hv) as (-> & _).
  destruct (v =? src); auto.
Qed.

Lemma kernel1_maskAllZero g st : sized g st -> maskAllZero g (kernel1 g st).
Proof.
  intros Hsz v Hv. now apply kernel1_mask.
Qed.

Lemma kernel2_maskBinary g st :
  sized g st -> maskBinary g st -> maskBinary g (kernel2 g st).
Proof.
  intros Hsz Hbin v Hv.
  destruct (kernel2_spec Hsz Hv) as (-> & _).
  unfold phase2Mask. destruct (commits st v); auto.
Qed.

Lemma loopHead_maskBinary g src st : loopHead g src st -> maskBinary g st.
Proof.
  induction 1 as [st0 Hsz | st Hhead IH Hne].
  - now apply initializeBuffers_maskBinary.
  - unfold iteration. apply kernel2_maskBinary.
    + apply kernel1_sized. eapply loopHead_sized; eauto.
    + intros v Hv. left. apply kernel1_mask; auto.
      eapply loopHead_sized; eauto.
Qed.

Lemma loopMiddle_maskAllZero g src st : loopMiddle g src st -> maskAllZero g st.
Proof.
  intros (st0 & Hhead & _ & ->). apply kernel1_maskAllZero.
  eapply loopHead_sized; eauto.
Qed.

Lemma binary_tests_agree (m : Z) :
  m = 0%Z \/ m = 1%Z -> negb (m =? 0)%Z = (m =? 1)%Z.
Proof. intros [-> | ->]; reflexivity. Qed.

(** *** The sweeps and the mask, whatever the cost arithmetic *)

(** C2.  On a state whose mask entries are 0 or 1, the first sweep of the
    reference engine is the phase 1 of the specification: the vertices with
    mask 1 are visited in increasing order, each has its mask entry cleared
    and each of its outgoing edge indices [e] sets
    [updatingCost[edgeArray[e]]] to the minimum of its value and
    [cost[tid] + weightArray[e]]; a vertex with mask 0 leaves the state
    untouched. *)
Theorem kernel1_as_specified (g : GraphData) (st : State) :
  maskBinary g st ->
  kernel1 g st = phase1Spec g st /\
  (forall st' tid, load 0%Z (maskArray st') tid = 0%Z -> kernel1Step g st' tid = st').
Proof.
  intros Hbin. split.
  - now apply kernel1_refines_spec.
  - intros st' tid. apply kernel1Step_idle.
Qed.

(** C3.  The second sweep of the reference engine, on work arrays of
    [vertexCount] entries: at every vertex [tid], if
    [cost[tid] > updatingCost[tid]] the cost becomes [updatingCost[tid]] and
    the mask entry becomes 1, otherwise both stay; in all cases
    [updatingCost[tid]] ends equal to the new [cost[tid]], so the two cost
    arrays coincide after the sweep. *)
Theorem kernel2_as_specified (g : GraphData) (st : State) :
  sized g st ->
  (forall tid, tid < vertexCount g ->
     load fzero (costArray (kernel2 g st)) tid =
       (if fgt (load fzero (costArray st) tid) (load fzero (updatingCostArray st) tid)
        then load fzero (updatingCostArray st) tid
        else load fzero (costArray st) tid) /\
     load 0%Z (maskArray (kernel2 g st)) tid =
       (if fgt (load fzero (costArray st) tid) (load fzero (updatingCostArray st) tid)
        then 1%Z
        else load 0%Z (maskArray st) tid) /\
     load fzero (updatingCostArray (kernel2 g st)) tid =
       load fzero (costArray (kernel2 g st)) tid) /\
  updatingCostArray (kernel2 g st) = costArray (kernel2 g st).
Proof.
  intros Hsz. split.
  - intros tid Htid.
    destruct (kernel2_spec Hsz Htid) as (Hm & Hc & Hu).
    rewrite Hm, Hc, Hu. unfold phase2Mask, phase2Cost, commits. auto.
  - now apply kernel2_resync.
Qed.

(** C10.  At the test of the [while] condition and between the two sweeps,
    every mask entry of a vertex is 0 or 1; hence [maskArrayEmpty] answers
    true exactly when every entry is 0, and the test [mask[tid] != 0] of
    phase 1 agrees with [mask[tid] == 1]. *)
Theorem mask_stays_binary (g : GraphData) (src : nat) (st : State) :
  loopHead g src st \/ loopMiddle g src st ->
  maskBinary g st /\
  (maskArrayEmpty (maskArray st) (vertexCount g) = true <-> maskAllZero g st) /\
  (forall tid, tid < vertexCount g ->
     negb (load 0%Z (maskArray st) tid =? 0)%Z = (load 0%Z (maskArray st) tid =? 1)%Z).
Proof.
  intros Hst.
  assert (Hbin : maskBinary g st).
  { destruct Hst as [Hhead|Hmid].
    - eapply loopHead_maskBinary; eauto.
    - intros v Hv. left. eapply loopMiddle_maskAllZero; eauto. }
  split; [exact Hbin|]. split.
  - now apply maskArrayEmpty_binary.
  - intros tid Htid. apply binary_tests_agree. now apply Hbin.
Qed.

(** *** Invariants of the stored costs *)

Lemma iteration_cost_cases g st v :
  sized g st -> v < vertexCount g ->
  load fzero (costArray (iteration g st)) v = load fzero (costArray st) v \/
  fgt (load fzero (costArray st) v) (load fzero (costArray (iteration g st)) v) = true.
Proof.
  intros Hsz Hv. unfold iteration.
  destruct (kernel2_spec (kernel1_sized Hsz) Hv) as (_ & -> & _).
  unfold phase2Cost, commits. rewrite kernel1_cost.
  destruct (fgt _ _) eqn:Hgt; auto.
Qed.

Section ValueInvariant.
(** A property of costs that holds of the two initial values and of every
    value that wins a comparison is a property of every stored cost. *)
Variable P : F -> Prop.
Hypothesis P_zero : P fzero.
Hypothesis P_max : P FLT_MAX.
Hypothesis P_smaller : forall a b, fgt a b = true -> P b.

Definition allCosts (st : State) : Prop :=
  forall v, P (load fzero (costArray st) v) /\ P (load fzero (updatingCostArray st) v).

Lemma store_keeps (l : list F) i x :
  (forall v, P (load fzero l v)) -> P x -> forall v, P (load fzero (store l i x) v).
Proof.
  intros Hl Hx v. rewrite load_store. destruct (_ && _); auto.
Qed.


Lemma relaxEdge_keeps g cost tid upd e :
  (forall v, P (load fzero upd v)) ->
  forall v, P (load fzero (relaxEdge g cost tid upd e) v).
Proof.
  intros H. unfold relaxEdge; cbv zeta.
  destruct (fgt _ _) eqn:Hgt; auto.
  apply store_keeps; auto. eapply P_smaller; eauto.
Qed.

Lemma kernel1Step_allCosts g st tid : allCosts st -> allCosts (kernel1Step g st tid).
Proof.
  intros H. unfold kernel1Step. destruct (negb _); auto.
  intros v; cbn [costArray updatingCostArray]. split; [apply H|].
  revert v.
  apply (@fold_left_invariant _ _ (relaxEdge g (costArray st) tid)
           (fun u => forall v, P (load fzero u v))).
  - intros u e Hu. now apply relaxEdge_keeps.
  - intros v; apply H.
Qed.

Lemma kernel2Step_allCosts st tid : allCosts st -> allCosts (kernel2Step st tid).
Proof.
  intros H. unfold kernel2Step.
  destruct (fgt _ _); cbn [costArray updatingCostArray]; intros v; split;
    repeat (apply store_keeps; try (intros u)); try apply H.
Qed.

Lemma initializeBuffers_allCosts g st src :
  sized g st -> allCosts (initializeBuffers g src st).
Proof.
  intros Hsz v.
  destruct (Nat.lt_ge_cases v (vertexCount g)) as [Hv|Hv].
  - destruct (initializeBuffers_spec src Hsz Hv) as (_ & -> & ->).
    destruct (v =? src); auto.
  - destruct (initializeBuffers_sized src Hsz) as (_ & Hc & Hu).
    unfold load. rewrite !nth_overflow by lia. auto.
Qed.

Lemma iteration_allCosts g st : allCosts st -> allCosts (iteration g st).
Proof.
  intros H. unfold iteration, kernel2, kernel1.
  apply fold_left_invariant; [intros; now apply kernel2Step_allCosts|].
  apply fold_left_invariant; [intros; now apply kernel1Step_allCosts|].
  exact H.
Qed.

Lemma loopHead_allCosts g src st : loopHead g src st -> allCosts st.
Proof.
  induction 1.
  - now apply initializeBuffers_allCosts.
  - now apply iteration_allCosts.
Qed.
End ValueInvariant.

(** One iteration, entry by entry, in terms of the relaxations of phase 1. *)
Lemma iteration_entry g st v :
  sized g st -> maskBinary g st -> v < vertexCount g ->
  let u1 := load fzero (fold_left applyRelaxation (relaxations g st)
                                  (updatingCostArray st)) v in
  let c := load fzero (costArray st) v in
  load fzero (costArray (iteration g st)) v = (if fgt c u1 then u1 else c) /\
  load 0%Z (maskArray (iteration g st)) v = (if fgt c u1 then 1%Z else 0%Z).
Proof.
  intros Hsz Hbin Hv. cbv zeta. unfold iteration.
  destruct (kernel2_spec (kernel1_sized Hsz) Hv) as (Hm & Hc & _).
  rewrite Hm, Hc. unfold phase2Mask, phase2Cost, commits.
  rewrite kernel1_cost, kernel1_upd, kernel1_mask by auto.
  split; reflexivity.
Qed.

(** *** The [while] loop *)

Lemma whileLoop_stops g k : forall st,
  maskArrayEmpty (maskArray (Nat.iter k (iteration g) st)) (vertexCount g) = true ->
  exists j,
    j <= k /\
    maskArrayEmpty (maskArray (Nat.iter j (iteration g) st)) (vertexCount g) = true /\
    (forall i, i < j ->
       maskArrayEmpty (maskArray (Nat.iter i (iteration g) st)) (vertexCount g) = false) /\
    forall fuel, j < fuel ->
      whileLoop fuel g st = Some (Nat.iter j (iteration g) st).
Proof.
  induction k as [|k IH]; intros st Hk.
  - exists 0. repeat split; auto; try lia.
    intros [|fuel] Hf; [lia|]. simpl in *. now rewrite Hk.
  - destruct (maskArrayEmpty (maskArray st) (vertexCount g)) eqn:Hst.
    + exists 0. repeat split; auto; try lia.
      intros [|fuel] Hf; [lia|]. simpl. now rewrite Hst.
    + rewrite Nat.iter_succ_r in Hk.
      destruct (IH (iteration g st) Hk) as (j & Hj & Hjempty & Hbefore & Hrun).
      exists (S j). repeat split; try lia.
      * now rewrite Nat.iter_succ_r.
      * intros [|i] Hi; [exact Hst|]. rewrite Nat.iter_succ_r. apply Hbefore. lia.
      * intros [|fuel] Hf; [lia|]. simpl. rewrite Hst.
        rewrite Hrun by lia. now rewrite <- Nat.iter_succ_r.
Qed.

(** *** Copying a result row *)

Lemma memcpy_prefix (dst src : list F) off k :
  length (fold_left (fun d j => store d (off + j) (load fzero src j)) (seq 0 k) dst)
    = length dst /\
  forall j,
    load fzero (fold_left (fun d j => store d (off + j) (load fzero src j)) (seq 0 k) dst) j =
    if (off <=? j) && (j <? off + k) && (j <? length dst)
    then load fzero src (j - off) else load fzero dst j.
Proof.
  induction k as [|k (IHlen & IH)].
  - split; [reflexivity|]. intros j. cbn [seq fold_left].
    destruct (off <=? j) eqn:H1; destruct (j <? off + 0) eqn:H2; cbn [andb]; auto.
    apply Nat.leb_le in H1. apply Nat.ltb_lt in H2. lia.
  - rewrite seq_S, fold_left_app, Nat.add_0_l. cbn [fold_left].
    split; [now rewrite length_store|].
    intros j. rewrite load_store, IHlen, IH.
    destruct (Nat.eqb_spec (off + k) j) as [Hj|Hj];
      destruct (Nat.ltb_spec (off + k) (length dst));
      destruct (Nat.leb_spec off j);
      destruct (Nat.ltb_spec j (off + k));
      destruct (Nat.ltb_spec j (off + S k));
      destruct (Nat.ltb_spec j (length dst));
      cbn [andb]; try lia; auto.
    f_equal. lia.
Qed.

Lemma memcpy_length dst off src n : length (memcpy dst off src n) = length dst.
Proof. apply memcpy_prefix. Qed.

Lemma memcpy_load dst off src n j :
  load fzero (memcpy dst off src n) j =
  if (off <=? j) && (j <? off + n) && (j <? length dst)
  then load fzero src (j - off) else load fzero dst j.
Proof. apply memcpy_prefix. Qed.

(** Where the row index fits an [int], the row is copied to
    [i * vertexCount]. *)
Lemma memcpyAt_row dst i n src :
  (Z.of_nat (i * n) < 2 ^ 31)%Z ->
  memcpyAt dst (rowIndex i n) src n = memcpy dst (i * n) src n.
Proof.
  intros H. unfold memcpyAt. rewrite rowIndex_exact by assumption.
  destruct (Z.ltb_spec (Z.of_nat (i * n)) 0); [lia|]. now rewrite Nat2Z.id.
Qed.

(** Rows of different queries do not overlap. *)
Lemma rows_disjoint n i i' v :
  i <> i' -> v < n -> ~ (i' * n <= i * n + v < i' * n + n).
Proof.
  intros Hne Hv [H1 H2].
  destruct (Nat.lt_ge_cases i i') as [Hlt|Hge].
  - assert ((i + 1) * n <= i' * n) by (apply Nat.mul_le_mono_r; lia). lia.
  - assert ((i' + 1) * n <= i * n) by (apply Nat.mul_le_mono_r; lia). lia.
Qed.

(** ** The engine over an ordered cost domain *)

Section Laws.
(** What the convergence argument needs of the cost arithmetic.  [okf]
    singles out the costs that occur (for binary32: the well-formed,
    non-negative values, infinity included), [V] embeds them in the integers
    in an order-preserving way.  Addition of such values yields such values,
    is monotone in its left operand and never yields less than its left
    operand. *)
Variable okf : F -> Prop.
Variable V : F -> Z.
Hypothesis fgt_V : forall a b, okf a -> okf b -> fgt a b = (V b <? V a)%Z.
Hypothesis okf_zero : okf fzero.
Hypothesis okf_max : okf FLT_MAX.
Hypothesis V_zero_least : forall a, okf a -> (V fzero <= V a)%Z.
Hypothesis okf_add : forall a w, okf a -> okf w -> okf (fadd a w).
Hypothesis fadd_mono :
  forall a b w, okf a -> okf b -> okf w ->
                (V a <= V b)%Z -> (V (fadd a w) <= V (fadd b w))%Z.
Hypothesis fadd_infl :
  forall a w, okf a -> okf w -> (V a <= V (fadd a w))%Z.

Variable g : GraphData.
Hypothesis g_csr : csrInvariants g = true.
Hypothesis g_weights : Forall okf (weightArray g).

Lemma fgt_true a b : okf a -> okf b -> fgt a b = true -> (V b < V a)%Z.
Proof. intros Ha Hb H. rewrite fgt_V in H by auto. now apply Z.ltb_lt. Qed.

Lemma fgt_false a b : okf a -> okf b -> fgt a b = false -> (V a <= V b)%Z.
Proof. intros Ha Hb H. rewrite fgt_V in H by auto. now apply Z.ltb_ge. Qed.

Lemma okf_fmin a b : okf a -> okf b -> okf (fmin a b).
Proof. intros; unfold fmin; destruct (fgt a b); auto. Qed.

Lemma V_fmin a b : okf a -> okf b -> V (fmin a b) = Z.min (V a) (V b).
Proof.
  intros Ha Hb. unfold fmin. destruct (fgt a b) eqn:Hgt.
  - apply fgt_true in Hgt; auto. lia.
  - apply fgt_false in Hgt; auto. lia.
Qed.

Lemma okf_weight e : okf (load fzero (weightArray g) e).
Proof.
  unfold load. destruct (Nat.lt_ge_cases e (length (weightArray g))) as [H|H].
  - eapply Forall_forall; [exact g_weights|]. now apply nth_In.
  - now rewrite nth_overflow.
Qed.

(** *** The graph *)

Lemma csr_facts :
  length (vertexArray g) = vertexCount g /\
  length (edgeArray g) = edgeCount g /\
  (forall i, i < vertexCount g -> load 0 (vertexArray g) i <= edgeCount g) /\
  (forall e, e < edgeCount g -> headOf g e < vertexCount g).
Proof.
  pose proof g_csr as H. unfold csrInvariants in H.
  repeat (apply andb_true_iff in H; destruct H as (H & ?)).
  apply Nat.eqb_eq in H.
  repeat match goal with X : (_ =? _) = true |- _ => apply Nat.eqb_eq in X end.
  repeat split; auto.
  - intros i Hi.
    match goal with X : forallb (fun off => off <=? _) _ = true |- _ =>
      rewrite forallb_forall in X; apply Nat.leb_le; apply X end.
    apply nth_In; lia.
  - intros e He.
    match goal with X : forallb (fun nid => nid <? _) _ = true |- _ =>
      rewrite forallb_forall in X; apply Nat.ltb_lt; apply X end.
    apply nth_In; lia.
Qed.

Lemma edgeEndOf_le tid : tid < vertexCount g -> edgeEndOf g tid <= edgeCount g.
Proof.
  intros Htid. unfold edgeEndOf.
  destruct (Nat.ltb_spec (tid + 1) (vertexCount g)); auto.
  now apply csr_facts.
Qed.

Lemma outgoing_head_valid u e :
  u < vertexCount g -> In e (outgoingEdges g u) -> headOf g e < vertexCount g.
Proof.
  intros Hu He. apply csr_facts.
  unfold outgoingEdges in He. apply in_seq in He.
  pose proof (edgeEndOf_le Hu). lia.
Qed.

Lemma outgoing_in_range u e :
  u < vertexCount g -> In e (outgoingEdges g u) -> e < edgeCount g.
Proof.
  intros Hu He. unfold outgoingEdges in He. apply in_seq in He.
  pose proof (edgeEndOf_le Hu). lia.
Qed.

(** A vertex that no edge points to is reached from itself only. *)
Lemma no_incoming_unreachable s v :
  v <> s -> (forall e, e < edgeCount g -> headOf g e <> v) -> ~ reachable g s v.
Proof.
  intros Hne Hno (es & Hw).
  inversion Hw as [Hsv | u es0 e Hw0 Hu He Hhead Hes].
  - congruence.
  - apply (Hno e); auto. eapply outgoing_in_range; eauto.
Qed.

(** *** Walks *)

Section Query.
Variable src : nat.
Hypothesis src_valid : src < vertexCount g.


Lemma okf_pathCost es : okf (pathCost g es).
Proof.
  induction es as [|e es IH]; simpl; auto using okf_weight.
Qed.

Lemma visits_length es : length (visits g src es) = S (length es).
Proof. induction es; simpl; auto. Qed.

Lemma visits_valid v es :
  walk g src v es -> forall x, In x (visits g src es) -> x < vertexCount g.
Proof.
  induction 1 as [|u es e Hw IH Hu He]; simpl.
  - intros x [<-|[]]; auto.
  - intros x [<-|Hx]; auto. eapply outgoing_head_valid; eauto.
Qed.

(** A walk can be cut back to any vertex it passes, and costs no less than
    the part kept. *)
Lemma walk_cut v es x :
  walk g src v es -> In x (visits g src es) ->
  exists es1,
    walk g src x es1 /\
    (exists l, visits g src es = l ++ visits g src es1) /\
    (V (pathCost g es1) <= V (pathCost g es))%Z.
Proof.
  induction 1 as [|u es e Hw IH Hu He]; simpl; intros Hx.
  - destruct Hx as [<-|[]]. exists []. split; [constructor|].
    split; [now exists [] | simpl; lia].
  - destruct (Nat.eq_dec (headOf g e) x) as [Heq|Hne].
    + subst x. exists (e :: es). split; [econstructor; eauto|].
      split; [now exists [] | simpl; lia].
    + destruct Hx as [Heq|Hx]; [contradiction|].
      destruct (IH Hx) as (es1 & Hw1 & (l & Hl) & Hle).
      exists es1. split; auto. split.
      * exists (headOf g e :: l). now rewrite Hl.
      * pose proof (@fadd_infl (pathCost g es) (load fzero (weightArray g) e)
                      (okf_pathCost es) (okf_weight e)). lia.
Qed.

(** Among the walks to a vertex, one that repeats no vertex is cheapest. *)
Lemma walk_simple v es :
  walk g src v es ->
  exists es',
    walk g src v es' /\ NoDup (visits g src es') /\
    (V (pathCost g es') <= V (pathCost g es))%Z.
Proof.
  induction 1 as [|u es e Hw IH Hu He].
  - exists []. split; [constructor|]. split; [|simpl; lia].
    simpl. constructor; [intros [] | constructor].
  - destruct IH as (es0 & Hw0 & Hnd0 & Hle0).
    assert (Hstep : (V (pathCost g (e :: es0)) <= V (pathCost g (e :: es)))%Z).
    { simpl. apply fadd_mono; auto using okf_pathCost, okf_weight. }
    destruct (in_dec Nat.eq_dec (headOf g e) (visits g src es0)) as [Hin|Hnotin].
    + destruct (@walk_cut _ _ _ Hw0 Hin) as (es1 & Hw1 & (l & Hl) & Hle1).
      exists es1. split; auto. split.
      * rewrite Hl in Hnd0. now apply NoDup_app_remove_l in Hnd0.
      * pose proof (@fadd_infl (pathCost g es0) (load fzero (weightArray g) e)
                      (okf_pathCost es0) (okf_weight e)).
        simpl in Hstep. simpl. lia.
    + exists (e :: es0). split; [econstructor; eauto|]. split; auto.
      simpl. now constructor.
Qed.

Lemma walk_short v es :
  walk g src v es ->
  exists es',
    walk g src v es' /\ S (length es') <= vertexCount g /\
    (V (pathCost g es') <= V (pathCost g es))%Z.
Proof.
  intros Hw. destruct (walk_simple Hw) as (es' & Hw' & Hnd & Hle).
  exists es'. split; auto. split; auto.
  rewrite <- visits_length, <- (length_seq (vertexCount g) 0).
  apply NoDup_incl_length; auto.
  intros x Hx. apply in_seq. pose proof (@visits_valid _ _ Hw' x Hx). lia.
Qed.

(** *** Relaxations *)

Lemma applyRelaxations_laws ops : forall upd,
  (forall nid x, In (nid, x) ops -> okf x) ->
  (forall v, okf (load fzero upd v)) ->
  (forall v, okf (load fzero (fold_left applyRelaxation ops upd) v)) /\
  (forall v, (V (load fzero (fold_left applyRelaxation ops upd) v)
              <= V (load fzero upd v))%Z) /\
  (forall nid x, In (nid, x) ops -> nid < length upd ->
                 (V (load fzero (fold_left applyRelaxation ops upd) nid) <= V x)%Z).
Proof.
  induction ops as [|[nid x] ops IH]; intros upd Hops Hupd; cbn [fold_left].
  - repeat split; auto; try lia. intros ? ? [].
  - assert (Hx : okf x) by (eapply Hops; now left).
    assert (Hupd1 : forall v, okf (load fzero (applyRelaxation upd (nid, x)) v)).
    { intros v. unfold applyRelaxation; cbn [fst snd]. rewrite load_store.
      destruct (_ && _); auto using okf_fmin. }
    assert (Hle1 : forall v, (V (load fzero (applyRelaxation upd (nid, x)) v)
                              <= V (load fzero upd v))%Z).
    { intros v. unfold applyRelaxation; cbn [fst snd]. rewrite load_store.
      destruct ((nid =? v) && _) eqn:Hc; [|lia].
      apply andb_true_iff in Hc. destruct Hc as (Hc & _).
      apply Nat.eqb_eq in Hc; subst v. rewrite V_fmin by auto. lia. }
    destruct (IH (applyRelaxation upd (nid, x))) as (IHok & IHle & IHin); auto.
    { intros nid' x' Hin. eapply Hops. right; eauto. }
    split; [exact IHok|]. split.
    + intros v. specialize (IHle v). specialize (Hle1 v). lia.
    + intros nid' x' [Heq|Hin] Hlt.
      * inversion Heq; subst nid' x'. specialize (IHle nid).
        assert (Hhead : (V (load fzero (applyRelaxation upd (nid, x)) nid) <= V x)%Z).
        { unfold applyRelaxation; cbn [fst snd]. rewrite load_store_same by auto.
          rewrite V_fmin by auto. lia. }
        lia.
      * apply IHin; auto. now rewrite applyRelaxation_length.
Qed.

Lemma relaxations_okf st :
  (forall v, okf (load fzero (costArray st) v)) ->
  forall nid x, In (nid, x) (relaxations g st) -> okf x.
Proof.
  intros Hc nid x Hin.
  destruct (@relaxations_inv _ _ _ _ Hin) as (tid & e & _ & _ & _ & _ & ->).
  apply okf_add; auto using okf_weight.
Qed.

(** *** The invariant of the [while] loop *)

(** [Inv k st]: what holds of the state after [k] trips through the body. *)
Record Inv (k : nat) (st : State) : Prop := mkInv {
  inv_sized : sized g st;
  inv_binary : maskBinary g st;
  inv_sync : updatingCostArray st = costArray st;
  inv_ok : forall v, okf (load fzero (costArray st) v);
  inv_max : forall v, (V (load fzero (costArray st) v) <= V FLT_MAX)%Z;
  inv_src : load fzero (costArray st) src = fzero;
  inv_settled :
    forall u e, u < vertexCount g -> load 0%Z (maskArray st) u = 0%Z ->
                In e (outgoingEdges g u) ->
                (V (load fzero (costArray st) (headOf g e))
                 <= V (fadd (load fzero (costArray st) u)
                            (load fzero (weightArray g) e)))%Z;
  inv_lower :
    forall v es, walk g src v es -> length es <= k ->
                 (V (load fzero (costArray st) v) <= V (pathCost g es))%Z;
  inv_active :
    forall v, v < vertexCount g -> load 0%Z (maskArray st) v = 1%Z ->
              exists es, walk g src v es /\ length es <= k /\
                         load fzero (costArray st) v = pathCost g es;
  inv_unreached :
    forall v, v < vertexCount g -> ~ reachable g src v ->
              load fzero (costArray st) v = FLT_MAX
}.

Lemma Inv_init st0 : sized g st0 -> Inv 0 (initializeBuffers g src st0).
Proof.
  intros Hsz0.
  pose proof (initializeBuffers_sized src Hsz0) as Hsz.
  assert (Hcost : forall v, load fzero (costArray (initializeBuffers g src st0)) v = fzero \/
                            load fzero (costArray (initializeBuffers g src st0)) v = FLT_MAX).
  { intros v. destruct (Nat.lt_ge_cases v (vertexCount g)) as [Hv|Hv].
    - destruct (initializeBuffers_spec src Hsz0 Hv) as (_ & -> & _).
      destruct (v =? src); auto.
    - destruct Hsz as (_ & Hc & _). left. unfold load. now rewrite nth_overflow by lia. }
  constructor; auto.
  - now apply initializeBuffers_maskBinary.
  - destruct Hsz as (_ & Hc & Hu).
    apply list_eq_load with (d := fzero); [congruence|].
    intros v Hv. rewrite Hu in Hv.
    destruct (initializeBuffers_spec src Hsz0 Hv) as (_ & -> & ->); auto.
  - intros v. destruct (Hcost v) as [-> | ->]; auto.
  - intros v. destruct (Hcost v) as [-> | ->]; auto. lia.
  - destruct (initializeBuffers_spec src Hsz0 src_valid) as (_ & -> & _).
    now rewrite Nat.eqb_refl.
  - intros u e Hu Hmask He.
    destruct (initializeBuffers_spec src Hsz0 Hu) as (Hm & Hc & _).
    rewrite Hmask in Hm. rewrite Hc.
    destruct (u =? src); [discriminate|].
    pose proof (@fadd_infl FLT_MAX (load fzero (weightArray g) e) okf_max (okf_weight e)).
    destruct (Hcost (headOf g e)) as [-> | ->]; [|lia].
    pose proof (V_zero_least okf_max). lia.
  - intros v es Hw Hlen. destruct es; [|simpl in Hlen; lia].
    inversion Hw as [Hsv|]. rewrite <- Hsv.
    destruct (initializeBuffers_spec src Hsz0 src_valid) as (_ & -> & _).
    rewrite Nat.eqb_refl. simpl. lia.
  - intros v Hv Hmask.
    destruct (initializeBuffers_spec src Hsz0 Hv) as (Hm & Hc & _).
    rewrite Hmask in Hm. rewrite Hc.
    destruct (Nat.eqb_spec v src) as [->|]; [|discriminate].
    exists []. repeat split; auto. constructor.
  - intros v Hv Hunreach.
    destruct (initializeBuffers_spec src Hsz0 Hv) as (_ & -> & _).
    destruct (Nat.eqb_spec v src) as [->|]; auto.
    exfalso. apply Hunreach. exists []. constructor.
Qed.

Lemma okf_everywhere (l : list F) n :
  length l = n -> (forall v, v < n -> okf (load fzero l v)) ->
  forall v, okf (load fzero l v).
Proof.
  intros Hlen H v. destruct (Nat.lt_ge_cases v n); auto.
  unfold load. now rewrite nth_overflow by lia.
Qed.

(** What one trip through the body does to a vertex. *)
Lemma iteration_vertex k st v :
  Inv k st -> v < vertexCount g ->
  let u1 := load fzero (fold_left applyRelaxation (relaxations g st) (costArray st)) v in
  let c := load fzero (costArray st) v in
  okf u1 /\ (V u1 <= V c)%Z /\
  ((V u1 < V c)%Z /\
   load fzero (costArray (iteration g st)) v = u1 /\
   load 0%Z (maskArray (iteration g st)) v = 1%Z
   \/
   (V c <= V u1)%Z /\
   load fzero (costArray (iteration g st)) v = c /\
   load 0%Z (maskArray (iteration g st)) v = 0%Z).
Proof.
  intros HI Hv. cbv zeta.
  destruct (@applyRelaxations_laws (relaxations g st) (costArray st))
    as (Uok & Ule & _).
  { apply relaxations_okf. apply HI. }
  { apply HI. }
  destruct (iteration_entry (inv_sized HI) (inv_binary HI) Hv) as (Hc & Hm).
  rewrite (inv_sync HI) in Hc, Hm.
  split; [apply Uok|]. split; [apply Ule|].
  destruct (fgt _ _) eqn:Hgt.
  - left. apply fgt_true in Hgt; auto. apply HI.
  - right. apply fgt_false in Hgt; auto. apply HI.
Qed.

Lemma iteration_cost_le k st v :
  Inv k st -> v < vertexCount g ->
  (V (load fzero (costArray (iteration g st)) v) <= V (load fzero (costArray st) v))%Z /\
  (V (load fzero (costArray (iteration g st)) v)
   <= V (load fzero (fold_left applyRelaxation (relaxations g st) (costArray st)) v))%Z.
Proof.
  intros HI Hv.
  destruct (iteration_vertex HI Hv) as (_ & Hle & [(Hlt & -> & _)|(Hge & -> & _)]); lia.
Qed.

(** After a trip through the body every edge has been relaxed against the
    cost its tail had before the trip. *)
Lemma iteration_edge k st u e :
  Inv k st -> u < vertexCount g -> In e (outgoingEdges g u) ->
  (V (load fzero (costArray (iteration g st)) (headOf g e))
   <= V (fadd (load fzero (costArray st) u) (load fzero (weightArray g) e)))%Z.
Proof.
  intros HI Hu He.
  pose proof (@outgoing_head_valid _ _ Hu He) as Hhead.
  destruct (iteration_cost_le HI Hhead) as (Hlec & Hleu).
  destruct (@inv_binary _ _ HI u Hu) as [H0|H1].
  - pose proof (@inv_settled _ _ HI u e Hu H0 He). lia.
  - destruct (@applyRelaxations_laws (relaxations g st) (costArray st))
      as (_ & _ & Uin).
    { apply relaxations_okf. apply HI. }
    { apply HI. }
    pose proof (@in_relaxations g st u e Hu H1 He) as Hin.
    apply Uin in Hin.
    + unfold headOf in *. lia.
    + destruct (inv_sized HI) as (_ & Hc & _). unfold headOf in Hhead. lia.
Qed.

Lemma Inv_step k st :
  Inv k st ->
  Inv (S k) (iteration g st) /\
  (forall v, v < vertexCount g ->
             load 0%Z (maskArray (iteration g st)) v = 1%Z ->
             (V (load fzero (costArray (iteration g st)) v)
              < V (load fzero (costArray st) v))%Z).
Proof.
  intros HI.
  pose proof (iteration_sized (inv_sized HI)) as Hsz2.
  assert (Hok2 : forall v, okf (load fzero (costArray (iteration g st)) v)).
  { destruct Hsz2 as (_ & Hc2 & _).
    apply okf_everywhere with (n := vertexCount g); auto.
    intros v Hv.
    destruct (iteration_vertex HI Hv) as (Hok & _ & [(_ & -> & _)|(_ & -> & _)]); auto.
    apply HI. }
  split; [constructor; auto|].
  - intros v Hv.
    destruct (iteration_vertex HI Hv) as (_ & _ & [(_ & _ & ->)|(_ & _ & ->)]); auto.
  - unfold iteration. apply kernel2_resync. apply kernel1_sized. apply HI.
  - intros v. destruct (Nat.lt_ge_cases v (vertexCount g)) as [Hv|Hv].
    + destruct (iteration_cost_le HI Hv) as (Hle & _).
      pose proof (@inv_max _ _ HI v). lia.
    + destruct Hsz2 as (_ & Hc2 & _).
      unfold load. rewrite nth_overflow by lia. now apply V_zero_least.
  - destruct (iteration_vertex HI src_valid) as (Hok & _ & [(Hlt & _ & _)|(_ & -> & _)]).
    + rewrite (inv_src HI) in Hlt. pose proof (V_zero_least Hok). lia.
    + apply HI.
  - intros u e Hu Hmask He.
    pose proof (@iteration_edge _ _ _ _ HI Hu He) as Hedge.
    destruct (iteration_vertex HI Hu) as (_ & _ & [(_ & _ & H1)|(_ & -> & _)]); auto.
    rewrite H1 in Hmask. discriminate.
  - intros v es Hw Hlen.
    inversion Hw as [Hsv | u es0 e Hw0 Hu He Hhead Hes].
    + rewrite <- Hsv.
      destruct (iteration_cost_le HI src_valid) as (Hle & _).
      rewrite (inv_src HI) in Hle. simpl. exact Hle.
    + subst es. simpl in Hlen.
      pose proof (@iteration_edge _ _ _ _ HI Hu He) as Hedge.
      assert (Hlow : (V (load fzero (costArray st) u) <= V (pathCost g es0))%Z).
      { apply (@inv_lower _ _ HI u es0 Hw0). lia. }
      pose proof (@fadd_mono _ _ (load fzero (weightArray g) e)
                    (@inv_ok _ _ HI u) (okf_pathCost es0) (okf_weight e) Hlow).
      simpl. lia.
  - intros v Hv Hmask.
    destruct (iteration_vertex HI Hv) as (_ & _ & [(Hlt & Hc & _)|(_ & _ & H0)]).
    2:{ rewrite H0 in Hmask. discriminate. }
    rewrite Hc.
    destruct (applyRelaxations_provenance (relaxations g st) (costArray st) v)
      as [Hsame|(x & Hin & Hx)].
    + rewrite Hsame in Hlt. lia.
    + destruct (@relaxations_inv _ _ _ _ Hin) as (tid & e & Htid & Hact & He & Hnid & Hxe).
      destruct (@inv_active _ _ HI tid Htid Hact) as (es & Hw & Hlen & Hcost).
      exists (e :: es). split; [|split].
      * rewrite Hnid. econstructor; eauto.
      * simpl. lia.
      * rewrite Hx, Hxe, Hcost. reflexivity.
  - intros v Hv Hunreach.
    destruct (iteration_vertex HI Hv) as (_ & _ & [(Hlt & Hc & _)|(_ & -> & _)]).
    2:{ now apply HI. }
    exfalso.
    destruct (applyRelaxations_provenance (relaxations g st) (costArray st) v)
      as [Hsame|(x & Hin & Hx)].
    + rewrite Hsame in Hlt. lia.
    + destruct (@relaxations_inv _ _ _ _ Hin) as (tid & e & Htid & Hact & He & Hnid & Hxe).
      destruct (@inv_active _ _ HI tid Htid Hact) as (es & Hw & _).
      apply Hunreach. exists (e :: es). rewrite Hnid. econstructor; eauto.
  - intros v Hv Hmask.
    destruct (iteration_vertex HI Hv) as (_ & _ & [(Hlt & -> & _)|(_ & _ & H0)]); auto.
    rewrite H0 in Hmask. discriminate.
Qed.

Lemma Inv_iter k st0 :
  sized g st0 -> Inv k (Nat.iter k (iteration g) (initializeBuffers g src st0)).
Proof.
  intros Hsz. induction k as [|k IH]; simpl.
  - now apply Inv_init.
  - now apply Inv_step.
Qed.

(** After [vertexCount] trips the frontier is empty: a vertex still active
    would owe its cost to a walk of [vertexCount] edges at most, which is
    no cheaper than some walk without a repeated vertex, and every such walk
    was accounted for one trip earlier. *)
Lemma frontier_empty_after_n st0 :
  sized g st0 ->
  maskAllZero g (Nat.iter (vertexCount g) (iteration g) (initializeBuffers g src st0)).
Proof.
  intros Hsz.
  assert (Hn : exists m, vertexCount g = S m)
    by (exists (vertexCount g - 1); lia).
  destruct Hn as (m & Hn). rewrite Hn.
  cbn [Nat.iter].
  pose proof (Inv_iter m Hsz) as HI.
  set (st := Nat.iter m (iteration g) (initializeBuffers g src st0)) in *.
  destruct (Inv_step HI) as (HI' & Hdrop).
  intros v Hv.
  destruct (@inv_binary _ _ HI' v Hv) as [H0|H1]; auto.
  exfalso.
  destruct (@inv_active _ _ HI' v Hv H1) as (es & Hw & Hlen & Hcost).
  destruct (walk_short Hw) as (es' & Hw' & Hlen' & Hle).
  assert (Hlow : (V (load fzero (costArray st) v) <= V (pathCost g es'))%Z).
  { apply (@inv_lower _ _ HI v es' Hw'). lia. }
  specialize (Hdrop v Hv H1). rewrite Hcost in Hdrop. lia.
Qed.

(** The state the loop leaves behind for source [src]. *)
Definition queryFinal (stf : State) : Prop :=
  exists k st0,
    sized g st0 /\ k <= vertexCount g /\
    stf = Nat.iter k (iteration g) (initializeBuffers g src st0) /\
    Inv k stf /\ maskAllZero g stf.

Lemma whileLoop_terminates st0 :
  sized g st0 ->
  exists k,
    k <= vertexCount g /\
    (forall i, i < k ->
       maskArrayEmpty (maskArray (Nat.iter i (iteration g) (initializeBuffers g src st0)))
                      (vertexCount g) = false) /\
    maskAllZero g (Nat.iter k (iteration g) (initializeBuffers g src st0)) /\
    forall fuel, k < fuel ->
      whileLoop fuel g (initializeBuffers g src st0) =
      Some (Nat.iter k (iteration g) (initializeBuffers g src st0)).
Proof.
  intros Hsz.
  pose proof (frontier_empty_after_n Hsz) as Hempty.
  assert (Hb : maskArrayEmpty
                 (maskArray (Nat.iter (vertexCount g) (iteration g)
                                      (initializeBuffers g src st0)))
                 (vertexCount g) = true).
  { apply maskArrayEmpty_binary; auto. apply (Inv_iter (vertexCount g) Hsz). }
  destruct (whileLoop_stops g _ _ Hb) as (j & Hj & Hjempty & Hbefore & Hrun).
  exists j. repeat split; auto.
  apply maskArrayEmpty_binary; auto. apply (Inv_iter j Hsz).
Qed.

Lemma whileLoop_final st0 fuel :
  sized g st0 -> vertexCount g < fuel ->
  exists stf, whileLoop fuel g (initializeBuffers g src st0) = Some stf /\
              queryFinal stf.
Proof.
  intros Hsz Hfuel.
  destruct (whileLoop_terminates Hsz) as (k & Hk & _ & Hzero & Hrun).
  exists (Nat.iter k (iteration g) (initializeBuffers g src st0)). split.
  - apply Hrun. lia.
  - exists k, st0. split; [exact Hsz|]. split; [exact Hk|].
    split; [reflexivity|]. split; [now apply Inv_iter | exact Hzero].
Qed.

End Query.

(** *** All the queries *)

Lemma queryFinal_sized src stf : queryFinal src stf -> sized g stf.
Proof. intros (k & st0 & _ & _ & _ & HI & _). apply HI. Qed.

Lemma queryLoop_spec fuel srcs :
  vertexCount g < fuel ->
  forall qs st out,
    sized g st -> NoDup qs ->
    (forall i, In i qs -> load 0 srcs i < vertexCount g) ->
    (forall i, In i qs -> i * vertexCount g + vertexCount g <= length out) ->
    (Z.of_nat (length out) < 2 ^ 31)%Z ->
    exists out',
      queryLoop fuel g srcs qs st out = Some out' /\
      length out' = length out /\
      (forall j, (forall i, In i qs ->
                            ~ (i * vertexCount g <= j < i * vertexCount g + vertexCount g)) ->
                 load fzero out' j = load fzero out j) /\
      (forall i, In i qs ->
         exists stf, queryFinal (load 0 srcs i) stf /\
                     forall v, v < vertexCount g ->
                               load fzero out' (i * vertexCount g + v) =
                               load fzero (costArray stf) v).
Proof.
  intros Hfuel. induction qs as [|i qs IH]; intros st out Hsz Hnd Hsrc Hlen Hint.
  - exists out. cbn [queryLoop]. repeat split; auto. intros i [].
  - cbn [queryLoop].
    destruct (@whileLoop_final (load 0 srcs i) (Hsrc i (or_introl eq_refl)) st fuel Hsz Hfuel)
      as (stf & Hrun & Hfinal).
    rewrite Hrun.
    rewrite memcpyAt_row by (pose proof (Hlen i (or_introl eq_refl)); lia).
    inversion Hnd as [|? ? Hnotin Hnd']; subst.
    set (out1 := memcpy out (i * vertexCount g) (costArray stf) (vertexCount g)).
    destruct (IH stf out1) as (out' & Hq & Hlen' & Hkeep & Hrows); auto.
    { now apply queryFinal_sized in Hfinal. }
    { intros i' Hi'. apply Hsrc. now right. }
    { intros i' Hi'. unfold out1. rewrite memcpy_length. apply Hlen. now right. }
    { unfold out1. now rewrite memcpy_length. }
    exists out'. split; [exact Hq|]. split.
    { rewrite Hlen'. apply memcpy_length. }
    split.
    + intros j Hj. rewrite Hkeep.
      * unfold out1. rewrite memcpy_load.
        specialize (Hj i (or_introl eq_refl)).
        destruct (Nat.leb_spec (i * vertexCount g) j);
          destruct (Nat.ltb_spec j (i * vertexCount g + vertexCount g));
          cbn [andb]; auto. lia.
      * intros i' Hi'. apply Hj. now right.
    + intros i' [<-|Hi'].
      * exists stf. split; auto. intros v Hv.
        rewrite Hkeep.
        -- unfold out1. rewrite memcpy_load.
           pose proof (Hlen i (or_introl eq_refl)).
           destruct (Nat.leb_spec (i * vertexCount g) (i * vertexCount g + v));
             destruct (Nat.ltb_spec (i * vertexCount g + v)
                                    (i * vertexCount g + vertexCount g));
             destruct (Nat.ltb_spec (i * vertexCount g + v) (length out));
             cbn [andb]; try lia.
           f_equal. lia.
        -- intros i' Hi'. apply rows_disjoint; auto. intros ->. contradiction.
      * apply Hrows; auto.
Qed.

(** [runDijkstraRef] returns, and row [i] of its output is the cost array
    the loop left for source [sourceVertices[i]]. *)
Lemma runDijkstraRef_rows fuel srcs out numResults :
  vertexCount g < fuel ->
  (forall i, i < numResults -> load 0 srcs i < vertexCount g) ->
  numResults * vertexCount g <= length out ->
  (Z.of_nat (length out) < 2 ^ 31)%Z ->
  exists out',
    runDijkstraRef fuel g srcs out numResults = Some out' /\
    length out' = length out /\
    forall i, i < numResults ->
      exists stf, queryFinal (load 0 srcs i) stf /\
                  forall v, v < vertexCount g ->
                            load fzero out' (i * vertexCount g + v) =
                            load fzero (costArray stf) v.
Proof.
  intros Hfuel Hsrc Hlen Hint. unfold runDijkstraRef.
  destruct (@queryLoop_spec fuel srcs Hfuel (seq 0 numResults) (allocState g) out)
    as (out' & Hq & Hlen' & _ & Hrows).
  - apply allocState_sized.
  - apply seq_NoDup.
  - intros i Hi. apply in_seq in Hi. apply Hsrc. lia.
  - intros i Hi. apply in_seq in Hi.
    assert ((i + 1) * vertexCount g <= numResults * vertexCount g)
      by (apply Nat.mul_le_mono_r; lia). lia.
  - exact Hint.
  - exists out'. split; auto. split; auto.
    intros i Hi. apply Hrows. apply in_seq. lia.
Qed.

(** *** What the loop has computed when it ends *)

Section Shortest.
Variable src : nat.
Hypothesis src_valid : src < vertexCount g.

Lemma walk_end_valid v es : walk g src v es -> v < vertexCount g.
Proof.
  induction 1 as [|u es e Hw IH Hu He]; auto.
  eapply outgoing_head_valid; eauto.
Qed.

(** A cost other than [FLT_MAX] is the cost of a walk from the source, of
    no more edges than trips were made. *)
Lemma iterate_achieved k st0 v :
  sized g st0 -> v < vertexCount g ->
  load fzero (costArray (Nat.iter k (iteration g) (initializeBuffers g src st0))) v = FLT_MAX \/
  exists es, walk g src v es /\ length es <= k /\
             load fzero (costArray (Nat.iter k (iteration g) (initializeBuffers g src st0))) v
             = pathCost g es.
Proof.
  intros Hsz Hv. induction k as [|k IH].
  - cbn [Nat.iter nat_rect].
    destruct (initializeBuffers_spec src Hsz Hv) as (_ & -> & _).
    destruct (Nat.eqb_spec v src) as [->|Hne]; [right|now left].
    exists []. repeat split; auto. constructor.
  - rewrite Nat.iter_succ.
    pose proof (Inv_iter src_valid k Hsz) as HI.
    destruct (Inv_step src_valid HI) as (HI' & _).
    destruct (iteration_vertex src_valid HI Hv) as (_ & _ & [(_ & _ & H1)|(_ & Hc & _)]).
    + right. apply (inv_active HI' Hv H1).
    + rewrite Hc. destruct IH as [IH|(es & Hw & Hlen & Hcost)]; [now left|right].
      exists es. repeat split; auto.
Qed.

(** Once the frontier is empty no walk from the source is cheaper than the
    cost stored for its end. *)
Lemma final_lower stf v es :
  queryFinal src stf -> walk g src v es ->
  (V (load fzero (costArray stf) v) <= V (pathCost g es))%Z.
Proof.
  intros (k & st0 & _ & _ & _ & HI & Hzero) Hw.
  induction Hw as [|u es e Hw IH Hu He].
  - rewrite (inv_src HI). simpl. lia.
  - pose proof (inv_settled HI e Hu (Hzero u Hu) He) as Hedge.
    pose proof (@fadd_mono _ _ (load fzero (weightArray g) e)
                  (inv_ok HI u) (okf_pathCost es) (okf_weight e) IH).
    simpl. lia.
Qed.

Lemma final_settled stf u e :
  queryFinal src stf -> u < vertexCount g -> In e (outgoingEdges g u) ->
  fgt (load fzero (costArray stf) (headOf g e))
      (fadd (load fzero (costArray stf) u) (load fzero (weightArray g) e)) = false.
Proof.
  intros (k & st0 & _ & _ & _ & HI & Hzero) Hu He.
  pose proof (inv_settled HI e Hu (Hzero u Hu) He) as Hedge.
  rewrite fgt_V.
  - apply Z.ltb_ge. exact Hedge.
  - apply (inv_ok HI).
  - apply okf_add; [apply (inv_ok HI) | apply okf_weight].
Qed.

Lemma final_achieved stf v :
  queryFinal src stf -> v < vertexCount g ->
  load fzero (costArray stf) v = FLT_MAX \/
  exists es, walk g src v es /\ length es <= vertexCount g /\
             load fzero (costArray stf) v = pathCost g es.
Proof.
  intros (k & st0 & Hsz & Hk & -> & _ & _) Hv.
  destruct (iterate_achieved k Hsz Hv) as [H|(es & Hw & Hlen & Hc)]; [now left|right].
  exists es. repeat split; auto. lia.
Qed.

Lemma final_bounded stf v :
  queryFinal src stf ->
  okf (load fzero (costArray stf) v) /\
  (V (load fzero (costArray stf) v) <= V FLT_MAX)%Z.
Proof.
  intros (k & st0 & _ & _ & _ & HI & _). split; [apply (inv_ok HI) | apply (inv_max HI)].
Qed.

End Shortest.
End Laws.

(** ** The queries of a batch, whatever the cost arithmetic *)

(** The initialisation overwrites all three work arrays: what they held
    before does not matter. *)
Lemma initializeBuffers_fresh g src st st' :
  sized g st -> sized g st' ->
  initializeBuffers g src st = initializeBuffers g src st'.
Proof.
  intros Hs Hs'.
  destruct (initializeBuffers_sized src Hs) as (Hm & Hc & Hu).
  destruct (initializeBuffers_sized src Hs') as (Hm' & Hc' & Hu').
  assert (Hmask : maskArray (initializeBuffers g src st)
                  = maskArray (initializeBuffers g src st')).
  { apply list_eq_load with (d := 0%Z); [congruence|].
    intros v Hv. rewrite Hm in Hv.
    destruct (initializeBuffers_spec src Hs Hv) as (-> & _).
    destruct (initializeBuffers_spec src Hs' Hv) as (-> & _). reflexivity. }
  assert (Hcost : costArray (initializeBuffers g src st)
                  = costArray (initializeBuffers g src st')).
  { apply list_eq_load with (d := fzero); [congruence|].
    intros v Hv. rewrite Hc in Hv.
    destruct (initializeBuffers_spec src Hs Hv) as (_ & -> & _).
    destruct (initializeBuffers_spec src Hs' Hv) as (_ & -> & _). reflexivity. }
  assert (Hupd : updatingCostArray (initializeBuffers g src st)
                 = updatingCostArray (initializeBuffers g src st')).
  { apply list_eq_load with (d := fzero); [congruence|].
    intros v Hv. rewrite Hu in Hv.
    destruct (initializeBuffers_spec src Hs Hv) as (_ & _ & ->).
    destruct (initializeBuffers_spec src Hs' Hv) as (_ & _ & ->). reflexivity. }
  destruct (initializeBuffers g src st), (initializeBuffers g src st').
  cbn [maskArray costArray updatingCostArray] in *. congruence.
Qed.

Lemma whileLoop_sized fuel g : forall st st',
  sized g st -> whileLoop fuel g st = Some st' -> sized g st'.
Proof.
  induction fuel as [|fuel IH]; intros st st' Hsz Hrun; [discriminate|].
  cbn [whileLoop] in Hrun.
  destruct (maskArrayEmpty (maskArray st) (vertexCount g)).
  - now injection Hrun as <-.
  - apply (IH (iteration g st)); auto. now apply iteration_sized.
Qed.

(** With an all-zero mask right after the initialisation the loop body is
    never entered. *)
Lemma whileLoop_no_source fuel g src st :
  sized g st -> vertexCount g <= src ->
  whileLoop (S fuel) g (initializeBuffers g src st) = Some (initializeBuffers g src st).
Proof.
  intros Hsz Hsrc. cbn [whileLoop].
  replace (maskArrayEmpty (maskArray (initializeBuffers g src st)) (vertexCount g))
    with true; [reflexivity|].
  symmetry. apply maskArrayEmpty_true_iff. intros v Hv.
  destruct (initializeBuffers_spec src Hsz Hv) as (-> & _).
  destruct (Nat.eqb_spec v src); [lia | discriminate].
Qed.

(** What the loop over the queries leaves in the output: outside the rows
    of the queries nothing changes, and the row of a query is the cost array
    of the [while] loop run from freshly initialised work arrays. *)
Lemma queryLoop_rows fuel g srcs : forall qs st out out',
  sized g st -> NoDup qs ->
  (forall i, In i qs -> i * vertexCount g + vertexCount g <= length out) ->
  (forall i, In i qs -> (Z.of_nat (i * vertexCount g) < 2 ^ 31)%Z) ->
  queryLoop fuel g srcs qs st out = Some out' ->
  length out' = length out /\
  (forall j, (forall i, In i qs ->
                        ~ (i * vertexCount g <= j < i * vertexCount g + vertexCount g)) ->
             load fzero out' j = load fzero out j) /\
  (forall i, In i qs ->
     exists stf,
       whileLoop fuel g (initializeBuffers g (load 0 srcs i) (allocState g)) = Some stf /\
       forall v, v < vertexCount g ->
                 load fzero out' (i * vertexCount g + v) = load fzero (costArray stf) v).
Proof.
  induction qs as [|i qs IH]; intros st out out' Hsz Hnd Hlen Hint Hrun.
  - cbn [queryLoop] in Hrun. injection Hrun as <-.
    repeat split; auto. intros i [].
  - cbn [queryLoop] in Hrun.
    destruct (whileLoop fuel g (initializeBuffers g (load 0 srcs i) st)) as [stf|] eqn:Hw;
      [|discriminate].
    rewrite memcpyAt_row in Hrun by (apply Hint; now left).
    inversion Hnd as [|? ? Hnotin Hnd']; subst.
    pose proof (whileLoop_sized _ (initializeBuffers_sized (load 0 srcs i) Hsz) Hw) as Hszf.
    set (out1 := memcpy out (i * vertexCount g) (costArray stf) (vertexCount g)) in *.
    destruct (IH stf out1 out' Hszf Hnd') as (Hlen' & Hkeep & Hrows); auto.
    { intros i' Hi'. unfold out1. rewrite memcpy_length. apply Hlen. now right. }
    { intros i' Hi'. apply Hint. now right. }
    split; [|split].
    + rewrite Hlen'. apply memcpy_length.
    + intros j Hj. rewrite Hkeep.
      * unfold out1. rewrite memcpy_load.
        specialize (Hj i (or_introl eq_refl)).
        destruct (Nat.leb_spec (i * vertexCount g) j);
          destruct (Nat.ltb_spec j (i * vertexCount g + vertexCount g));
          cbn [andb]; auto. lia.
      * intros i' Hi'. apply Hj. now right.
    + intros i' [<-|Hi'].
      * exists stf. split.
        -- rewrite (initializeBuffers_fresh (load 0 srcs i) (allocState_sized g) Hsz).
           exact Hw.
        -- intros v Hv. rewrite Hkeep.
           ++ unfold out1. rewrite memcpy_load.
              pose proof (Hlen i (or_introl eq_refl)).
              destruct (Nat.leb_spec (i * vertexCount g) (i * vertexCount g + v));
                destruct (Nat.ltb_spec (i * vertexCount g + v)
                                       (i * vertexCount g + vertexCount g));
                destruct (Nat.ltb_spec (i * vertexCount g + v) (length out));
                cbn [andb]; try lia.
              f_equal. lia.
           ++ intros i' Hi'. apply rows_disjoint; auto. intros ->. contradiction.
      * apply Hrows; auto.
Qed.

Lemma rows_within n numResults i :
  i < numResults -> i * n + n <= numResults * n.
Proof.
  intros Hi.
  assert ((i + 1) * n <= numResults * n) by (apply Nat.mul_le_mono_r; lia). lia.
Qed.

Lemma runDijkstraRef_rows_any fuel g srcs out numResults out' :
  numResults * vertexCount g <= length out ->
  (Z.of_nat numResults * Z.of_nat (vertexCount g) < 2 ^ 31)%Z ->
  runDijkstraRef fuel g srcs out numResults = Some out' ->
  length out' = length out /\
  (forall j, numResults * vertexCount g <= j -> load fzero out' j = load fzero out j) /\
  (forall i, i < numResults ->
     exists stf,
       whileLoop fuel g (initializeBuffers g (load 0 srcs i) (allocState g)) = Some stf /\
       forall v, v < vertexCount g ->
                 load fzero out' (i * vertexCount g + v) = load fzero (costArray stf) v).
Proof.
  intros Hlen Hint Hrun. unfold runDijkstraRef in Hrun.
  rewrite <- Nat2Z.inj_mul in Hint.
  destruct (@queryLoop_rows fuel g srcs (seq 0 numResults) (allocState g) out out')
    as (Hlen' & Hkeep & Hrows); auto.
  - apply allocState_sized.
  - apply seq_NoDup.
  - intros i Hi. apply in_seq in Hi.
    pose proof (@rows_within (vertexCount g) numResults i ltac:(lia)). lia.
  - intros i Hi. apply in_seq in Hi.
    pose proof (@rows_within (vertexCount g) numResults i ltac:(lia)). lia.
  - split; [exact Hlen'|]. split.
    + intros j Hj. apply Hkeep. intros i Hi. apply in_seq in Hi.
      pose proof (@rows_within (vertexCount g) numResults i ltac:(lia)). lia.
    + intros i Hi. apply Hrows. apply in_seq. lia.
Qed.

(** X1.  The work arrays are reused from one query to the next, yet nothing
    leaks.  Take a graph with the CSR invariants, [numResults] sources, an
    output buffer of [numResults * vertexCount] entries, that product
    below 2^31, and a second buffer of [vertexCount] entries.  Whenever
    [runDijkstraRef] returns for the batch, its output has
    [numResults * vertexCount] entries, the run of the source of query [i]
    on its own returns as well, and row [i] of the batch, entry by entry,
    is the row of that single run. *)
Theorem queries_are_independent (g : GraphData) (fuel : nat) (sourceVertices : list nat)
        (outResultCosts scratch out : list F) (numResults i : nat) :
  csrInvariants g = true ->
  numResults <= length sourceVertices ->
  length outResultCosts = numResults * vertexCount g ->
  (Z.of_nat numResults * Z.of_nat (vertexCount g) < 2 ^ 31)%Z ->
  length scratch = vertexCount g ->
  runDijkstraRef fuel g sourceVertices outResultCosts numResults = Some out ->
  i < numResults ->
  length out = numResults * vertexCount g /\
  exists row,
    runDijkstraRef fuel g [load 0 sourceVertices i] scratch 1 = Some row /\
    length row = vertexCount g /\
    forall v, v < vertexCount g ->
              nth_error out (i * vertexCount g + v) = nth_error row v.
Proof.
  intros _ _ Hlen Hint Hscratch Hrun Hi.
  destruct (@runDijkstraRef_rows_any fuel g sourceVertices outResultCosts numResults out)
    as (Hlen' & _ & Hrows); auto; try lia.
  destruct (Hrows i Hi) as (stf & Hw & Hrow).
  split; [lia|].
  exists (memcpy scratch (0 * vertexCount g) (costArray stf) (vertexCount g)).
  split; [|split].
  - unfold runDijkstraRef. cbn [seq queryLoop].
    change (load 0 [load 0 sourceVertices i] 0) with (load 0 sourceVertices i).
    rewrite Hw. rewrite memcpyAt_row; [reflexivity|].
    cbn [Nat.mul Z.of_nat]. lia.
  - now rewrite memcpy_length.
  - intros v Hv.
    pose proof (@rows_within (vertexCount g) numResults i Hi) as Hin.
    rewrite (@nth_error_load _ fzero out) by lia.
    rewrite (@nth_error_load _ fzero (memcpy _ _ _ _)) by (rewrite memcpy_length; lia).
    f_equal. rewrite (Hrow v Hv), memcpy_load. cbn [Nat.mul Nat.add].
    destruct (Nat.ltb_spec v (vertexCount g)); [|lia].
    destruct (Nat.ltb_spec v (length scratch)); [|lia].
    cbn [Nat.leb andb]. f_equal. lia.
Qed.

(** X2.  [runDijkstraRef] writes the rows of its queries and nothing else.
    Take a graph with the CSR invariants, [numResults] sources, an output
    buffer of at least [numResults * vertexCount] entries and that product
    below 2^31.  Whenever [runDijkstraRef] returns, the output buffer has
    kept its length and every entry from [numResults * vertexCount] on is
    what it was. *)
Theorem output_beyond_rows_untouched (g : GraphData) (fuel : nat)
        (sourceVertices : list nat) (outResultCosts out : list F) (numResults : nat) :
  csrInvariants g = true ->
  numResults <= length sourceVertices ->
  numResults * vertexCount g <= length outResultCosts ->
  (Z.of_nat numResults * Z.of_nat (vertexCount g) < 2 ^ 31)%Z ->
  runDijkstraRef fuel g sourceVertices outResultCosts numResults = Some out ->
  length out = length outResultCosts /\
  forall j, numResults * vertexCount g <= j ->
            nth_error out j = nth_error outResultCosts j.
Proof.
  intros _ _ Hlen Hint Hrun.
  destruct (@runDijkstraRef_rows_any fuel g sourceVertices outResultCosts numResults out)
    as (Hl & Hkeep & _); auto.
  split; [exact Hl|]. intros j Hj.
  destruct (Nat.lt_ge_cases j (length out)) as [Hin|Hout].
  - rewrite (@nth_error_load _ fzero out) by lia.
    rewrite (@nth_error_load _ fzero outResultCosts) by lia.
    f_equal. now apply Hkeep.
  - rewrite (proj2 (nth_error_None out j)) by lia.
    rewrite (proj2 (nth_error_None outResultCosts j)) by lia. reflexivity.
Qed.

(** X3.  A source index that is no vertex of the graph
    ([vertexCount <= source]) matches no [v] in the initialisation loop,
    whatever the work arrays held: every mask entry is 0 and every cost is
    [FLT_MAX].  The [while] loop then returns at its first test, the body
    not entered, and [runDijkstraRef] on that single query returns with a
    row of [FLT_MAX] and the rest of the output buffer as it was. *)
Theorem source_out_of_range_row (g : GraphData) (fuel : nat) (source : nat)
        (st0 : State) (outResultCosts : list F) :
  sized g st0 ->
  vertexCount g <= source ->
  vertexCount g <= length outResultCosts ->
  (forall v, v < vertexCount g ->
     nth_error (maskArray (initializeBuffers g source st0)) v = Some 0%Z /\
     nth_error (costArray (initializeBuffers g source st0)) v = Some FLT_MAX) /\
  whileLoop (S fuel) g (initializeBuffers g source st0)
  = Some (initializeBuffers g source st0) /\
  exists out,
    runDijkstraRef (S fuel) g [source] outResultCosts 1 = Some out /\
    length out = length outResultCosts /\
    (forall v, v < vertexCount g -> nth_error out v = Some FLT_MAX) /\
    (forall j, vertexCount g <= j -> nth_error out j = nth_error outResultCosts j).
Proof.
  intros Hsz Hsrc Hlen.
  assert (Hinit : forall st, sized g st -> forall v, v < vertexCount g ->
            load 0%Z (maskArray (initializeBuffers g source st)) v = 0%Z /\
            load fzero (costArray (initializeBuffers g source st)) v = FLT_MAX).
  { intros st Hst v Hv.
    destruct (initializeBuffers_spec source Hst Hv) as (-> & -> & _).
    destruct (Nat.eqb_spec v source); [lia | auto]. }
  split; [|split].
  - intros v Hv.
    destruct (initializeBuffers_sized source Hsz) as (Hm & Hc & _).
    destruct (Hinit st0 Hsz v Hv) as (H0 & Hmax).
    rewrite (@nth_error_load _ 0%Z _ v) by lia.
    rewrite (@nth_error_load _ fzero _ v) by lia.
    now rewrite H0, Hmax.
  - now apply whileLoop_no_source.
  - set (stf := initializeBuffers g source (allocState g)).
    exists (memcpy outResultCosts 0 (costArray stf) (vertexCount g)).
    split; [|split; [|split]].
    + unfold runDijkstraRef. cbn [seq queryLoop].
      change (load 0 [source] 0) with source.
      rewrite whileLoop_no_source by (auto using allocState_sized).
      fold stf. rewrite memcpyAt_row; [reflexivity|].
      cbn [Nat.mul Z.of_nat]. lia.
    + apply memcpy_length.
    + intros v Hv.
      rewrite (@nth_error_load _ fzero _ v) by (rewrite memcpy_length; lia).
      rewrite memcpy_load. cbn [Nat.add].
      destruct (Nat.ltb_spec v (vertexCount g)); [|lia].
      destruct (Nat.ltb_spec v (length outResultCosts)); [|lia].
      cbn [Nat.leb andb]. rewrite Nat.sub_0_r.
      f_equal. apply (Hinit (allocState g) (allocState_sized g) v Hv).
    + intros j Hj.
      destruct (Nat.lt_ge_cases j (length outResultCosts)) as [Hin|Hout].
      * rewrite (@nth_error_load _ fzero _ j) by (rewrite memcpy_length; lia).
        rewrite (@nth_error_load _ fzero outResultCosts j) by lia.
        f_equal. rewrite memcpy_load. cbn [Nat.add].
        destruct (Nat.ltb_spec j (vertexCount g)); [lia|].
        cbn [Nat.leb andb]. reflexivity.
      * rewrite (proj2 (nth_error_None _ j)) by (rewrite memcpy_length; lia).
        rewrite (proj2 (nth_error_None outResultCosts j)) by lia. reflexivity.
Qed.

(** X4.  On a graph without vertices every loop of [runDijkstraRef] is
    empty: it returns at once, for any number of queries, and the output
    buffer is as it was. *)
Theorem empty_graph_returns_at_once (g : GraphData) (fuel : nat)
        (sourceVertices : list nat) (outResultCosts : list F) (numResults : nat) :
  vertexCount g = 0 ->
  runDijkstraRef (S fuel) g sourceVertices outResultCosts numResults
  = Some outResultCosts.
Proof.
  intros Hn. unfold runDijkstraRef.
  generalize (allocState g) as st. generalize (seq 0 numResults) as qs.
  induction qs as [|i qs IH]; intros st; [reflexivity|].
  cbn [queryLoop whileLoop].
  unfold initializeBuffers, maskArrayEmpty, memcpyAt, memcpy, rowIndex. rewrite Hn.
  cbn [seq fold_left maskScan Z.of_nat]. rewrite Z.mul_0_r.
  change (wrapInt 0 <? 0)%Z with false. cbn iota. apply IH.
Qed.

(** X5.  [maskArrayEmpty] answers [true] exactly when none of the first
    [count] entries equals 1; an entry holding any other value, zero or
    not, does not keep the loop going. *)
Theorem maskArrayEmpty_sees_only_ones (mask : list Z) (count : nat) :
  count <= length mask ->
  (maskArrayEmpty mask count = true <->
   forall i, i < count -> load 0%Z mask i <> 1%Z).
Proof.
  intros _. apply maskArrayEmpty_true_iff.
Qed.

(** *** One trip through the loop body *)

(** At the test of the [while] condition the two cost arrays are equal. *)
Lemma loopHead_sync g src st :
  loopHead g src st -> updatingCostArray st = costArray st.
Proof.
  intros Hhead. destruct Hhead as [st0 Hsz | st Hhead Hne].
  - destruct (initializeBuffers_sized src Hsz) as (_ & Hc & Hu).
    apply list_eq_load with (d := fzero); [congruence|].
    intros v Hv. rewrite Hu in Hv.
    destruct (initializeBuffers_spec src Hsz Hv) as (_ & -> & ->). reflexivity.
  - unfold iteration. apply kernel2_resync. apply kernel1_sized.
    eapply loopHead_sized; eauto.
Qed.

(** X6.  One trip through the loop body never invents a cost: the new cost
    of a vertex is its old cost, or else the cost of a vertex of the
    frontier plus the weight of one of that vertex's edges into it. *)
Theorem new_cost_comes_from_the_frontier (g : GraphData) (src : nat) (st : State)
        (v : nat) :
  csrInvariants g = true ->
  loopHead g src st ->
  v < vertexCount g ->
  load fzero (costArray (iteration g st)) v = load fzero (costArray st) v \/
  exists u e,
    u < vertexCount g /\ load 0%Z (maskArray st) u = 1%Z /\
    In e (outgoingEdges g u) /\ headOf g e = v /\
    load fzero (costArray (iteration g st)) v
    = fadd (load fzero (costArray st) u) (load fzero (weightArray g) e).
Proof.
  intros _ Hhead Hv.
  destruct (iteration_entry (loopHead_sized Hhead) (loopHead_maskBinary Hhead) Hv)
    as (Hc & _).
  rewrite (loopHead_sync Hhead) in Hc. rewrite Hc.
  destruct (fgt _ _); [|now left].
  destruct (applyRelaxations_provenance (relaxations g st) (costArray st) v)
    as [Hsame|(x & Hin & Hx)]; [now left|right].
  destruct (@relaxations_inv g st v x Hin) as (u & e & Hu & Hact & He & Hnid & Hxe).
  exists u, e. repeat split; auto. congruence.
Qed.

Section Irreflexive.
Hypothesis fgt_irrefl : forall a, fgt a a = false.

(** After a trip through the body the mask marks the vertices whose cost
    went down in that trip, and no other. *)
Lemma iteration_marks_decrease g src st v :
  loopHead g src st -> v < vertexCount g ->
  (load 0%Z (maskArray (iteration g st)) v = 1%Z <->
   fgt (load fzero (costArray st) v) (load fzero (costArray (iteration g st)) v) = true) /\
  (load 0%Z (maskArray (iteration g st)) v = 0%Z <->
   load fzero (costArray (iteration g st)) v = load fzero (costArray st) v).
Proof.
  intros Hhead Hv.
  destruct (iteration_entry (loopHead_sized Hhead) (loopHead_maskBinary Hhead) Hv)
    as (Hc & Hm).
  rewrite Hc, Hm.
  destruct (fgt (load fzero (costArray st) v) _) eqn:Hgt.
  - split; split; auto; try discriminate.
    intros Heq. rewrite Heq, fgt_irrefl in Hgt. discriminate.
  - rewrite fgt_irrefl. split; split; auto; discriminate.
Qed.

Lemma relaxations_none g st : maskAllZero g st -> relaxations g st = [].
Proof.
  intros Hzero. destruct (relaxations g st) as [|[nid x] l] eqn:E; auto.
  exfalso.
  destruct (@relaxations_inv g st nid x) as (tid & e & Htid & Hact & _).
  - rewrite E. now left.
  - rewrite (Hzero tid Htid) in Hact. discriminate.
Qed.

(** A state with an empty frontier and the two cost arrays equal is left
    as it is by one more trip through the body. *)
Lemma iteration_fixpoint g st :
  sized g st -> maskAllZero g st -> updatingCostArray st = costArray st ->
  iteration g st = st.
Proof.
  intros Hsz Hzero Hsync.
  assert (Hbin : maskBinary g st) by (intros v Hv; left; auto).
  destruct (iteration_sized Hsz) as (Hm & Hc & Hu).
  destruct Hsz as (Hm0 & Hc0 & Hu0).
  assert (Hentry : forall v, v < vertexCount g ->
            load fzero (costArray (iteration g st)) v = load fzero (costArray st) v /\
            load 0%Z (maskArray (iteration g st)) v = load 0%Z (maskArray st) v).
  { intros v Hv.
    destruct (iteration_entry (conj Hm0 (conj Hc0 Hu0)) Hbin Hv) as (Hcv & Hmv).
    rewrite relaxations_none in Hcv, Hmv by assumption.
    cbn [fold_left] in Hcv, Hmv. rewrite Hsync, fgt_irrefl in Hcv, Hmv.
    rewrite Hcv, Hmv, (Hzero v Hv). auto. }
  assert (Hcost : costArray (iteration g st) = costArray st).
  { apply list_eq_load with (d := fzero); [congruence|].
    intros v Hv. apply Hentry. lia. }
  assert (Hmask : maskArray (iteration g st) = maskArray st).
  { apply list_eq_load with (d := 0%Z); [congruence|].
    intros v Hv. apply Hentry. lia. }
  assert (Hupd : updatingCostArray (iteration g st) = updatingCostArray st).
  { unfold iteration. rewrite kernel2_resync by (apply kernel1_sized; repeat split; auto).
    fold (iteration g st). congruence. }
  destruct (iteration g st), st.
  cbn [maskArray costArray updatingCostArray] in *. congruence.
Qed.
End Irreflexive.
End Engine.

(** ** IEEE-754 binary32, the [float] of the source *)

Module Float32.
Open Scope Z_scope.

Definition prec : Z := 24.
Definition emax : Z := 128.

Definition float32 : Type := spec_float.

(** [a + b], rounding to nearest, ties to even. *)
Definition add (a b : float32) : float32 := SFadd prec emax a b.

(** [a > b]. *)
Definition gt (a b : float32) : bool := SFltb b a.

(** [a <= b]. *)
Definition le (a b : float32) : bool := SFleb a b.

Definition zero : float32 := S754_zero false.

(** [FLT_MAX] = (2^24 - 1) * 2^104. *)
Definition FLT_MAX : float32 := S754_finite false 16777215 104.

(** A value a C [float] can hold. *)
Definition wellFormed (x : float32) : bool := valid_binary prec emax x.

(** A float that is well formed and [>= 0.0] (so not a NaN); the weights of
    the graph are such values. *)
Definition nonNegative (x : float32) : bool := wellFormed x && le zero x.

(** The integer a non-negative float stands for, in units of the least
    subnormal 2^-149; infinity is sent to 2^277, above every finite value. *)
Definition infinityValue : Z := 2 ^ 277.

Definition value (x : float32) : Z :=
  match x with
  | S754_zero _ => 0
  | S754_finite _ m e => Zpos m * 2 ^ (e + 149)
  | S754_infinity _ => infinityValue
  | S754_nan => 0
  end.

(** Rounding of a non-negative integer [N] (in the same units) to 24
    significant bits, nearest-even: [kOf N] low bits are dropped. *)
Definition kOf (N : Z) : Z := Z.max (Z.log2 N + 1 - 24) 0.

Definition upOf (N k : Z) : bool :=
  Z.testbit N (k - 1) && (negb (N mod 2 ^ (k - 1) =? 0) || Z.odd (N / 2 ^ k)).

Definition mantOf (N : Z) : Z :=
  N / 2 ^ kOf N + (if upOf N (kOf N) then 1 else 0).

Definition rnd (N : Z) : Z := mantOf N * 2 ^ kOf N.

Definition roundValue (N : Z) : Z := Z.min (rnd N) infinityValue.

(** The float that [N] rounds to. *)
Definition encode (N : Z) : float32 :=
  match mantOf N with
  | Zpos q =>
      let k := kOf N in
      if (q =? 16777216)%positive then
        if k + 1 - 149 <=? 104 then S754_finite false 8388608 (k + 1 - 149)
        else S754_infinity false
      else
        if k - 149 <=? 104 then S754_finite false q (k - 149)
        else S754_infinity false
  | _ => S754_zero false
  end.

(** *** Arithmetic of the rounding *)

Lemma kOf_nonneg N : 0 <= kOf N.
Proof. unfold kOf; lia. Qed.

Lemma log2_bounds N : 0 < N -> 2 ^ Z.log2 N <= N < 2 ^ (Z.log2 N + 1).
Proof. intros H. pose proof (Z.log2_spec N H). now rewrite <- Z.add_1_r in H0. Qed.

Lemma upOf_zero N : upOf N 0 = false.
Proof. unfold upOf. rewrite Z.testbit_neg_r by lia. reflexivity. Qed.

Lemma pow2_step k : 1 <= k -> 2 ^ k = 2 * 2 ^ (k - 1).
Proof.
  intros Hk. replace k with (Z.succ (k - 1)) at 1 by lia.
  apply Z.pow_succ_r; lia.
Qed.

(** The remainder of [N] below bit [k], split at bit [k-1]. *)
Lemma mod_split N k :
  0 <= N -> 1 <= k ->
  N mod 2 ^ k = N mod 2 ^ (k - 1) + 2 ^ (k - 1) * (if Z.testbit N (k - 1) then 1 else 0).
Proof.
  intros HN Hk.
  replace (2 ^ k) with (2 ^ (k - 1) * 2) by (rewrite (pow2_step Hk); lia).
  rewrite Z.rem_mul_r by (try apply Z.pow_nonzero; lia).
  rewrite <- Z.testbit_spec' by lia.
  destruct (Z.testbit N (k - 1)); reflexivity.
Qed.

Lemma upOf_spec N k :
  0 <= N -> 1 <= k ->
  upOf N k = true <->
  (2 ^ k < 2 * (N mod 2 ^ k) \/
   (2 * (N mod 2 ^ k) = 2 ^ k /\ Z.odd (N / 2 ^ k) = true)).
Proof.
  intros HN Hk. unfold upOf.
  rewrite (mod_split HN Hk).
  pose proof (pow2_step Hk) as Hp.
  assert (Hpos : 0 < 2 ^ (k - 1)) by (apply Z.pow_pos_nonneg; lia).
  pose proof (Z.mod_pos_bound N (2 ^ (k - 1)) Hpos) as Hr.
  rewrite Hp.
  destruct (Z.testbit N (k - 1)); cbn [andb].
  - destruct (Z.eqb_spec (N mod 2 ^ (k - 1)) 0) as [H0|H0]; cbn [negb orb].
    + rewrite H0. split.
      * intros Hodd. right. split; [lia | exact Hodd].
      * intros [H|[_ H]]; [lia | exact H].
    + split; auto. intros _. left. lia.
  - split; [discriminate|]. intros [H|[H _]]; lia.
Qed.

Lemma pow2_gt0 k : 0 <= k -> 0 < 2 ^ k.
Proof. intros; apply Z.pow_pos_nonneg; lia. Qed.

Lemma pow2_mono a b : 0 <= a <= b -> 2 ^ a <= 2 ^ b.
Proof. intros; apply Z.pow_le_mono_r; lia. Qed.

Lemma pow2_split a b : 0 <= a -> 0 <= b -> 2 ^ (a + b) = 2 ^ a * 2 ^ b.
Proof. intros; apply Z.pow_add_r; lia. Qed.

(** Quotient and remainder of the dropped bits. *)
Lemma rnd_parts N :
  0 <= N ->
  let P := 2 ^ kOf N in
  let q := N / P in
  let r := N mod P in
  0 < P /\ N = q * P + r /\ 0 <= r < P /\ 0 <= q /\
  (mantOf N = q \/ mantOf N = q + 1).
Proof.
  intros HN; cbv zeta.
  pose proof (pow2_gt0 (kOf_nonneg N)) as HP.
  pose proof (Z.div_mod N (2 ^ kOf N) ltac:(lia)).
  pose proof (Z.mod_pos_bound N (2 ^ kOf N) HP).
  pose proof (Z.div_pos N (2 ^ kOf N) HN HP).
  repeat split; try lia.
  unfold mantOf. destruct (upOf _ _); lia.
Qed.

Lemma rnd_small N : 0 <= N -> kOf N = 0 -> rnd N = N /\ N < 2 ^ 24.
Proof.
  intros HN Hk. unfold rnd, mantOf. rewrite Hk, upOf_zero.
  change (2 ^ 0) with 1. rewrite Z.div_1_r. split; [lia|].
  destruct (Z.eq_dec N 0) as [->|Hne]; [reflexivity|].
  assert (HNpos : 0 < N) by lia.
  pose proof (log2_bounds HNpos) as Hb.
  unfold kOf in Hk. pose proof (Z.log2_nonneg N) as Hl.
  assert (Hle : 0 <= Z.log2 N + 1 <= 24) by lia.
  pose proof (pow2_mono Hle). lia.
Qed.

Lemma rnd_large N :
  0 <= N -> 1 <= kOf N ->
  Z.log2 N = kOf N + 23 /\
  2 ^ 23 <= N / 2 ^ kOf N < 2 ^ 24 /\
  2 ^ (kOf N + 23) <= rnd N <= 2 ^ (kOf N + 24).
Proof.
  intros HN Hk.
  assert (Hlog : Z.log2 N = kOf N + 23) by (unfold kOf in *; lia).
  assert (HNpos : 0 < N).
  { destruct (Z.eq_dec N 0) as [->|]; [|lia]. unfold kOf in Hk. simpl in Hk. lia. }
  pose proof (log2_bounds HNpos) as Hb. rewrite Hlog in Hb.
  destruct (rnd_parts HN) as (HP & Hdiv & Hr & Hq & Hm).
  assert (E1 : 2 ^ (kOf N + 23) = 2 ^ 23 * 2 ^ kOf N).
  { rewrite Z.add_comm, pow2_split by lia. reflexivity. }
  assert (E2 : 2 ^ (kOf N + 24) = 2 ^ 24 * 2 ^ kOf N).
  { rewrite Z.add_comm, pow2_split by lia. reflexivity. }
  replace (kOf N + 23 + 1) with (kOf N + 24) in Hb by lia.
  rewrite E1, E2 in *. unfold rnd.
  remember (2 ^ kOf N) as P eqn:HeqP. clear HeqP.
  remember (N / P) as q eqn:Heqq. remember (N mod P) as r eqn:Heqr.
  clear Heqq Heqr.
  change (2 ^ 23) with 8388608 in *. change (2 ^ 24) with 16777216 in *.
  split; auto.
  assert (Hq23 : 8388608 <= q) by nia.
  assert (Hq24 : q < 16777216) by nia.
  split; [lia|].
  destruct Hm as [-> | ->]; nia.
Qed.

Lemma kOf_mono N1 N2 : 0 <= N1 <= N2 -> kOf N1 <= kOf N2.
Proof.
  intros H. unfold kOf. pose proof (Z.log2_le_mono N1 N2 ltac:(lia)). lia.
Qed.

(** Rounding is monotone. *)
Lemma rnd_mono N1 N2 : 0 <= N1 <= N2 -> rnd N1 <= rnd N2.
Proof.
  intros H.
  pose proof (kOf_mono H) as Hk.
  pose proof (kOf_nonneg N1) as Hk1.
  destruct (Z.eq_dec (kOf N1) (kOf N2)) as [Heq|Hne].
  - destruct (Z.eq_dec (kOf N1) 0) as [Hz|Hnz].
    + destruct (@rnd_small N1) as (-> & _); try lia.
      destruct (@rnd_small N2) as (-> & _); lia.
    + destruct (@rnd_parts N1) as (HP & Hdiv1 & Hr1 & Hq1 & Hm1); [lia|].
      destruct (@rnd_parts N2) as (_ & Hdiv2 & Hr2 & Hq2 & Hm2); [lia|].
      unfold rnd. rewrite <- Heq in *.
      set (P := 2 ^ kOf N1) in *.
      assert (Hqle : N1 / P <= N2 / P) by (apply Z.div_le_mono; lia).
      destruct (Z.eq_dec (N1 / P) (N2 / P)) as [Hqeq|Hqne].
      * assert (Hrle : N1 mod P <= N2 mod P) by nia.
        unfold mantOf. rewrite <- Heq. fold P. rewrite <- Hqeq.
        destruct (upOf N1 (kOf N1)) eqn:Hup1; [|destruct (upOf N2 (kOf N1)); nia].
        apply upOf_spec in Hup1; try lia. fold P in Hup1.
        assert (Hup2 : upOf N2 (kOf N1) = true).
        { apply upOf_spec; try lia. fold P. rewrite <- Hqeq.
          destruct Hup1 as [Hgt|[Heq1 Hodd]]; [left; lia|].
          destruct (Z.eq_dec (N1 mod P) (N2 mod P)); [right; split; auto; lia | left; lia]. }
        rewrite Hup2. lia.
      * assert (N1 / P + 1 <= N2 / P) by lia.
        destruct Hm1 as [-> | ->]; destruct Hm2 as [-> | ->]; nia.
  - assert (Hk2 : 1 <= kOf N2) by lia.
    destruct (@rnd_large N2) as (_ & _ & Hlo & _); try lia.
    assert (Hhi : rnd N1 <= 2 ^ (kOf N1 + 24)).
    { destruct (Z.eq_dec (kOf N1) 0) as [Hz|Hnz].
      - destruct (@rnd_small N1) as (-> & Hlt); try lia. rewrite Hz. simpl (0 + 24). lia.
      - destruct (@rnd_large N1) as (_ & _ & _ & Hhi); lia. }
    pose proof (@pow2_mono (kOf N1 + 24) (kOf N2 + 23) ltac:(lia)). lia.
Qed.

(** A value of at most 24 significant bits is not changed by rounding. *)
Lemma rnd_exact m j : 0 < m < 2 ^ 24 -> 0 <= j -> rnd (m * 2 ^ j) = m * 2 ^ j.
Proof.
  intros Hm Hj.
  pose proof (pow2_gt0 Hj) as HPj.
  assert (HN : 0 < m * 2 ^ j) by nia.
  assert (Hlog : Z.log2 (m * 2 ^ j) = j + Z.log2 m) by (apply Z.log2_mul_pow2; lia).
  assert (Hlm : Z.log2 m <= 23).
  { assert (Z.log2 m < 24); [|lia]. apply Z.log2_lt_pow2; lia. }
  pose proof (Z.log2_nonneg m).
  assert (Hk : kOf (m * 2 ^ j) <= j) by (unfold kOf; lia).
  pose proof (kOf_nonneg (m * 2 ^ j)) as Hk0.
  remember (kOf (m * 2 ^ j)) as k eqn:Heqk.
  assert (Hfact : m * 2 ^ j = (m * 2 ^ (j - k)) * 2 ^ k).
  { rewrite <- Z.mul_assoc, <- pow2_split by lia. do 2 f_equal. lia. }
  pose proof (pow2_gt0 Hk0) as HPk.
  assert (Hmod : (m * 2 ^ j) mod 2 ^ k = 0).
  { rewrite Hfact. apply Z.mod_mul. lia. }
  assert (Hdiv : (m * 2 ^ j) / 2 ^ k = m * 2 ^ (j - k)).
  { rewrite Hfact at 1. apply Z.div_mul. lia. }
  unfold rnd, mantOf. rewrite <- Heqk, Hdiv.
  assert (Hup : upOf (m * 2 ^ j) k = false).
  { destruct (Z.eq_dec k 0) as [Hz|Hnz]; [rewrite Hz; apply upOf_zero|].
    destruct (upOf (m * 2 ^ j) k) eqn:Hup; auto.
    apply upOf_spec in Hup; [|lia|lia]. rewrite Hmod in Hup. lia. }
  rewrite Hup. lia.
Qed.

(** *** [SpecFloat]'s rounding computes [encode] *)

Lemma digits2_log2 m : Zpos (digits2_pos m) = Z.log2 (Zpos m) + 1.
Proof.
  induction m as [p IH|p IH|]; cbn [digits2_pos].
  - rewrite Pos2Z.inj_succ, IH, Pos2Z.inj_xI.
    rewrite Z.log2_succ_double by lia. lia.
  - rewrite Pos2Z.inj_succ, IH, Pos2Z.inj_xO.
    rewrite Z.log2_double by lia. lia.
  - reflexivity.
Qed.

Lemma iter_pos_nat (A : Type) (f : A -> A) p : forall x,
  iter_pos f p x = Nat.iter (Pos.to_nat p) f x.
Proof.
  induction p as [p IH|p IH|]; intros x; cbn [iter_pos].
  - rewrite !IH, Pos2Nat.inj_xI.
    replace (S (2 * Pos.to_nat p)) with (Pos.to_nat p + S (Pos.to_nat p))%nat by lia.
    rewrite Nat.iter_add. f_equal. now rewrite Nat.iter_succ_r.
  - rewrite !IH, Pos2Nat.inj_xO.
    replace (2 * Pos.to_nat p)%nat with (Pos.to_nat p + Pos.to_nat p)%nat by lia.
    now rewrite Nat.iter_add.
  - reflexivity.
Qed.

Lemma shr_1_spec m r s :
  0 <= m ->
  shr_1 (Build_shr_record m r s) = Build_shr_record (m / 2) (Z.odd m) (r || s).
Proof.
  intros Hm. rewrite <- Z.div2_div.
  destruct m as [|p|p]; [reflexivity| |lia].
  destruct p; reflexivity.
Qed.

Lemma shr_iter_spec m (j : nat) :
  0 <= m ->
  Nat.iter (S j) shr_1 (Build_shr_record m false false) =
  Build_shr_record (m / 2 ^ Z.of_nat (S j))
                   (Z.testbit m (Z.of_nat j))
                   (negb (m mod 2 ^ Z.of_nat j =? 0)).
Proof.
  intros Hm. induction j as [|j IH].
  - cbn [Nat.iter]. rewrite shr_1_spec by assumption.
    change (Z.of_nat 0) with 0. change (Z.of_nat 1) with 1.
    change (2 ^ 0) with 1. change (2 ^ 1) with 2.
    rewrite Z.mod_1_r, Z.bit0_odd. reflexivity.
  - rewrite Nat.iter_succ, IH.
    assert (Hj : 0 <= Z.of_nat j) by lia.
    assert (Hdiv : 0 <= m / 2 ^ Z.of_nat (S j)).
    { apply Z.div_pos; [lia | apply pow2_gt0; lia]. }
    rewrite shr_1_spec by assumption.
    f_equal.
    + rewrite Z.div_div by (try apply pow2_gt0; lia).
      f_equal. rewrite (Nat2Z.inj_succ (S j)), Z.pow_succ_r by lia. lia.
    + rewrite Z.testbit_odd, Z.shiftr_div_pow2 by lia. reflexivity.
    + rewrite (@mod_split m (Z.of_nat (S j))) by lia.
      replace (Z.of_nat (S j) - 1) with (Z.of_nat j) by lia.
      pose proof (Z.mod_pos_bound m (2 ^ Z.of_nat j) (pow2_gt0 Hj)).
      pose proof (pow2_gt0 Hj).
      destruct (Z.testbit m (Z.of_nat j)); cbn [orb].
      * symmetry. apply negb_true_iff, Z.eqb_neq. lia.
      * f_equal. f_equal. lia.
Qed.

Lemma round_nearest_even_spec q r s :
  round_nearest_even q (loc_of_shr_record (Build_shr_record q r s)) =
  q + (if r && (s || Z.odd q) then 1 else 0).
Proof.
  destruct r, s; cbn [loc_of_shr_record round_nearest_even andb orb]; try lia.
  rewrite <- Z.negb_even. destruct (Z.even q); cbn [negb]; lia.
Qed.

(** Dropping [j >= 0] low bits of [m], then rounding to nearest-even. *)
Lemma shr_round m e j :
  0 <= m -> 0 <= j ->
  let '(mrs, e') := shr (Build_shr_record m false false) e j in
  round_nearest_even (shr_m mrs) (loc_of_shr_record mrs) =
    m / 2 ^ j + (if upOf m j then 1 else 0) /\
  e' = e + j.
Proof.
  intros Hm Hj. destruct j as [|p|p]; [| |lia].
  - cbn [shr shr_m]. rewrite round_nearest_even_spec, upOf_zero.
    change (2 ^ 0) with 1. rewrite Z.div_1_r. cbn [andb]. split; lia.
  - cbn [shr]. rewrite iter_pos_nat.
    destruct (Pos2Nat.is_succ p) as (n & Hn). rewrite Hn.
    rewrite shr_iter_spec by assumption.
    assert (Hp : Z.pos p = Z.of_nat (S n)) by (rewrite <- Hn; now rewrite positive_nat_Z).
    cbn [shr_m]. rewrite round_nearest_even_spec. split; [|reflexivity].
    unfold upOf. rewrite Hp.
    replace (Z.of_nat (S n) - 1) with (Z.of_nat n) by lia. reflexivity.
Qed.

Lemma shr_round_eq m e j mrs e' :
  0 <= m -> 0 <= j ->
  shr (Build_shr_record m false false) e j = (mrs, e') ->
  round_nearest_even (shr_m mrs) (loc_of_shr_record mrs) =
    m / 2 ^ j + (if upOf m j then 1 else 0) /\
  e' = e + j.
Proof.
  intros Hm Hj Heq. pose proof (@shr_round m e j Hm Hj) as H.
  rewrite Heq in H. exact H.
Qed.

Lemma shr_nonpos mrs e j : j <= 0 -> shr mrs e j = (mrs, e).
Proof. intros Hj. destruct j; try reflexivity. lia. Qed.

Lemma fexp_eq x : fexp prec emax x = Z.max (x - 24) (-149).
Proof. reflexivity. Qed.

Lemma upOf_shift m j s :
  0 <= m -> 0 <= j -> 0 <= s -> upOf (m * 2 ^ j) (s + j) = upOf m s.
Proof.
  intros Hm Hj Hs.
  destruct (Z.eq_dec s 0) as [->|Hnz].
  - rewrite upOf_zero. unfold upOf.
    rewrite Z.mul_pow2_bits_low by lia. reflexivity.
  - unfold upOf.
    replace (s + j - 1) with (j + (s - 1)) by lia.
    rewrite Z.mul_pow2_bits_add by lia.
    rewrite (Z.add_comm j (s - 1)), !pow2_split by lia.
    assert (HPj : 0 < 2 ^ j) by (apply pow2_gt0; lia).
    assert (HPs1 : 0 < 2 ^ (s - 1)) by (apply pow2_gt0; lia).
    assert (HPs : 0 < 2 ^ s) by (apply pow2_gt0; lia).
    rewrite Z.mul_mod_distr_r by lia.
    rewrite Z.div_mul_cancel_r by lia.
    f_equal. f_equal. f_equal.
    pose proof (Z.mod_pos_bound m (2 ^ (s - 1)) HPs1).
    destruct (Z.eqb_spec (m mod 2 ^ (s - 1)) 0) as [H0|H0].
    + rewrite H0. reflexivity.
    + apply Z.eqb_neq. nia.
Qed.

(** The exponent the rounding works at, and the mantissa it yields, are
    those of [kOf] and [mantOf] on the value in units of 2^-149. *)
Lemma round_shift mz ez s :
  -149 <= ez ->
  s = Z.max (Z.log2 (Zpos mz) + 1 + ez - 24) (-149) - ez ->
  0 <= s ->
  kOf (Zpos mz * 2 ^ (ez + 149)) = s + (ez + 149) /\
  mantOf (Zpos mz * 2 ^ (ez + 149)) =
    Zpos mz / 2 ^ s + (if upOf (Zpos mz) s then 1 else 0).
Proof.
  intros Hez Hdef Hs.
  assert (Hk : kOf (Zpos mz * 2 ^ (ez + 149)) = s + (ez + 149)).
  { unfold kOf. rewrite Z.log2_mul_pow2 by lia. lia. }
  split; auto.
  unfold mantOf. rewrite Hk.
  rewrite upOf_shift by lia.
  rewrite (@pow2_split s (ez + 149)) by lia.
  pose proof (@pow2_gt0 s Hs).
  pose proof (@pow2_gt0 (ez + 149) ltac:(lia)).
  rewrite Z.div_mul_cancel_r by lia. reflexivity.
Qed.

Lemma mantOf_le N : 0 <= N -> 0 <= mantOf N <= 2 ^ 24.
Proof.
  intros HN.
  destruct (Z.eq_dec (kOf N) 0) as [Hz|Hnz].
  - destruct (rnd_small HN Hz) as (Hrnd & Hlt).
    unfold rnd in Hrnd. rewrite Hz in Hrnd. change (2 ^ 0) with 1 in Hrnd. lia.
  - pose proof (kOf_nonneg N).
    destruct (@rnd_large N HN ltac:(lia)) as (_ & Hq & _).
    destruct (rnd_parts HN) as (_ & _ & _ & _ & Hm). lia.
Qed.

Lemma mantOf_pos N : 0 < N -> 0 < mantOf N.
Proof.
  intros HN.
  destruct (Z.eq_dec (kOf N) 0) as [Hz|Hnz].
  - destruct (@rnd_small N ltac:(lia) Hz) as (Hrnd & Hlt).
    unfold rnd in Hrnd. rewrite Hz in Hrnd. change (2 ^ 0) with 1 in Hrnd. lia.
  - pose proof (kOf_nonneg N).
    destruct (@rnd_large N ltac:(lia) ltac:(lia)) as (_ & Hq & _).
    destruct (@rnd_parts N ltac:(lia)) as (_ & _ & _ & _ & Hm).
    change (2 ^ 23) with 8388608 in Hq. lia.
Qed.

Lemma binary_round_aux_encode mz ez :
  -149 <= ez ->
  ez <= Z.max (Z.log2 (Zpos mz) + 1 + ez - 24) (-149) ->
  binary_round_aux prec emax false (Zpos mz) ez loc_Exact =
  encode (Zpos mz * 2 ^ (ez + 149)).
Proof.
  intros Hez Hcanon.
  remember (Z.max (Z.log2 (Zpos mz) + 1 + ez - 24) (-149) - ez) as s eqn:Hsdef.
  assert (Hs : 0 <= s) by lia.
  destruct (@round_shift mz ez s Hez Hsdef Hs) as (Hk & Hmant).
  assert (HN : 0 < Zpos mz * 2 ^ (ez + 149)).
  { pose proof (@pow2_gt0 (ez + 149) ltac:(lia)). nia. }
  pose proof (@mantOf_le _ (Z.lt_le_incl _ _ HN)) as Hmle.
  pose proof (mantOf_pos HN) as Hmpos.
  unfold encode. rewrite Hk.
  unfold binary_round_aux, shr_fexp.
  cbn [Zdigits2 shr_record_of_loc]. rewrite digits2_log2, fexp_eq, <- Hsdef.
  destruct (shr (Build_shr_record (Zpos mz) false false) ez s) as [mrs' e'] eqn:Hshr.
  destruct (@shr_round_eq (Zpos mz) ez s mrs' e' ltac:(lia) Hs Hshr) as (Hround & He').
  rewrite Hround, <- Hmant.
  destruct (mantOf (Zpos mz * 2 ^ (ez + 149))) as [|q|q] eqn:Hq; [lia| |lia].
  cbn [Zdigits2 shr_record_of_loc]. rewrite digits2_log2, fexp_eq.
  destruct (Pos.eqb_spec q 16777216) as [->|Hne].
  - change (Z.log2 16777216) with 24.
    replace (Z.max (24 + 1 + e' - 24) (-149) - e') with 1 by lia.
    cbn [shr iter_pos shr_1 shr_m].
    replace (s + (ez + 149) + 1 - 149) with (e' + 1) by lia. reflexivity.
  - assert (Hlt : Zpos q < 2 ^ 24).
    { assert (Zpos q <> 16777216) by congruence. change (2 ^ 24) with 16777216 in *. lia. }
    assert (Hlog : Z.log2 (Zpos q) < 24) by (apply Z.log2_lt_pow2; lia).
    rewrite shr_nonpos by lia. cbn [shr_m].
    replace (s + (ez + 149) - 149) with e' by lia. reflexivity.
Qed.

Lemma shl_align_spec m e e' :
  snd (shl_align m e e') = Z.min e e' /\
  Zpos (fst (shl_align m e e')) = Zpos m * 2 ^ (e - Z.min e e').
Proof.
  unfold shl_align.
  destruct (e' - e) as [|d|d] eqn:Hd; cbn [fst snd].
  - replace (Z.min e e') with e by lia. rewrite Z.sub_diag. split; lia.
  - replace (Z.min e e') with e by lia. rewrite Z.sub_diag. split; lia.
  - replace (Z.min e e') with e' by lia. split; [reflexivity|].
    change (Pos.iter xO m d) with (shift_pos d m).
    rewrite shift_pos_correct. change (Z.pow_pos 2 d) with (2 ^ Zpos d).
    replace (e - e') with (Zpos d) by lia. lia.
Qed.

Theorem binary_round_encode m e :
  -149 <= e ->
  binary_round prec emax false m e = encode (Zpos m * 2 ^ (e + 149)).
Proof.
  intros He. unfold binary_round.
  rewrite digits2_log2, fexp_eq.
  set (E := Z.max (Z.log2 (Zpos m) + 1 + e - 24) (-149)).
  destruct (shl_align_spec m e E) as (Hez & Hmz).
  destruct (shl_align m e E) as [mz ez]. cbn [fst snd] in Hez, Hmz.
  assert (Hsh : 0 <= e - Z.min e E) by lia.
  assert (Hlog : Z.log2 (Zpos mz) = e - Z.min e E + Z.log2 (Zpos m)).
  { rewrite Hmz. apply Z.log2_mul_pow2; lia. }
  rewrite binary_round_aux_encode.
  - f_equal. rewrite Hmz, Hez, <- Z.mul_assoc, <- pow2_split by lia.
    do 2 f_equal. lia.
  - lia.
  - rewrite Hlog, Hez. unfold E. lia.
Qed.

Lemma add_finite mx ex my ey :
  -149 <= ex -> -149 <= ey ->
  add (S754_finite false mx ex) (S754_finite false my ey) =
  encode (Zpos mx * 2 ^ (ex + 149) + Zpos my * 2 ^ (ey + 149)).
Proof.
  intros Hex Hey. unfold add. cbn [SFadd cond_Zopp].
  destruct (shl_align_spec mx ex (Z.min ex ey)) as (_ & Hx).
  destruct (shl_align_spec my ey (Z.min ex ey)) as (_ & Hy).
  replace (Z.min ex (Z.min ex ey)) with (Z.min ex ey) in Hx by lia.
  replace (Z.min ey (Z.min ex ey)) with (Z.min ex ey) in Hy by lia.
  set (ax := fst (shl_align mx ex (Z.min ex ey))) in *.
  set (ay := fst (shl_align my ey (Z.min ex ey))) in *.
  change (Zpos ax + Zpos ay) with (Zpos (ax + ay)).
  cbn [binary_normalize].
  rewrite binary_round_encode by lia.
  f_equal. rewrite Pos2Z.inj_add, Z.mul_add_distr_r, Hx, Hy.
  rewrite <- !Z.mul_assoc, <- !pow2_split by lia.
  f_equal; do 2 f_equal; lia.
Qed.

(** *** Non-negative floats and their values *)

Lemma wellFormed_finite s m e :
  wellFormed (S754_finite s m e) = true <->
  Z.max (Z.log2 (Zpos m) + 1 + e - 24) (-149) = e /\ e <= 104.
Proof.
  unfold wellFormed, valid_binary, bounded, canonical_mantissa.
  rewrite digits2_log2, fexp_eq, andb_true_iff, Z.eqb_eq, Z.leb_le.
  change (emax - prec) with 104. reflexivity.
Qed.

Lemma finite_bounds s m e :
  wellFormed (S754_finite s m e) = true ->
  -149 <= e <= 104 /\ Zpos m < 2 ^ 24 /\ (e = -149 \/ 2 ^ 23 <= Zpos m).
Proof.
  intros H. apply wellFormed_finite in H. destruct H as (Hc & He).
  pose proof (Z.log2_nonneg (Zpos m)) as Hl.
  split; [lia|]. split.
  - apply Z.log2_lt_pow2; lia.
  - destruct (Z.eq_dec e (-149)); [now left | right].
    assert (Hlog : Z.log2 (Zpos m) = 23) by lia.
    pose proof (@log2_bounds (Zpos m) ltac:(lia)) as Hb. rewrite Hlog in Hb. lia.
Qed.

Lemma nonNegative_cases x :
  nonNegative x = true ->
  (exists s, x = S754_zero s) \/
  x = S754_infinity false \/
  (exists m e, x = S754_finite false m e /\ wellFormed x = true).
Proof.
  unfold nonNegative, le, zero. intros H.
  apply andb_true_iff in H. destruct H as (Hwf & Hle).
  destruct x as [s|s| |s m e]; cbn in Hle.
  - left. now exists s.
  - destruct s; [discriminate|]. right; now left.
  - discriminate.
  - destruct s; [discriminate|]. right; right. now exists m, e.
Qed.

Lemma infinityValue_pos : 0 < infinityValue.
Proof. unfold infinityValue. apply pow2_gt0; lia. Qed.

Lemma finite_value_bounds s m e :
  wellFormed (S754_finite s m e) = true ->
  0 < value (S754_finite s m e) < infinityValue.
Proof.
  intros H. destruct (finite_bounds _ _ _ H) as (He & Hm & _).
  cbn [value]. unfold infinityValue.
  pose proof (@pow2_gt0 (e + 149) ltac:(lia)) as HP.
  assert (HP2 : 2 ^ (e + 149) <= 2 ^ 253) by (apply pow2_mono; lia).
  replace 277 with (24 + 253) by lia. rewrite (@pow2_split 24 253) by lia.
  pose proof (@pow2_gt0 253 ltac:(lia)).
  change (2 ^ 24) with 16777216 in *.
  split; nia.
Qed.

Lemma value_range x : nonNegative x = true -> 0 <= value x <= infinityValue.
Proof.
  intros H. pose proof infinityValue_pos.
  destruct (nonNegative_cases _ H) as [(s & ->)|[->|(m & e & -> & Hwf)]]; cbn [value]; try lia.
  pose proof (finite_value_bounds _ _ _ Hwf) as Hb. cbn [value] in Hb. lia.
Qed.

Lemma roundValue_mono N1 N2 : 0 <= N1 <= N2 -> roundValue N1 <= roundValue N2.
Proof.
  intros H. unfold roundValue. pose proof (rnd_mono H). lia.
Qed.

Lemma roundValue_infinity : roundValue infinityValue = infinityValue.
Proof.
  unfold roundValue, infinityValue.
  pose proof (@rnd_exact 1 277 ltac:(change (2 ^ 24) with 16777216; lia) ltac:(lia)) as H.
  rewrite Z.mul_1_l in H. rewrite H. lia.
Qed.

Lemma roundValue_exact x : nonNegative x = true -> roundValue (value x) = value x.
Proof.
  intros H.
  destruct (nonNegative_cases _ H) as [(s & ->)|[->|(m & e & -> & Hwf)]].
  - reflexivity.
  - apply roundValue_infinity.
  - pose proof (finite_value_bounds _ _ _ Hwf) as Hb.
    destruct (finite_bounds _ _ _ Hwf) as (He & Hm & _).
    cbn [value] in *. unfold roundValue.
    rewrite rnd_exact by lia. lia.
Qed.

(** *** [encode] yields a non-negative float of the rounded value *)

Lemma log2_23 q : 2 ^ 23 <= q < 2 ^ 24 -> Z.log2 q = 23.
Proof. intros H. apply Z.log2_unique; [lia | exact H]. Qed.

Lemma nonNegative_finite m e :
  Z.max (Z.log2 (Zpos m) + 1 + e - 24) (-149) = e -> e <= 104 ->
  nonNegative (S754_finite false m e) = true.
Proof.
  intros Hc He. unfold nonNegative. apply andb_true_iff. split.
  - apply wellFormed_finite. auto.
  - reflexivity.
Qed.

Lemma encode_ok N :
  0 <= N -> nonNegative (encode N) = true /\ value (encode N) = roundValue N.
Proof.
  intros HN. unfold roundValue, rnd, encode, infinityValue.
  pose proof (mantOf_le HN) as Hmle.
  pose proof (kOf_nonneg N) as Hk0.
  pose proof (pow2_gt0 Hk0) as HP.
  destruct (mantOf N) as [|q|q] eqn:Hq; [split; [reflexivity | cbn [value]; lia] | | lia].
  assert (Hcases : kOf N = 0 /\ Zpos q < 2 ^ 24 \/ 1 <= kOf N /\ 2 ^ 23 <= Zpos q).
  { destruct (Z.eq_dec (kOf N) 0) as [Hz|Hnz].
    - left. split; auto. destruct (rnd_small HN Hz) as (Hrnd & Hlt).
      unfold rnd in Hrnd. rewrite Hz, Hq in Hrnd. change (2 ^ 0) with 1 in Hrnd. lia.
    - right. split; [lia|].
      destruct (@rnd_large N HN ltac:(lia)) as (_ & Hq0 & _).
      destruct (rnd_parts HN) as (_ & _ & _ & _ & Hm). rewrite Hq in Hm. lia. }
  assert (E277 : forall k, 0 <= k -> 2 ^ (k + 24) = 16777216 * 2 ^ k).
  { intros k Hk. rewrite Z.add_comm, pow2_split by lia. reflexivity. }
  destruct (Pos.eqb_spec q 16777216) as [->|Hne].
  - destruct Hcases as [(_ & Hlt)|(Hk1 & _)];
      [change (2 ^ 24) with 16777216 in Hlt; lia|].
    destruct (Z.leb_spec (kOf N + 1 - 149) 104) as [Hle|Hgt].
    + split.
      * apply nonNegative_finite; [|lia].
        change (Z.log2 8388608) with 23. lia.
      * cbn [value]. replace (kOf N + 1 - 149 + 149) with (1 + kOf N) by lia.
        rewrite (@pow2_split 1 (kOf N)) by lia. change (2 ^ 1) with 2.
        assert (Hm : 2 ^ (kOf N) <= 2 ^ 252) by (apply pow2_mono; lia).
        replace 277 with (252 + 25) by lia. rewrite (@pow2_split 252 25) by lia.
        change (2 ^ 25) with 33554432.
        pose proof (@pow2_gt0 252 ltac:(lia)). lia.
    + split; [reflexivity|]. cbn [value]. unfold infinityValue.
      assert (Hm : 2 ^ 253 <= 2 ^ (kOf N)) by (apply pow2_mono; lia).
      replace 277 with (253 + 24) by lia. rewrite (@pow2_split 253 24) by lia.
      change (2 ^ 24) with 16777216.
      pose proof (@pow2_gt0 253 ltac:(lia)). lia.
  - assert (Hlt : Zpos q < 2 ^ 24).
    { assert (Zpos q <> 16777216) by congruence.
      change (2 ^ 24) with 16777216 in *. lia. }
    assert (Hlog : Z.log2 (Zpos q) <= 23).
    { assert (Z.log2 (Zpos q) < 24); [|lia]. apply Z.log2_lt_pow2; lia. }
    destruct (Z.leb_spec (kOf N - 149) 104) as [Hle|Hgt].
    + split.
      * apply nonNegative_finite; [|lia].
        destruct Hcases as [(Hz & _)|(Hk1 & Hq23)]; [lia|].
        rewrite (@log2_23 (Zpos q)) by lia. lia.
      * cbn [value]. replace (kOf N - 149 + 149) with (kOf N) by lia.
        assert (Hm : 2 ^ (kOf N) <= 2 ^ 253) by (apply pow2_mono; lia).
        replace 277 with (253 + 24) by lia. rewrite (@pow2_split 253 24) by lia.
        change (2 ^ 24) with 16777216 in *.
        pose proof (@pow2_gt0 253 ltac:(lia)). nia.
    + split; [reflexivity|]. cbn [value]. unfold infinityValue.
      destruct Hcases as [(Hz & _)|(Hk1 & Hq23)]; [lia|].
      assert (Hm : 2 ^ 254 <= 2 ^ (kOf N)) by (apply pow2_mono; lia).
      replace 277 with (254 + 23) by lia. rewrite (@pow2_split 254 23) by lia.
      change (2 ^ 23) with 8388608 in *.
      pose proof (@pow2_gt0 254 ltac:(lia)). nia.
Qed.


(** *** Addition and comparison of non-negative floats *)

Lemma roundValue_saturates N : infinityValue <= N -> roundValue N = infinityValue.
Proof.
  intros H. pose proof infinityValue_pos.
  pose proof (@roundValue_mono infinityValue N ltac:(lia)) as Hm.
  rewrite roundValue_infinity in Hm. unfold roundValue in *. lia.
Qed.

(** The sum of two non-negative floats is the non-negative float of the
    rounded exact sum. *)
Theorem add_value a w :
  nonNegative a = true -> nonNegative w = true ->
  nonNegative (add a w) = true /\
  value (add a w) = roundValue (value a + value w).
Proof.
  intros Ha Hw.
  pose proof (value_range _ Ha) as Hra. pose proof (value_range _ Hw) as Hrw.
  pose proof (roundValue_exact _ Ha) as Hea. pose proof (roundValue_exact _ Hw) as Hew.
  destruct (nonNegative_cases _ Ha) as [(sa & ->)|[->|(ma & ea & -> & Hwa)]];
    destruct (nonNegative_cases _ Hw) as [(sw & ->)|[->|(mw & ew & -> & Hww)]].
  - split; [destruct sa, sw; reflexivity|].
    destruct sa, sw; reflexivity.
  - split; [reflexivity|]. cbn [value add SFadd] in *. now rewrite Z.add_0_l, Hew.
  - split; [exact Hw|]. cbn [value add SFadd] in *. now rewrite Z.add_0_l, Hew.
  - split; [reflexivity|]. cbn [value add SFadd] in *. now rewrite Z.add_0_r, Hea.
  - split; [reflexivity|]. cbn [add SFadd value] in *.
    now rewrite roundValue_saturates by lia.
  - split; [reflexivity|]. cbn [add SFadd value] in *.
    now rewrite roundValue_saturates by lia.
  - split; [exact Ha|]. cbn [value add SFadd] in *. now rewrite Z.add_0_r, Hea.
  - split; [reflexivity|]. cbn [add SFadd value] in *.
    now rewrite roundValue_saturates by lia.
  - destruct (finite_bounds _ _ _ Hwa) as (Hea' & _).
    destruct (finite_bounds _ _ _ Hww) as (Hew' & _).
    rewrite add_finite by lia. cbn [value] in *.
    apply encode_ok. lia.
Qed.

Lemma compare_value a b :
  nonNegative a = true -> nonNegative b = true ->
  SFcompare a b = Some (value a ?= value b).
Proof.
  intros Ha Hb. pose proof infinityValue_pos as Hinf.
  destruct (nonNegative_cases _ Ha) as [(sa & ->)|[->|(ma & ea & -> & Hwa)]];
    destruct (nonNegative_cases _ Hb) as [(sb & ->)|[->|(mb & eb & -> & Hwb)]];
    cbn [SFcompare value].
  - reflexivity.
  - reflexivity.
  - pose proof (finite_value_bounds _ _ _ Hwb) as H. cbn [value] in H.
    f_equal. symmetry. apply Z.compare_lt_iff. lia.
  - reflexivity.
  - reflexivity.
  - pose proof (finite_value_bounds _ _ _ Hwb) as H. cbn [value] in H.
    f_equal. symmetry. apply Z.compare_gt_iff. lia.
  - pose proof (finite_value_bounds _ _ _ Hwa) as H. cbn [value] in H.
    f_equal. symmetry. apply Z.compare_gt_iff. lia.
  - pose proof (finite_value_bounds _ _ _ Hwa) as H. cbn [value] in H.
    f_equal. symmetry. apply Z.compare_lt_iff. lia.
  - destruct (finite_bounds _ _ _ Hwa) as (Hea & Hma & Hna).
    destruct (finite_bounds _ _ _ Hwb) as (Heb & Hmb & Hnb).
    change (2 ^ 24) with 16777216 in *. change (2 ^ 23) with 8388608 in *.
    f_equal.
    assert (Hlt : forall m1 e1 m2 e2,
               -149 <= e1 -> e1 < e2 -> Zpos m1 < 16777216 -> 8388608 <= Zpos m2 ->
               Zpos m1 * 2 ^ (e1 + 149) < Zpos m2 * 2 ^ (e2 + 149)).
    { intros m1 e1 m2 e2 H1 H12 Hm1 Hm2.
      replace (e2 + 149) with ((e2 - e1 - 1) + 1 + (e1 + 149)) by lia.
      rewrite (@pow2_split (e2 - e1 - 1 + 1) (e1 + 149)),
        (@pow2_split (e2 - e1 - 1) 1) by lia.
      change (2 ^ 1) with 2.
      pose proof (@pow2_gt0 (e2 - e1 - 1) ltac:(lia)) as HQ.
      pose proof (@pow2_gt0 (e1 + 149) ltac:(lia)) as HP.
      remember (2 ^ (e2 - e1 - 1)) as Q. remember (2 ^ (e1 + 149)) as P.
      assert (H4 : P <= Q * P) by nia.
      assert (H3 : 8388608 * (Q * P) <= Zpos m2 * (Q * P)).
      { apply Z.mul_le_mono_nonneg_r; nia. }
      assert (H5 : Zpos m1 * P < 16777216 * P) by nia.
      nia. }
    destruct (Z.compare_spec ea eb) as [Heq|Hl|Hg].
    + subst eb. rewrite Pos.compare_cont_spec. cbn [Pos.switch_Eq].
      pose proof (@pow2_gt0 (ea + 149) ltac:(lia)) as HP.
      change (Pos.compare ma mb) with (Zpos ma ?= Zpos mb).
      symmetry. destruct (Z.compare_spec (Zpos ma) (Zpos mb)) as [Hmeq|Hml|Hmg].
      * rewrite Hmeq. apply Z.compare_refl.
      * apply Z.compare_lt_iff. nia.
      * apply Z.compare_gt_iff. nia.
    + symmetry. apply Z.compare_lt_iff. apply Hlt; lia.
    + symmetry. apply Z.compare_gt_iff. apply Hlt; lia.
Qed.

Lemma gt_value a b :
  nonNegative a = true -> nonNegative b = true ->
  gt a b = (value b <? value a).
Proof.
  intros Ha Hb. unfold gt, SFltb, Z.ltb.
  now rewrite (compare_value _ _ Hb Ha).
Qed.

Lemma add_mono a b w :
  nonNegative a = true -> nonNegative b = true -> nonNegative w = true ->
  value a <= value b -> value (add a w) <= value (add b w).
Proof.
  intros Ha Hb Hw Hle.
  destruct (add_value _ _ Ha Hw) as (_ & ->). destruct (add_value _ _ Hb Hw) as (_ & ->).
  pose proof (value_range _ Ha). pose proof (value_range _ Hw).
  apply roundValue_mono. lia.
Qed.

Lemma add_inflationary a w :
  nonNegative a = true -> nonNegative w = true -> value a <= value (add a w).
Proof.
  intros Ha Hw. destruct (add_value _ _ Ha Hw) as (_ & ->).
  rewrite <- (roundValue_exact _ Ha) at 1.
  pose proof (value_range _ Ha). pose proof (value_range _ Hw).
  apply roundValue_mono. lia.
Qed.

(** *** Division by 1.0 *)

(** A well-formed finite float is what its own value rounds to. *)
Lemma encode_finite m e :
  wellFormed (S754_finite false m e) = true ->
  encode (Zpos m * 2 ^ (e + 149)) = S754_finite false m e.
Proof.
  intros Hwf.
  destruct (finite_bounds _ _ _ Hwf) as (He & Hm & _).
  apply wellFormed_finite in Hwf. destruct Hwf as (Hc & _).
  destruct (@round_shift m e 0) as (Hk & Hmant); try lia.
  rewrite upOf_zero, Z.pow_0_r, Z.div_1_r, Z.add_0_r in Hmant.
  unfold encode. rewrite Hmant, Hk.
  destruct (Pos.eqb_spec m 16777216) as [->|_].
  - change (2 ^ 24) with 16777216 in Hm. lia.
  - replace (0 + (e + 149) - 149) with e by lia.
    destruct (Z.leb_spec e 104); [reflexivity | lia].
Qed.

Lemma div_eucl_pair a b : Z.div_eucl a b = (a / b, a mod b).
Proof. unfold Z.div, Z.modulo. now destruct (Z.div_eucl a b). Qed.

Lemma div_one m e :
  wellFormed (S754_finite false m e) = true ->
  2 ^ 23 <= Zpos m -> -148 <= e ->
  SFdiv prec emax (S754_finite false m e) (S754_finite false 8388608 (-23))
  = S754_finite false m e.
Proof.
  intros Hwf Hm He.
  destruct (finite_bounds _ _ _ Hwf) as (_ & Hm24 & _).
  assert (Hlog : Z.log2 (Zpos m) = 23) by (apply log2_23; lia).
  unfold SFdiv, SFdiv_core_binary.
  change (Zdigits2 (Zpos m)) with (Zpos (digits2_pos m)).
  change (Zdigits2 (Zpos 8388608)) with 24.
  rewrite digits2_log2, Hlog, fexp_eq.
  replace (Z.min (Z.max (23 + 1 + e - (24 + -23) - 24) (-149)) (e - -23))
    with (e - 1) by lia.
  replace (e - -23 - (e - 1)) with 24 by lia.
  rewrite Z.shiftl_mul_pow2 by lia.
  rewrite div_eucl_pair.
  replace (Zpos m * 2 ^ 24) with (Zpos m~0 * Zpos 8388608)
    by (change (2 ^ 24) with 16777216; lia).
  rewrite Z.div_mul, Z.mod_mul by lia.
  change (new_location (Zpos 8388608) 0) with loc_Exact.
  cbn [xorb].
  rewrite binary_round_aux_encode.
  - replace (Zpos m~0 * 2 ^ (e - 1 + 149)) with (Zpos m * 2 ^ (e + 149)).
    + now apply encode_finite.
    + replace (e + 149) with (1 + (e - 1 + 149)) by lia.
      rewrite (@pow2_split 1 (e - 1 + 149)) by lia.
      change (2 ^ 1) with 2. lia.
  - lia.
  - assert (Z.log2 (Zpos m~0) = 24).
    { apply Z.log2_unique; [lia|].
      change (2 ^ 24) with 16777216 in *. change (2 ^ 23) with 8388608 in *.
      change (2 ^ (24 + 1)) with 33554432. lia. }
    lia.
Qed.
End Float32.

(** ** The reference engine on binary32 *)

Abbreviation Graph32 := (GraphData Float32.float32).
Abbreviation State32 := (State Float32.float32).
Abbreviation initializeBuffers32 :=
  (initializeBuffers Float32.zero Float32.FLT_MAX).
Abbreviation kernel1_32 := (kernel1 Float32.add Float32.gt Float32.zero).
Abbreviation kernel2_32 := (kernel2 Float32.gt Float32.zero).
Abbreviation iteration32 := (iteration Float32.add Float32.gt Float32.zero).
Abbreviation whileLoop32 := (whileLoop Float32.add Float32.gt Float32.zero).
Abbreviation loopHead32 :=
  (loopHead Float32.add Float32.gt Float32.zero Float32.FLT_MAX).
Abbreviation runDijkstraRef32 :=
  (runDijkstraRef Float32.add Float32.gt Float32.zero Float32.FLT_MAX).

(** Every weight is a well-formed float that is [>= 0.0]. *)
Definition weightsNonNegative (g : Graph32) : bool :=
  forallb Float32.nonNegative (weightArray g).

(** Some floats. *)
Definition f32_1 : Float32.float32 := S754_finite false 8388608 (-23).
Definition f32_2 : Float32.float32 := S754_finite false 8388608 (-22).
Definition f32_3 : Float32.float32 := S754_finite false 12582912 (-22).
Definition f32_4 : Float32.float32 := S754_finite false 8388608 (-21).

(** The triangle of the specification: 0 -> 1 (1.0), 0 -> 2 (4.0),
    1 -> 2 (2.0). *)
Definition triangle : Graph32 :=
  mkGraph 3 3 [0; 2; 3] [1; 2; 2] [f32_1; f32_4; f32_2].

(** Six vertices, the last one without any edge: 0 -> 1, 1 -> 2, 2 -> 3,
    3 -> 4, each of weight 1.0. *)
Definition isolated : Graph32 :=
  mkGraph 6 4 [0; 1; 2; 3; 4; 4] [1; 2; 3; 4] [f32_1; f32_1; f32_1; f32_1].

Example triangle_costs :
  runDijkstraRef32 4 triangle [0] (repeat Float32.zero 3) 1
  = Some [Float32.zero; f32_1; f32_3].
Proof. vm_compute. reflexivity. Qed.

Example isolated_costs :
  runDijkstraRef32 7 isolated [0] (repeat Float32.zero 6) 1
  = Some [Float32.zero; f32_1; f32_2; f32_3; f32_4; Float32.FLT_MAX].
Proof. vm_compute. reflexivity. Qed.

(** *** The laws of the cost arithmetic hold on binary32 *)

Definition okf32 (x : Float32.float32) : Prop := Float32.nonNegative x = true.

Lemma okf32_least a : okf32 a -> (Float32.value Float32.zero <= Float32.value a)%Z.
Proof. intros H. apply (Float32.value_range _ H). Qed.

Lemma okf32_add a w : okf32 a -> okf32 w -> okf32 (Float32.add a w).
Proof. intros Ha Hw. apply (Float32.add_value _ _ Ha Hw). Qed.

Lemma weights_okf32 (g : Graph32) :
  weightsNonNegative g = true -> Forall okf32 (weightArray g).
Proof.
  unfold weightsNonNegative. rewrite forallb_forall, Forall_forall. auto.
Qed.

Lemma f32_le_refl (b : Float32.float32) : b <> S754_nan -> Float32.le b b = true.
Proof.
  unfold Float32.le, SFleb. intros Hb.
  destruct b as [s|s| |s m e]; cbn [SFcompare]; try congruence.
  - destruct s; reflexivity.
  - rewrite Z.compare_refl, Pos.compare_cont_refl. destruct s; reflexivity.
Qed.

Lemma not_nan_smaller a b :
  Float32.gt a b = true -> Float32.le b b = true.
Proof.
  intros H. apply f32_le_refl. intros ->.
  unfold Float32.gt, SFltb in H. cbn [SFcompare] in H. discriminate.
Qed.

Lemma f32_gt_le a b : Float32.gt a b = true -> Float32.le b a = true.
Proof.
  unfold Float32.gt, Float32.le, SFltb, SFleb.
  destruct (SFcompare b a) as [[| |]|]; auto.
Qed.

(** C4.  In the per-query loop of the reference engine no cost goes up: at
    every state met at the test of the [while] condition, and for every
    vertex, the cost after one more trip through the body is less than or
    equal to the cost before it. *)
Theorem cost_never_increases (g : Graph32) (src : nat) (st : State32) (v : nat) :
  loopHead32 g src st ->
  v < vertexCount g ->
  Float32.le (load Float32.zero (costArray (iteration32 g st)) v)
             (load Float32.zero (costArray st) v) = true.
Proof.
  intros Hhead Hv.
  pose proof (loopHead_sized Hhead) as Hsz.
  assert (Hnum : Float32.le (load Float32.zero (costArray st) v)
                            (load Float32.zero (costArray st) v) = true).
  { apply (@loopHead_allCosts _ Float32.add Float32.gt Float32.zero Float32.FLT_MAX
             (fun x => Float32.le x x = true)
             (eq_refl : Float32.le Float32.zero Float32.zero = true)
             (eq_refl : Float32.le Float32.FLT_MAX Float32.FLT_MAX = true)
             not_nan_smaller _ _ _ Hhead v). }
  destruct (iteration_cost_cases Float32.add Float32.gt Float32.zero Hsz Hv) as [Heq|Hgt].
  - now rewrite Heq.
  - now apply f32_gt_le.
Qed.

(** C5.  On a graph that satisfies the CSR invariants and has non-negative
    weights, from a valid source, the [while] loop of the reference engine
    ends: for some [k <= vertexCount] the mask is all-zero after [k] trips
    through the body and not before, and the loop returns that state. *)
Theorem loop_terminates (g : Graph32) (src : nat) (st0 : State32) :
  csrInvariants g = true ->
  weightsNonNegative g = true ->
  src < vertexCount g ->
  sized g st0 ->
  exists k,
    k <= vertexCount g /\
    (forall i, i < k ->
       maskArrayEmpty (maskArray (Nat.iter i (iteration32 g) (initializeBuffers32 g src st0)))
                      (vertexCount g) = false) /\
    maskAllZero g (Nat.iter k (iteration32 g) (initializeBuffers32 g src st0)) /\
    forall fuel, k < fuel ->
      whileLoop32 fuel g (initializeBuffers32 g src st0) =
      Some (Nat.iter k (iteration32 g) (initializeBuffers32 g src st0)).
Proof.
  intros Hcsr Hw Hsrc Hsz.
  apply (@whileLoop_terminates _ Float32.add Float32.gt Float32.zero Float32.FLT_MAX
           okf32 Float32.value); auto.
  - exact Float32.gt_value.
  - reflexivity.
  - reflexivity.
  - exact okf32_least.
  - exact okf32_add.
  - exact Float32.add_mono.
  - exact Float32.add_inflationary.
  - now apply weights_okf32.
Qed.

(** Under the caller contract [runDijkstraRef] returns, its output has the
    length of the buffer it was given, and row [i] holds the cost array the
    loop left for source [sourceVertices[i]]. *)
Lemma runDijkstraRef32_rows (g : Graph32) fuel srcs out numResults :
  csrInvariants g = true ->
  weightsNonNegative g = true ->
  vertexCount g < fuel ->
  (forall i, i < numResults -> load 0 srcs i < vertexCount g) ->
  length out = numResults * vertexCount g ->
  (Z.of_nat numResults * Z.of_nat (vertexCount g) < 2 ^ 31)%Z ->
  exists out',
    runDijkstraRef32 fuel g srcs out numResults = Some out' /\
    length out' = numResults * vertexCount g /\
    forall i, i < numResults ->
      exists stf,
        queryFinal Float32.add Float32.gt Float32.zero Float32.FLT_MAX
                   okf32 Float32.value g (load 0 srcs i) stf /\
        forall v, v < vertexCount g ->
                  nth_error out' (i * vertexCount g + v) =
                  Some (load Float32.zero (costArray stf) v).
Proof.
  intros Hcsr Hw Hfuel Hsrc Hlen Hint.
  rewrite <- Nat2Z.inj_mul in Hint.
  destruct (@runDijkstraRef_rows _ Float32.add Float32.gt Float32.zero Float32.FLT_MAX
              okf32 Float32.value Float32.gt_value eq_refl eq_refl okf32_least okf32_add
              Float32.add_mono Float32.add_inflationary g Hcsr (weights_okf32 g Hw)
              fuel srcs out numResults Hfuel Hsrc)
    as (out' & Hrun & Hlen' & Hrows); try lia.
  exists out'. split; [exact Hrun|]. split; [lia|].
  intros i Hi. destruct (Hrows i Hi) as (stf & Hfinal & Hrow).
  exists stf. split; [exact Hfinal|]. intros v Hv.
  assert (i * vertexCount g + vertexCount g <= numResults * vertexCount g).
  { assert ((i + 1) * vertexCount g <= numResults * vertexCount g)
      by (apply Nat.mul_le_mono_r; lia). lia. }
  rewrite (@nth_error_load _ Float32.zero out') by lia.
  now rewrite Hrow.
Qed.


(** C7.  Under the same contract, a vertex that cannot be reached from the
    source of a query ends with [FLT_MAX], the value it was initialised to;
    this covers every vertex other than the source that no edge points
    to. *)
Theorem unreachable_cost_is_FLT_MAX (g : Graph32) (fuel : nat)
        (sourceVertices : list nat) (outResultCosts : list Float32.float32)
        (numResults i v : nat) :
  csrInvariants g = true ->
  weightsNonNegative g = true ->
  numResults <= length sourceVertices ->
  (forall q, q < numResults -> load 0 sourceVertices q < vertexCount g) ->
  length outResultCosts = numResults * vertexCount g ->
  (Z.of_nat numResults * Z.of_nat (vertexCount g) < 2 ^ 31)%Z ->
  vertexCount g < fuel ->
  i < numResults ->
  v < vertexCount g ->
  (~ reachable g (load 0 sourceVertices i) v \/
   (v <> load 0 sourceVertices i /\
    forall e, e < edgeCount g -> headOf g e <> v)) ->
  exists out,
    runDijkstraRef32 fuel g sourceVertices outResultCosts numResults = Some out /\
    length out = numResults * vertexCount g /\
    nth_error out (i * vertexCount g + v) = Some Float32.FLT_MAX.
Proof.
  intros Hcsr Hw _ Hsrc Hlen Hint Hfuel Hi Hv Hun.
  assert (Hunreach : ~ reachable g (load 0 sourceVertices i) v).
  { destruct Hun as [H|(Hne & Hno)]; auto.
    now apply no_incoming_unreachable. }
  destruct (@runDijkstraRef32_rows g fuel sourceVertices outResultCosts numResults)
    as (out & Hrun & Hlen' & Hrows); auto.
  exists out. split; [exact Hrun|]. split; [exact Hlen'|].
  destruct (Hrows i Hi) as (stf & (k & st0 & _ & _ & _ & HI & _) & Hrow).
  rewrite Hrow by auto. f_equal. apply (inv_unreached HI); auto.
Qed.

(** *** The theorems at work on the example graphs *)

Definition triangleStart : State32 :=
  initializeBuffers32 triangle 0 (allocState Float32.zero triangle).

Lemma triangleStart_binary : maskBinary triangle triangleStart.
Proof.
  intros v Hv. destruct v as [|[|[|v]]]; vm_compute; auto.
  simpl in Hv. lia.
Defined.

Lemma triangleStart_head : loopHead32 triangle 0 triangleStart.
Proof. apply head_init. apply allocState_sized. Defined.

Lemma kernel1_as_specified_witness :
  maskBinary triangle triangleStart /\
  kernel1_32 triangle triangleStart
  = phase1Spec Float32.add Float32.gt Float32.zero triangle triangleStart.
Proof.
  split; [exact triangleStart_binary|].
  exact (proj1 (kernel1_as_specified Float32.add Float32.gt Float32.zero triangleStart_binary)).
Defined.

Lemma kernel2_as_specified_witness :
  sized triangle (kernel1_32 triangle triangleStart) /\
  updatingCostArray (kernel2_32 triangle (kernel1_32 triangle triangleStart))
  = costArray (kernel2_32 triangle (kernel1_32 triangle triangleStart)).
Proof.
  assert (H : sized triangle (kernel1_32 triangle triangleStart))
    by (repeat split; reflexivity).
  split; [exact H|].
  exact (proj2 (kernel2_as_specified Float32.gt Float32.zero H)).
Defined.

Lemma mask_stays_binary_witness :
  loopHead32 triangle 0 triangleStart /\ maskBinary triangle triangleStart.
Proof.
  split; [exact triangleStart_head|].
  exact (proj1 (mask_stays_binary (or_introl triangleStart_head))).
Defined.

Lemma cost_never_increases_witness :
  loopHead32 triangle 0 triangleStart /\ 2 < vertexCount triangle /\
  Float32.le (load Float32.zero (costArray (iteration32 triangle triangleStart)) 2)
             (load Float32.zero (costArray triangleStart) 2) = true.
Proof.
  split; [exact triangleStart_head|].
  assert (H : 2 < vertexCount triangle) by (simpl; lia).
  split; [exact H|].
  apply (cost_never_increases triangleStart_head H).
Defined.

Lemma loop_terminates_witness :
  csrInvariants triangle = true /\ weightsNonNegative triangle = true /\
  0 < vertexCount triangle /\ sized triangle (allocState Float32.zero triangle) /\
  exists k,
    k <= vertexCount triangle /\
    maskAllZero triangle (Nat.iter k (iteration32 triangle) triangleStart).
Proof.
  assert (H1 : csrInvariants triangle = true) by reflexivity.
  assert (H2 : weightsNonNegative triangle = true) by reflexivity.
  assert (H3 : 0 < vertexCount triangle) by (simpl; lia).
  assert (H4 : sized triangle (allocState Float32.zero triangle))
    by (repeat split; reflexivity).
  repeat (split; [assumption|]).
  destruct (@loop_terminates triangle 0 _ H1 H2 H3 H4) as (k & Hk & _ & Hzero & _).
  exists k. split; assumption.
Defined.


Lemma unreachable_cost_is_FLT_MAX_witness :
  csrInvariants isolated = true /\ weightsNonNegative isolated = true /\
  exists out,
    runDijkstraRef32 7 isolated [0] (repeat f32_4 6) 1 = Some out /\
    length out = 1 * vertexCount isolated /\
    nth_error out (0 * vertexCount isolated + 5) = Some Float32.FLT_MAX.
Proof.
  assert (H1 : csrInvariants isolated = true) by reflexivity.
  assert (H2 : weightsNonNegative isolated = true) by reflexivity.
  repeat (split; [assumption|]).
  apply (@unreachable_cost_is_FLT_MAX isolated 7 [0] (repeat f32_4 6) 1 0 5 H1 H2).
  - simpl; lia.
  - intros q Hq. destruct q; [simpl; lia | lia].
  - reflexivity.
  - simpl; lia.
  - simpl; lia.
  - lia.
  - simpl; lia.
  - right. split; [discriminate|].
    intros e He. destruct e as [|[|[|[|e]]]]; try (vm_compute; discriminate).
    simpl in He. lia.
Defined.

(** ** What [runDijkstraRef] returns *)

Lemma f32_le_value a b :
  okf32 a -> okf32 b ->
  Float32.le a b = (Float32.value a <=? Float32.value b)%Z.
Proof.
  intros Ha Hb. unfold Float32.le, SFleb, Z.leb.
  rewrite (Float32.compare_value _ _ Ha Hb).
  destruct (Float32.value a ?= Float32.value b)%Z; reflexivity.
Qed.

Lemma f32_gt_irrefl (a : Float32.float32) : Float32.gt a a = false.
Proof.
  unfold Float32.gt, SFltb.
  destruct a as [s|s| |s m e]; cbn [SFcompare]; try reflexivity.
  - destruct s; reflexivity.
  - rewrite Z.compare_refl, Pos.compare_cont_refl. destruct s; reflexivity.
Qed.

(** The laws of the cost arithmetic, as the lemmas on the loop ask for
    them. *)
Ltac laws32 :=
  first [ exact Float32.gt_value | exact okf32_least | exact okf32_add
        | exact Float32.add_mono | exact Float32.add_inflationary
        | exact (eq_refl : okf32 Float32.zero)
        | exact (eq_refl : okf32 Float32.FLT_MAX)
        | (apply weights_okf32; assumption)
        | assumption ].

(** The caller contract of the theorems below: CSR invariants,
    non-negative weights, [numResults] valid sources, an output buffer of
    [numResults * vertexCount] entries, that product below 2^31 so that
    every row index is an [int]; any fuel above [vertexCount] is enough. *)

(** X7.  Under the caller contract [runDijkstraRef] returns an output of
    [numResults * vertexCount] entries, and no walk from the source of a
    query to a vertex costs less than the entry reported for that vertex,
    the cost of a walk being the float sum of its weights taken from the
    source on. *)
Theorem ref_cost_below_every_walk (g : Graph32) (fuel : nat) (sourceVertices : list nat)
        (outResultCosts : list Float32.float32) (numResults i v : nat) (es : list nat) :
  csrInvariants g = true ->
  weightsNonNegative g = true ->
  numResults <= length sourceVertices ->
  (forall q, q < numResults -> load 0 sourceVertices q < vertexCount g) ->
  length outResultCosts = numResults * vertexCount g ->
  (Z.of_nat numResults * Z.of_nat (vertexCount g) < 2 ^ 31)%Z ->
  vertexCount g < fuel ->
  i < numResults ->
  walk g (load 0 sourceVertices i) v es ->
  exists out c,
    runDijkstraRef32 fuel g sourceVertices outResultCosts numResults = Some out /\
    length out = numResults * vertexCount g /\
    nth_error out (i * vertexCount g + v) = Some c /\
    Float32.le c (pathCost Float32.add Float32.zero g es) = true.
Proof.
  intros Hcsr Hw _ Hsrc Hlen Hint Hfuel Hi Hwalk.
  destruct (@runDijkstraRef32_rows g fuel sourceVertices outResultCosts numResults)
    as (out & Hrun & Hlen' & Hrows); auto.
  destruct (Hrows i Hi) as (stf & Hfinal & Hrow).
  assert (Hv : v < vertexCount g).
  { eapply (@walk_end_valid _ g Hcsr); eauto. }
  exists out, (load Float32.zero (costArray stf) v).
  split; [exact Hrun|]. split; [exact Hlen'|]. split; [now apply Hrow|].
  rewrite f32_le_value.
  - apply Z.leb_le.
    apply (@final_lower _ Float32.add Float32.gt Float32.zero Float32.FLT_MAX
             okf32 Float32.value eq_refl okf32_add Float32.add_mono
             g (weights_okf32 g Hw) _ (Hsrc i Hi) stf v es Hfinal Hwalk).
  - apply (final_bounded v Hfinal).
  - apply okf_pathCost; laws32.
Qed.

(** X8.  Under the caller contract [runDijkstraRef] returns an output of
    [numResults * vertexCount] entries, and every entry is either
    [FLT_MAX] or the cost of a walk from the source of the query to the
    vertex, a walk of [vertexCount] edges at most. *)
Theorem ref_cost_is_a_walk_cost (g : Graph32) (fuel : nat) (sourceVertices : list nat)
        (outResultCosts : list Float32.float32) (numResults i v : nat) :
  csrInvariants g = true ->
  weightsNonNegative g = true ->
  numResults <= length sourceVertices ->
  (forall q, q < numResults -> load 0 sourceVertices q < vertexCount g) ->
  length outResultCosts = numResults * vertexCount g ->
  (Z.of_nat numResults * Z.of_nat (vertexCount g) < 2 ^ 31)%Z ->
  vertexCount g < fuel ->
  i < numResults ->
  v < vertexCount g ->
  exists out c,
    runDijkstraRef32 fuel g sourceVertices outResultCosts numResults = Some out /\
    length out = numResults * vertexCount g /\
    nth_error out (i * vertexCount g + v) = Some c /\
    (c = Float32.FLT_MAX \/
     exists es,
       walk g (load 0 sourceVertices i) v es /\ length es <= vertexCount g /\
       c = pathCost Float32.add Float32.zero g es).
Proof.
  intros Hcsr Hw _ Hsrc Hlen Hint Hfuel Hi Hv.
  destruct (@runDijkstraRef32_rows g fuel sourceVertices outResultCosts numResults)
    as (out & Hrun & Hlen' & Hrows); auto.
  destruct (Hrows i Hi) as (stf & Hfinal & Hrow).
  exists out, (load Float32.zero (costArray stf) v).
  split; [exact Hrun|]. split; [exact Hlen'|]. split; [now apply Hrow|].
  eapply final_achieved; eauto; laws32.
Qed.

(** X9.  Under the caller contract [runDijkstraRef] returns an output of
    [numResults * vertexCount] entries in which, row by row, no edge is
    left to relax: the entry of the head of an edge is not greater than the
    entry of its tail plus the weight of the edge. *)
Theorem ref_no_edge_left_to_relax (g : Graph32) (fuel : nat) (sourceVertices : list nat)
        (outResultCosts : list Float32.float32) (numResults i u e : nat) :
  csrInvariants g = true ->
  weightsNonNegative g = true ->
  numResults <= length sourceVertices ->
  (forall q, q < numResults -> load 0 sourceVertices q < vertexCount g) ->
  length outResultCosts = numResults * vertexCount g ->
  (Z.of_nat numResults * Z.of_nat (vertexCount g) < 2 ^ 31)%Z ->
  vertexCount g < fuel ->
  i < numResults ->
  u < vertexCount g ->
  In e (outgoingEdges g u) ->
  exists out cu cv,
    runDijkstraRef32 fuel g sourceVertices outResultCosts numResults = Some out /\
    length out = numResults * vertexCount g /\
    nth_error out (i * vertexCount g + u) = Some cu /\
    nth_error out (i * vertexCount g + headOf g e) = Some cv /\
    Float32.gt cv (Float32.add cu (load Float32.zero (weightArray g) e)) = false.
Proof.
  intros Hcsr Hw _ Hsrc Hlen Hint Hfuel Hi Hu He.
  destruct (@runDijkstraRef32_rows g fuel sourceVertices outResultCosts numResults)
    as (out & Hrun & Hlen' & Hrows); auto.
  destruct (Hrows i Hi) as (stf & Hfinal & Hrow).
  assert (Hhead : headOf g e < vertexCount g).
  { eapply (@outgoing_head_valid _ g Hcsr); eauto. }
  exists out, (load Float32.zero (costArray stf) u),
         (load Float32.zero (costArray stf) (headOf g e)).
  split; [exact Hrun|]. split; [exact Hlen'|].
  split; [now apply Hrow|]. split; [now apply Hrow|].
  eapply final_settled; eauto; laws32.
Qed.

(** X10.  Under the caller contract [runDijkstraRef] returns an output of
    [numResults * vertexCount] entries, each of them a well-formed float
    between [0.0] and [FLT_MAX]: never a NaN, never an infinity, even
    where the sums along the walks overflow. *)
Theorem ref_costs_are_finite (g : Graph32) (fuel : nat) (sourceVertices : list nat)
        (outResultCosts : list Float32.float32) (numResults i v : nat) :
  csrInvariants g = true ->
  weightsNonNegative g = true ->
  numResults <= length sourceVertices ->
  (forall q, q < numResults -> load 0 sourceVertices q < vertexCount g) ->
  length outResultCosts = numResults * vertexCount g ->
  (Z.of_nat numResults * Z.of_nat (vertexCount g) < 2 ^ 31)%Z ->
  vertexCount g < fuel ->
  i < numResults ->
  v < vertexCount g ->
  exists out c,
    runDijkstraRef32 fuel g sourceVertices outResultCosts numResults = Some out /\
    length out = numResults * vertexCount g /\
    nth_error out (i * vertexCount g + v) = Some c /\
    Float32.wellFormed c = true /\
    Float32.le Float32.zero c = true /\
    Float32.le c Float32.FLT_MAX = true.
Proof.
  intros Hcsr Hw _ Hsrc Hlen Hint Hfuel Hi Hv.
  destruct (@runDijkstraRef32_rows g fuel sourceVertices outResultCosts numResults)
    as (out & Hrun & Hlen' & Hrows); auto.
  destruct (Hrows i Hi) as (stf & Hfinal & Hrow).
  exists out, (load Float32.zero (costArray stf) v).
  split; [exact Hrun|]. split; [exact Hlen'|]. split; [now apply Hrow|].
  destruct (final_bounded v Hfinal) as (Hok & Hmax).
  pose proof Hok as Hok'. unfold okf32, Float32.nonNegative in Hok'.
  apply andb_true_iff in Hok'. destruct Hok' as (Hwf & Hpos).
  repeat split; auto.
  rewrite f32_le_value by (auto; reflexivity). now apply Z.leb_le.
Qed.

(** X11.  Under the caller contract, after [k] trips through the loop body
    the cost of a vertex is not greater than the cost of any walk of [k]
    edges or fewer from the source to it. *)
Theorem k_trips_cover_k_edges (g : Graph32) (src : nat) (st0 : State32)
        (k v : nat) (es : list nat) :
  csrInvariants g = true ->
  weightsNonNegative g = true ->
  src < vertexCount g ->
  sized g st0 ->
  walk g src v es ->
  length es <= k ->
  Float32.le (load Float32.zero
                   (costArray (Nat.iter k (iteration32 g) (initializeBuffers32 g src st0))) v)
             (pathCost Float32.add Float32.zero g es) = true.
Proof.
  intros Hcsr Hw Hsrc Hsz Hwalk Hlen.
  assert (HI : Inv Float32.add Float32.zero Float32.FLT_MAX okf32 Float32.value
                   g src k (Nat.iter k (iteration32 g) (initializeBuffers32 g src st0))).
  { apply Inv_iter; laws32. }
  rewrite f32_le_value.
  - apply Z.leb_le. apply (inv_lower HI Hwalk Hlen).
  - apply (inv_ok HI).
  - apply okf_pathCost; laws32.
Qed.

(** X12.  At the test of the [while] condition, one more trip through the
    body marks in the mask exactly the vertices whose cost it lowered: the
    entry is 1 where the cost went down, 0 where the cost is what it
    was. *)
Theorem frontier_is_what_went_down (g : Graph32) (src : nat) (st : State32) (v : nat) :
  csrInvariants g = true ->
  loopHead32 g src st ->
  v < vertexCount g ->
  (load 0%Z (maskArray (iteration32 g st)) v = 1%Z <->
   Float32.gt (load Float32.zero (costArray st) v)
              (load Float32.zero (costArray (iteration32 g st)) v) = true) /\
  (load 0%Z (maskArray (iteration32 g st)) v = 0%Z <->
   load Float32.zero (costArray (iteration32 g st)) v
   = load Float32.zero (costArray st) v).
Proof.
  intros _ Hhead Hv. exact (iteration_marks_decrease f32_gt_irrefl Hhead Hv).
Qed.

(** X13.  The state at which the [while] loop stops is a fixed point of its
    body: one more trip would change none of the three work arrays. *)
Theorem exit_state_is_fixed_point (g : Graph32) (src : nat) (st : State32) :
  csrInvariants g = true ->
  loopHead32 g src st ->
  maskArrayEmpty (maskArray st) (vertexCount g) = true ->
  iteration32 g st = st.
Proof.
  intros _ Hhead Hempty.
  apply iteration_fixpoint.
  - exact f32_gt_irrefl.
  - eapply loopHead_sized; eauto.
  - apply maskArrayEmpty_binary; auto. eapply loopHead_maskBinary; eauto.
  - eapply loopHead_sync; eauto.
Qed.

(** *** The theorems on the queries at work on the example graphs *)

(** The triangle queried from vertex 0 and from vertex 1, into a buffer
    that held 4.0 everywhere. *)
Definition triangleBatch : list Float32.float32 :=
  [Float32.zero; f32_1; f32_3; Float32.FLT_MAX; Float32.zero; f32_2].

Lemma triangleBatch_run :
  runDijkstraRef32 4 triangle [0; 1] (repeat f32_4 6) 2 = Some triangleBatch.
Proof. vm_compute. reflexivity. Defined.

(** The walk 0 -> 1 -> 2 of the triangle. *)
Lemma triangle_walk : walk triangle 0 2 [2; 0].
Proof.
  apply (@walk_cons _ triangle 0 1 [0] 2).
  - apply (@walk_cons _ triangle 0 0 [] 0).
    + constructor.
    + simpl; lia.
    + simpl; auto.
  - simpl; lia.
  - simpl; auto.
Defined.

Lemma triangle_sources q : q < 1 -> load 0 [0] q < vertexCount triangle.
Proof. intros Hq. destruct q; [simpl; lia | lia]. Defined.

Lemma queries_are_independent_witness :
  runDijkstraRef32 4 triangle [0; 1] (repeat f32_4 6) 2 = Some triangleBatch /\
  length triangleBatch = 2 * vertexCount triangle /\
  exists row,
    runDijkstraRef32 4 triangle [load 0 [0; 1] 1] (repeat f32_1 3) 1 = Some row /\
    length row = vertexCount triangle /\
    forall v, v < vertexCount triangle ->
              nth_error triangleBatch (1 * vertexCount triangle + v) = nth_error row v.
Proof.
  split; [exact triangleBatch_run|].
  apply (@queries_are_independent _ Float32.add Float32.gt Float32.zero Float32.FLT_MAX
           triangle 4 [0; 1] (repeat f32_4 6) (repeat f32_1 3)
           triangleBatch 2 1).
  - reflexivity.
  - simpl; lia.
  - reflexivity.
  - simpl; lia.
  - reflexivity.
  - exact triangleBatch_run.
  - lia.
Defined.

Lemma output_beyond_rows_untouched_witness :
  runDijkstraRef32 4 triangle [0] (repeat f32_4 5) 1
  = Some [Float32.zero; f32_1; f32_3; f32_4; f32_4] /\
  length [Float32.zero; f32_1; f32_3; f32_4; f32_4] = length (repeat f32_4 5) /\
  forall j, 1 * vertexCount triangle <= j ->
            nth_error [Float32.zero; f32_1; f32_3; f32_4; f32_4] j
            = nth_error (repeat f32_4 5) j.
Proof.
  assert (Hrun : runDijkstraRef32 4 triangle [0] (repeat f32_4 5) 1
                 = Some [Float32.zero; f32_1; f32_3; f32_4; f32_4])
    by (vm_compute; reflexivity).
  split; [exact Hrun|].
  apply (@output_beyond_rows_untouched _ Float32.add Float32.gt Float32.zero
           Float32.FLT_MAX triangle 4 [0] (repeat f32_4 5)
           [Float32.zero; f32_1; f32_3; f32_4; f32_4] 1).
  - reflexivity.
  - simpl; lia.
  - simpl; lia.
  - simpl; lia.
  - exact Hrun.
Defined.

Lemma source_out_of_range_row_witness :
  sized triangle (allocState Float32.zero triangle) /\
  vertexCount triangle <= 7 /\
  whileLoop32 1 triangle
              (initializeBuffers32 triangle 7 (allocState Float32.zero triangle))
  = Some (initializeBuffers32 triangle 7 (allocState Float32.zero triangle)) /\
  exists out,
    runDijkstraRef32 1 triangle [7] (repeat f32_4 4) 1 = Some out /\
    length out = length (repeat f32_4 4) /\
    (forall v, v < vertexCount triangle -> nth_error out v = Some Float32.FLT_MAX) /\
    (forall j, vertexCount triangle <= j ->
               nth_error out j = nth_error (repeat f32_4 4) j).
Proof.
  assert (H1 : sized triangle (allocState Float32.zero triangle))
    by (repeat split; reflexivity).
  assert (H2 : vertexCount triangle <= 7) by (simpl; lia).
  assert (H3 : vertexCount triangle <= length (repeat f32_4 4)) by (simpl; lia).
  split; [exact H1|]. split; [exact H2|].
  exact (proj2 (@source_out_of_range_row _ Float32.add Float32.gt Float32.zero
                  Float32.FLT_MAX triangle 0 7 (allocState Float32.zero triangle)
                  (repeat f32_4 4) H1 H2 H3)).
Defined.

Lemma maskArrayEmpty_sees_only_ones_witness :
  3 <= length [0; 2; 0]%Z /\
  (maskArrayEmpty [0; 2; 0]%Z 3 = true <->
   forall i, i < 3 -> load 0%Z [0; 2; 0]%Z i <> 1%Z).
Proof.
  assert (H : 3 <= length [0; 2; 0]%Z) by (simpl; lia).
  split; [exact H|].
  apply (@maskArrayEmpty_sees_only_ones [0; 2; 0]%Z 3 H).
Defined.

Lemma ref_cost_below_every_walk_witness :
  csrInvariants triangle = true /\ weightsNonNegative triangle = true /\
  walk triangle (load 0 [0] 0) 2 [2; 0] /\
  exists out c,
    runDijkstraRef32 4 triangle [0] (repeat f32_4 3) 1 = Some out /\
    length out = 1 * vertexCount triangle /\
    nth_error out (0 * vertexCount triangle + 2) = Some c /\
    Float32.le c (pathCost Float32.add Float32.zero triangle [2; 0]) = true.
Proof.
  assert (H1 : csrInvariants triangle = true) by reflexivity.
  assert (H2 : weightsNonNegative triangle = true) by reflexivity.
  repeat (split; [assumption|]).
  split; [exact triangle_walk|].
  apply (@ref_cost_below_every_walk triangle 4 [0] (repeat f32_4 3) 1 0 2 [2; 0] H1 H2).
  - simpl; lia.
  - exact triangle_sources.
  - reflexivity.
  - simpl; lia.
  - simpl; lia.
  - lia.
  - exact triangle_walk.
Defined.

Lemma ref_cost_is_a_walk_cost_witness :
  csrInvariants triangle = true /\ weightsNonNegative triangle = true /\
  exists out c,
    runDijkstraRef32 4 triangle [0] (repeat f32_4 3) 1 = Some out /\
    length out = 1 * vertexCount triangle /\
    nth_error out (0 * vertexCount triangle + 2) = Some c /\
    (c = Float32.FLT_MAX \/
     exists es,
       walk triangle (load 0 [0] 0) 2 es /\ length es <= vertexCount triangle /\
       c = pathCost Float32.add Float32.zero triangle es).
Proof.
  assert (H1 : csrInvariants triangle = true) by reflexivity.
  assert (H2 : weightsNonNegative triangle = true) by reflexivity.
  repeat (split; [assumption|]).
  apply (@ref_cost_is_a_walk_cost triangle 4 [0] (repeat f32_4 3) 1 0 2 H1 H2).
  - simpl; lia.
  - exact triangle_sources.
  - reflexivity.
  - simpl; lia.
  - simpl; lia.
  - lia.
  - simpl; lia.
Defined.

Lemma ref_no_edge_left_to_relax_witness :
  csrInvariants triangle = true /\ weightsNonNegative triangle = true /\
  In 1 (outgoingEdges triangle 0) /\
  exists out cu cv,
    runDijkstraRef32 4 triangle [0] (repeat f32_4 3) 1 = Some out /\
    length out = 1 * vertexCount triangle /\
    nth_error out (0 * vertexCount triangle + 0) = Some cu /\
    nth_error out (0 * vertexCount triangle + headOf triangle 1) = Some cv /\
    Float32.gt cv (Float32.add cu (load Float32.zero (weightArray triangle) 1)) = false.
Proof.
  assert (H1 : csrInvariants triangle = true) by reflexivity.
  assert (H2 : weightsNonNegative triangle = true) by reflexivity.
  assert (H3 : In 1 (outgoingEdges triangle 0)) by (simpl; auto).
  repeat (split; [assumption|]).
  apply (@ref_no_edge_left_to_relax triangle 4 [0] (repeat f32_4 3) 1 0 0 1 H1 H2).
  - simpl; lia.
  - exact triangle_sources.
  - reflexivity.
  - simpl; lia.
  - simpl; lia.
  - lia.
  - simpl; lia.
  - exact H3.
Defined.

Lemma ref_costs_are_finite_witness :
  csrInvariants isolated = true /\ weightsNonNegative isolated = true /\
  exists out c,
    runDijkstraRef32 7 isolated [0] (repeat f32_4 6) 1 = Some out /\
    length out = 1 * vertexCount isolated /\
    nth_error out (0 * vertexCount isolated + 5) = Some c /\
    Float32.wellFormed c = true /\
    Float32.le Float32.zero c = true /\
    Float32.le c Float32.FLT_MAX = true.
Proof.
  assert (H1 : csrInvariants isolated = true) by reflexivity.
  assert (H2 : weightsNonNegative isolated = true) by reflexivity.
  repeat (split; [assumption|]).
  apply (@ref_costs_are_finite isolated 7 [0] (repeat f32_4 6) 1 0 5 H1 H2).
  - simpl; lia.
  - intros q Hq. destruct q; [simpl; lia | lia].
  - reflexivity.
  - simpl; lia.
  - simpl; lia.
  - lia.
  - simpl; lia.
Defined.

Lemma k_trips_cover_k_edges_witness :
  csrInvariants triangle = true /\ weightsNonNegative triangle = true /\
  walk triangle 0 2 [2; 0] /\
  Float32.le (load Float32.zero (costArray (Nat.iter 2 (iteration32 triangle) triangleStart)) 2)
             (pathCost Float32.add Float32.zero triangle [2; 0]) = true.
Proof.
  assert (H1 : csrInvariants triangle = true) by reflexivity.
  assert (H2 : weightsNonNegative triangle = true) by reflexivity.
  repeat (split; [assumption|]).
  split; [exact triangle_walk|].
  apply (@k_trips_cover_k_edges triangle 0 (allocState Float32.zero triangle) 2 2 [2; 0]
           H1 H2).
  - simpl; lia.
  - apply allocState_sized.
  - exact triangle_walk.
  - simpl; lia.
Defined.

Lemma frontier_is_what_went_down_witness :
  csrInvariants triangle = true /\ loopHead32 triangle 0 triangleStart /\
  (load 0%Z (maskArray (iteration32 triangle triangleStart)) 2 = 1%Z <->
   Float32.gt (load Float32.zero (costArray triangleStart) 2)
              (load Float32.zero (costArray (iteration32 triangle triangleStart)) 2) = true).
Proof.
  assert (H0 : csrInvariants triangle = true) by reflexivity.
  split; [exact H0|]. split; [exact triangleStart_head|].
  assert (H : 2 < vertexCount triangle) by (simpl; lia).
  exact (proj1 (@frontier_is_what_went_down triangle 0 triangleStart 2
                  H0 triangleStart_head H)).
Defined.

(** Vertex 5 of [isolated] has no edge: queried from it, the loop stops
    after one trip. *)
Definition isolatedEnd : State32 :=
  iteration32 isolated (initializeBuffers32 isolated 5 (allocState Float32.zero isolated)).

Lemma isolatedEnd_head : loopHead32 isolated 5 isolatedEnd.
Proof.
  apply head_iter.
  - apply head_init. apply allocState_sized.
  - reflexivity.
Defined.

Lemma exit_state_is_fixed_point_witness :
  csrInvariants isolated = true /\ loopHead32 isolated 5 isolatedEnd /\
  maskArrayEmpty (maskArray isolatedEnd) (vertexCount isolated) = true /\
  iteration32 isolated isolatedEnd = isolatedEnd.
Proof.
  assert (H : maskArrayEmpty (maskArray isolatedEnd) (vertexCount isolated) = true)
    by (vm_compute; reflexivity).
  assert (H0 : csrInvariants isolated = true) by reflexivity.
  split; [exact H0|]. split; [exact isolatedEnd_head|]. split; [exact H|].
  apply (@exit_state_is_fixed_point isolated 5 isolatedEnd H0 isolatedEnd_head H).
Defined.

Lemma new_cost_comes_from_the_frontier_witness :
  csrInvariants triangle = true /\ loopHead32 triangle 0 triangleStart /\
  (load Float32.zero (costArray (iteration32 triangle triangleStart)) 1
   = load Float32.zero (costArray triangleStart) 1 \/
   exists u e,
     u < vertexCount triangle /\ load 0%Z (maskArray triangleStart) u = 1%Z /\
     In e (outgoingEdges triangle u) /\ headOf triangle e = 1 /\
     load Float32.zero (costArray (iteration32 triangle triangleStart)) 1
     = Float32.add (load Float32.zero (costArray triangleStart) u)
                   (load Float32.zero (weightArray triangle) e)).
Proof.
  assert (H0 : csrInvariants triangle = true) by reflexivity.
  assert (H : 1 < vertexCount triangle) by (simpl; lia).
  split; [exact H0|]. split; [exact triangleStart_head|].
  apply (@new_cost_comes_from_the_frontier _ Float32.add Float32.gt Float32.zero
           Float32.FLT_MAX triangle 0 triangleStart 1 H0 triangleStart_head H).
Defined.

(** A graph without vertices. *)
Definition noVertex : Graph32 := mkGraph 0 0 [] [] [].

Lemma empty_graph_returns_at_once_witness :
  vertexCount noVertex = 0 /\
  runDijkstraRef32 1 noVertex [0; 0] [f32_1; f32_2] 2 = Some [f32_1; f32_2].
Proof.
  assert (H : vertexCount noVertex = 0) by reflexivity.
  split; [exact H|].
  apply (@empty_graph_returns_at_once _ Float32.add Float32.gt Float32.zero
           Float32.FLT_MAX noVertex 0 [0; 0] [f32_1; f32_2] 2 H).
Defined.

(** ** The workload partitioner *)

Module Partitioner.
Open Scope Z_scope.

(** The two OpenCL contexts a plan can refer to. *)
Inductive DeviceContext : Type := gpuContext | cpuContext.

(** [DevicePlan].  The two pointers into the caller's arrays are kept as
    element offsets: [plan_sourceVertices] is [k] for [&sourceVertices[k]],
    [plan_outResultCosts] is [k] for [&outResultCosts[k]]; [plan_deviceId]
    is the index handed to [oclGetDev].  The shared [graph] pointer is left
    out.  The offsets and the count are [int]s. *)
Record DevicePlan : Type := mkPlan {
  plan_context : DeviceContext;
  plan_deviceId : Z;
  plan_sourceVertices : Z;
  plan_outResultCosts : Z;
  plan_numResults : Z
}.

(** 32-bit [unsigned int] and [int]. *)
Definition uint32 (z : Z) : Z := z mod 2 ^ 32.

Definition int32 (z : Z) : Z :=
  let u := z mod 2 ^ 32 in if u <? 2 ^ 31 then u else u - 2 ^ 32.

(** [a / b] for [int a] and [cl_uint b], stored in an [int]: the division
    is carried out on [unsigned int]. *)
Definition divIntByUInt (a b : Z) : Z := int32 (uint32 a / b).

(** [(float) n] for an [int n]: rounding to nearest, ties to even. *)
Definition intToFloat (n : Z) : Float32.float32 :=
  binary_normalize Float32.prec Float32.emax n 0 false.

(** [(int) x]: truncation towards zero (0 where C leaves it undefined). *)
Definition floatToInt (x : Float32.float32) : Z :=
  match x with
  | S754_finite s m e =>
      cond_Zopp s (if 0 <=? e then Zpos m * 2 ^ e else Zpos m / 2 ^ (- e))
  | _ => 0
  end.

(** [float ratioCPUtoGPU = 1]. *)
Definition ratioCPUtoGPU : Float32.float32 := f32_1.

(** One of the loops that fill [devicePlans]: [count] devices of context
    [ctx], device [i] first, [perDevice] queries each, starting at query
    [offset].  Yields the plans and the offset after the loop.
    [offset * graph->vertexCount] and [offset += perDevice] are [int]
    operations. *)
Fixpoint planLoop (ctx : DeviceContext) (count : nat) (i : Z) (perDevice : Z)
         (vertexCount : Z) (offset : Z) : list DevicePlan * Z :=
  match count with
  | O => ([], offset)
  | S count' =>
      let p := mkPlan ctx i offset (int32 (offset * vertexCount)) perDevice in
      let '(ps, offset') :=
        planLoop ctx count' (i + 1) perDevice vertexCount (int32 (offset + perDevice)) in
      (p :: ps, offset')
  end.

(** [devicePlans[last].numResults += extra]. *)
Fixpoint addToLast (plans : list DevicePlan) (extra : Z) : list DevicePlan :=
  match plans with
  | [] => []
  | [p] => [mkPlan (plan_context p) (plan_deviceId p) (plan_sourceVertices p)
                   (plan_outResultCosts p) (int32 (plan_numResults p + extra))]
  | p :: rest => p :: addToLast rest extra
  end.

(** "Add any remaining work to the last GPU". *)
Definition addRemainder (plans : list DevicePlan) (offset numResults : Z)
  : list DevicePlan :=
  if offset <? numResults then addToLast plans (int32 (numResults - offset)) else plans.

(** The plans of [runDijkstraMultiGPU]. *)
Definition multiGPUPlans (deviceCount vertexCount numResults : Z) : list DevicePlan :=
  let resultsPerDevice := divIntByUInt numResults deviceCount in
  let '(plans, offset) :=
    planLoop gpuContext (Z.to_nat deviceCount) 0 resultsPerDevice vertexCount 0 in
  addRemainder plans offset numResults.

(** The plans of [runDijkstraMultiGPUandCPU]. *)
Definition multiGPUandCPUPlans (gpuDeviceCount cpuDeviceCount vertexCount numResults : Z)
  : list DevicePlan :=
  let totalDeviceCount := uint32 (gpuDeviceCount + cpuDeviceCount) in
  let gpuResults :=
    floatToInt (SFdiv Float32.prec Float32.emax (intToFloat numResults) ratioCPUtoGPU) in
  let cpuResults := int32 (numResults - gpuResults) in
  let resultsPerGPU := divIntByUInt gpuResults totalDeviceCount in
  let '(gpuPlans, offset1) :=
    planLoop gpuContext (Z.to_nat gpuDeviceCount) 0 resultsPerGPU vertexCount 0 in
  let resultsPerCPU := cpuResults in
  let '(cpuPlans, offset2) :=
    planLoop cpuContext (Z.to_nat cpuDeviceCount) 0 resultsPerCPU vertexCount offset1 in
  addRemainder (gpuPlans ++ cpuPlans) offset2 numResults.

(** The queries a plan covers, in order. *)
Definition planQueries (p : DevicePlan) : list Z :=
  map (fun k => plan_sourceVertices p + Z.of_nat k)
      (seq 0 (Z.to_nat (plan_numResults p))).

Section Workers.
(** The output buffer and what one worker thread ([dijkstraThread], which
    runs [runDijkstra] on its plan) does to it.  The threads write to the
    buffer one after the other here; the entry points wait for all of
    them. *)
Variable Out : Type.
Variable dijkstraThread : DevicePlan -> Out -> Out.

(** What an entry point did: the plans it created and launched a worker
    for, and the output buffer when it returns. *)
Definition launch (plans : list DevicePlan) (out : Out) : list DevicePlan * Out :=
  (plans, fold_left (fun o p => dijkstraThread p o) plans out).

Definition runDijkstraMultiGPU (deviceCount vertexCount numResults : Z) (out : Out)
  : list DevicePlan * Out :=
  if deviceCount =? 0 then ([], out)
  else launch (multiGPUPlans deviceCount vertexCount numResults) out.

Definition runDijkstraMultiGPUandCPU
           (gpuDeviceCount cpuDeviceCount vertexCount numResults : Z) (out : Out)
  : list DevicePlan * Out :=
  if gpuDeviceCount =? 0 then ([], out)
  else if cpuDeviceCount =? 0 then ([], out)
  else launch (multiGPUandCPUPlans gpuDeviceCount cpuDeviceCount vertexCount numResults) out.

(** C9.  With no device in the context [runDijkstraMultiGPU] returns with
    no plan created, no worker launched and the output buffer as it was;
    so does [runDijkstraMultiGPUandCPU] when the GPU context or the CPU
    context has no device. *)
Theorem no_device_no_work (vertexCount numResults : Z) (out : Out) :
  runDijkstraMultiGPU 0 vertexCount numResults out = ([], out) /\
  (forall cpuDeviceCount,
     runDijkstraMultiGPUandCPU 0 cpuDeviceCount vertexCount numResults out = ([], out)) /\
  (forall gpuDeviceCount,
     runDijkstraMultiGPUandCPU gpuDeviceCount 0 vertexCount numResults out = ([], out)).
Proof.
  split; [reflexivity|]. split.
  - intros c. reflexivity.
  - intros gcount. unfold runDijkstraMultiGPUandCPU.
    destruct (gcount =? 0); reflexivity.
Qed.
End Workers.

Example multiGPU_10_over_3 :
  multiGPUPlans 3 8 10 =
  [mkPlan gpuContext 0 0 0 3; mkPlan gpuContext 1 3 24 3; mkPlan gpuContext 2 6 48 4].
Proof. vm_compute. reflexivity. Qed.

Example hetero_10_over_1_1 :
  multiGPUandCPUPlans 1 1 8 10 =
  [mkPlan gpuContext 0 0 0 5; mkPlan cpuContext 0 5 40 5].
Proof. vm_compute. reflexivity. Qed.

(** *** The partition of [runDijkstraMultiGPU] *)

(** The queries [a .. a + len). *)
Definition queryRange (a len : Z) : list Z :=
  map (fun k => a + Z.of_nat k) (seq 0 (Z.to_nat len)).

Lemma map_seq_offset (A : Type) (f : nat -> A) s n :
  map f (seq s n) = map (fun k => f (s + k)%nat) (seq 0 n).
Proof.
  revert f s. induction n as [|n IH]; intros f s; [reflexivity|].
  cbn [seq map]. f_equal; [f_equal; lia|].
  rewrite (IH f (S s)), (IH (fun k => f (s + k)%nat) 1%nat).
  apply map_ext. intros k. f_equal. lia.
Qed.

Lemma queryRange_app a l1 l2 :
  0 <= l1 -> 0 <= l2 ->
  queryRange a l1 ++ queryRange (a + l1) l2 = queryRange a (l1 + l2).
Proof.
  intros H1 H2. unfold queryRange.
  rewrite Z2Nat.inj_add, seq_app, map_app by lia. f_equal.
  rewrite (map_seq_offset _ (0 + Z.to_nat l1)).
  apply map_ext. intros k. lia.
Qed.

Definition planAt (ctx : DeviceContext) (i per vertexCount offset : Z) (k : nat)
  : DevicePlan :=
  mkPlan ctx (i + Z.of_nat k) (offset + Z.of_nat k * per)
         ((offset + Z.of_nat k * per) * vertexCount) per.

Lemma int32_small z : - 2 ^ 31 <= z < 2 ^ 31 -> int32 z = z.
Proof. exact (@wrapInt_small z). Qed.

(** Where neither the offsets nor the output indices leave the range of
    [int], plan [k] of the loop starts at [offset + k * per]. *)
Lemma planLoop_spec ctx count : forall i per vertexCount offset,
  0 <= offset -> 0 <= per -> 0 <= vertexCount ->
  offset + Z.of_nat count * per < 2 ^ 31 ->
  (offset + Z.of_nat count * per) * vertexCount < 2 ^ 31 ->
  planLoop ctx count i per vertexCount offset =
  (map (planAt ctx i per vertexCount offset) (seq 0 count),
   offset + Z.of_nat count * per).
Proof.
  induction count as [|count IH]; intros i per vc offset Ho Hp Hv Hoff Hout.
  - cbn [planLoop seq map]. f_equal. lia.
  - assert (Hcp : 0 <= Z.of_nat count * per) by (apply Z.mul_nonneg_nonneg; lia).
    assert (Hs : Z.of_nat (S count) * per = per + Z.of_nat count * per) by lia.
    rewrite Hs in Hoff, Hout.
    assert (Hov : 0 <= offset * vc <= (offset + (per + Z.of_nat count * per)) * vc).
    { split; [apply Z.mul_nonneg_nonneg; lia|].
      apply Z.mul_le_mono_nonneg_r; lia. }
    cbn [planLoop].
    rewrite (@int32_small (offset * vc)) by lia.
    rewrite (@int32_small (offset + per)) by lia.
    assert (Hre : offset + per + Z.of_nat count * per
                  = offset + (per + Z.of_nat count * per)) by lia.
    rewrite IH by (rewrite ?Hre; lia).
    cbn [seq map]. f_equal.
    + f_equal.
      * unfold planAt. f_equal; lia.
      * rewrite <- seq_shift, map_map. apply map_ext.
        intros k. unfold planAt. f_equal; lia.
    + lia.
Qed.

Lemma addToLast_snoc l p extra :
  addToLast (l ++ [p]) extra =
  l ++ [mkPlan (plan_context p) (plan_deviceId p) (plan_sourceVertices p)
               (plan_outResultCosts p) (int32 (plan_numResults p + extra))].
Proof.
  induction l as [|q l IH]; [reflexivity|].
  cbn [app addToLast]. rewrite IH.
  destruct (l ++ [p]) eqn:H; [destruct l; discriminate | reflexivity].
Qed.

Lemma divIntByUInt_exact n d :
  0 <= n < 2 ^ 31 -> 1 <= d -> divIntByUInt n d = n / d.
Proof.
  intros Hn Hd. unfold divIntByUInt, uint32, int32.
  change (2 ^ 31) with 2147483648 in *. change (2 ^ 32) with 4294967296.
  rewrite (Z.mod_small n) by lia.
  assert (0 <= n / d <= n).
  { split; [apply Z.div_pos; lia|]. apply Z.div_le_upper_bound; nia. }
  rewrite Z.mod_small by lia.
  destruct (Z.ltb_spec (n / d) 2147483648); lia.
Qed.

Lemma flat_map_equal_slices ctx i per vc count :
  0 <= per ->
  flat_map planQueries (map (planAt ctx i per vc 0) (seq 0 count))
  = queryRange 0 (Z.of_nat count * per).
Proof.
  intros Hper. induction count as [|count IH]; [reflexivity|].
  rewrite seq_S, map_app, flat_map_app, IH. cbn [map flat_map].
  rewrite app_nil_r, Nat.add_0_l.
  unfold planQueries, planAt; cbn [plan_sourceVertices plan_numResults].
  fold (queryRange (0 + Z.of_nat count * per) per).
  rewrite queryRange_app by nia. f_equal. lia.
Qed.

Lemma multiGPUPlans_shape (deviceCount vertexCount numResults : Z) c :
  0 <= numResults < 2 ^ 31 ->
  1 <= deviceCount < 2 ^ 32 ->
  0 <= vertexCount -> numResults * vertexCount < 2 ^ 31 ->
  Z.to_nat deviceCount = S c ->
  let r := numResults / deviceCount in
  multiGPUPlans deviceCount vertexCount numResults =
  map (planAt gpuContext 0 r vertexCount 0) (seq 0 c) ++
  [mkPlan gpuContext (deviceCount - 1) ((deviceCount - 1) * r)
          ((deviceCount - 1) * r * vertexCount)
          (r + numResults mod deviceCount)].
Proof.
  intros Hn Hd Hv Hnv Hc r.
  assert (Hcz : Z.of_nat c = deviceCount - 1) by lia.
  assert (Hr : 0 <= r) by (apply Z.div_pos; lia).
  pose proof (Z.div_mod numResults deviceCount ltac:(lia)) as Hdm. fold r in Hdm.
  pose proof (Z.mod_pos_bound numResults deviceCount ltac:(lia)) as Hmod.
  assert (Htot : 0 <= deviceCount * r <= numResults).
  { split; [apply Z.mul_nonneg_nonneg; lia | lia]. }
  assert (Htv : deviceCount * r * vertexCount <= numResults * vertexCount)
    by (apply Z.mul_le_mono_nonneg_r; lia).
  assert (Hrd : 1 * r <= deviceCount * r) by (apply Z.mul_le_mono_nonneg_r; lia).
  unfold multiGPUPlans. rewrite divIntByUInt_exact by lia. fold r.
  rewrite planLoop_spec; rewrite ?Hc; try lia.
  rewrite seq_S, map_app. cbn [map].
  unfold addRemainder.
  replace (Z.of_nat (S c)) with deviceCount by lia.
  destruct (Z.ltb_spec (0 + deviceCount * r) numResults) as [Hlt|Hge].
  - rewrite addToLast_snoc. f_equal. unfold planAt.
    cbn [plan_context plan_deviceId plan_sourceVertices plan_outResultCosts
         plan_numResults].
    rewrite (@int32_small (numResults - (0 + deviceCount * r))) by lia.
    rewrite int32_small by lia.
    rewrite Nat.add_0_l, Hcz. f_equal. f_equal; lia.
  - f_equal. unfold planAt. rewrite Nat.add_0_l, Hcz. f_equal. f_equal; lia.
Qed.

Lemma multiGPUPlans_nth (deviceCount vertexCount numResults i : Z) :
  0 <= numResults < 2 ^ 31 ->
  1 <= deviceCount < 2 ^ 32 ->
  0 <= vertexCount -> numResults * vertexCount < 2 ^ 31 ->
  0 <= i < deviceCount ->
  let r := numResults / deviceCount in
  nth (Z.to_nat i) (multiGPUPlans deviceCount vertexCount numResults)
      (mkPlan gpuContext 0 0 0 0) =
  mkPlan gpuContext i (i * r) (i * r * vertexCount)
         (if i =? deviceCount - 1 then r + numResults mod deviceCount else r).
Proof.
  intros Hn Hd Hv Hnv Hi r.
  assert (Hc : exists c, Z.to_nat deviceCount = S c /\ Z.of_nat c = deviceCount - 1).
  { exists (Z.to_nat (deviceCount - 1)). split; lia. }
  destruct Hc as (c & Hc & Hcz).
  rewrite (@multiGPUPlans_shape deviceCount vertexCount numResults c Hn Hd Hv Hnv Hc).
  fold r.
  destruct (Z.eqb_spec i (deviceCount - 1)) as [->|Hne].
  - rewrite app_nth2; rewrite length_map, length_seq; [|lia].
    replace (Z.to_nat (deviceCount - 1) - c)%nat with 0%nat by lia. reflexivity.
  - rewrite app_nth1 by (rewrite length_map, length_seq; lia).
    rewrite nth_indep with (d' := planAt gpuContext 0 r vertexCount 0 0%nat)
      by (rewrite length_map, length_seq; lia).
    rewrite map_nth, seq_nth by lia.
    unfold planAt. rewrite Nat.add_0_l, Z2Nat.id by lia. f_equal; ring.
Qed.

(** X14.  Take [0 <= numResults < 2^31], [1 <= deviceCount < 2^32],
    [0 <= vertexCount] and [numResults * vertexCount < 2^31], so that no
    offset and no output index leaves the range of [int].  Then the plans
    of [runDijkstraMultiGPU] are [deviceCount] in number; device [i] is
    given the [numResults / deviceCount] queries from
    [i * (numResults / deviceCount)] on, with the output index
    [i * (numResults / deviceCount) * vertexCount]; the last device takes
    the remainder of the division as well; and the slices, in enumeration
    order, are the queries [0 .. numResults): every query is planned
    exactly once. *)
Theorem multiGPU_partition (deviceCount vertexCount numResults : Z) :
  0 <= numResults < 2 ^ 31 ->
  1 <= deviceCount < 2 ^ 32 ->
  0 <= vertexCount -> numResults * vertexCount < 2 ^ 31 ->
  let r := numResults / deviceCount in
  let plans := multiGPUPlans deviceCount vertexCount numResults in
  length plans = Z.to_nat deviceCount /\
  (forall i, 0 <= i < deviceCount ->
     nth (Z.to_nat i) plans (mkPlan gpuContext 0 0 0 0) =
     mkPlan gpuContext i (i * r) (i * r * vertexCount)
            (if i =? deviceCount - 1 then r + numResults mod deviceCount else r)) /\
  flat_map planQueries plans = queryRange 0 numResults.
Proof.
  intros Hn Hd Hv Hnv r plans.
  assert (Hr : 0 <= r) by (apply Z.div_pos; lia).
  pose proof (Z.div_mod numResults deviceCount ltac:(lia)) as Hdm. fold r in Hdm.
  pose proof (Z.mod_pos_bound numResults deviceCount ltac:(lia)) as Hmod.
  assert (Hc : exists c, Z.to_nat deviceCount = S c /\ Z.of_nat c = deviceCount - 1).
  { exists (Z.to_nat (deviceCount - 1)). split; lia. }
  destruct Hc as (c & Hc & Hcz).
  split; [|split].
  - unfold plans.
    rewrite (@multiGPUPlans_shape deviceCount vertexCount numResults c Hn Hd Hv Hnv Hc).
    rewrite length_app, length_map, length_seq. cbn [length]. lia.
  - intros i Hi. unfold plans. now apply multiGPUPlans_nth.
  - unfold plans.
    rewrite (@multiGPUPlans_shape deviceCount vertexCount numResults c Hn Hd Hv Hnv Hc).
    fold r.
    rewrite flat_map_app, flat_map_equal_slices by lia.
    cbn [flat_map]. rewrite app_nil_r.
    unfold planQueries; cbn [plan_sourceVertices plan_numResults].
    fold (queryRange ((deviceCount - 1) * r) (r + numResults mod deviceCount)).
    rewrite Hcz.
    replace ((deviceCount - 1) * r) with (0 + (deviceCount - 1) * r) by lia.
    rewrite queryRange_app; [f_equal; lia | | lia].
    apply Z.mul_nonneg_nonneg; lia.
Qed.

(** C8.  [runDijkstraMultiGPUandCPU] does not partition as described.  With
    one GPU, two CPU devices and nine queries the first CPU device is given
    no query and the last one six, where three shares of three were due.
    With 16777219 queries the conversion of the count to [float] rounds it
    up to 16777220: the first CPU device is given [-1] queries and the slice
    of the last one starts at query 5592405, which the GPU's slice
    [0 .. 5592406) already holds. *)
Theorem hetero_partition_defect :
  multiGPUandCPUPlans 1 2 8 9 =
    [mkPlan gpuContext 0 0 0 3; mkPlan cpuContext 0 3 24 0; mkPlan cpuContext 1 3 24 6] /\
  multiGPUandCPUPlans 1 2 1 16777219 =
    [mkPlan gpuContext 0 0 0 5592406;
     mkPlan cpuContext 0 5592406 5592406 (-1);
     mkPlan cpuContext 1 5592405 5592405 11184814].
Proof. split; vm_compute; reflexivity. Qed.

(** *** The share of the GPUs in [runDijkstraMultiGPUandCPU] *)

(** Up to 2^24 the conversion of [numResults] to [float] is exact. *)
Lemma intToFloat_shape n :
  1 <= n <= 2 ^ 24 ->
  exists m e,
    intToFloat n = S754_finite false m e /\
    Float32.wellFormed (S754_finite false m e) = true /\
    2 ^ 23 <= Zpos m /\ -23 <= e /\
    Zpos m * 2 ^ (e + 149) = n * 2 ^ 149.
Proof.
  intros Hn. destruct n as [|p|p]; try lia.
  unfold intToFloat, binary_normalize.
  rewrite Float32.binary_round_encode by lia. rewrite Z.add_0_l.
  assert (HN : 0 < Zpos p * 2 ^ 149) by lia.
  destruct (@Float32.encode_ok (Zpos p * 2 ^ 149)) as (Hnn & Hval); [lia|].
  assert (Hexact : Float32.roundValue (Zpos p * 2 ^ 149) = Zpos p * 2 ^ 149).
  { unfold Float32.roundValue.
    assert (Hr : Float32.rnd (Zpos p * 2 ^ 149) = Zpos p * 2 ^ 149).
    { destruct (Z.eq_dec (Zpos p) (2 ^ 24)) as [->|Hne].
      - change (2 ^ 24 * 2 ^ 149) with (2 ^ 23 * 2 ^ 150).
        apply Float32.rnd_exact; [|lia].
        change (2 ^ 23) with 8388608. change (2 ^ 24) with 16777216. lia.
      - apply Float32.rnd_exact; lia. }
    rewrite Hr.
    assert (Zpos p * 2 ^ 149 <= Float32.infinityValue).
    { unfold Float32.infinityValue.
      change (2 ^ 277) with (2 ^ 128 * 2 ^ 149).
      change (2 ^ 24) with 16777216 in Hn.
      assert (16777216 <= 2 ^ 128) by (vm_compute; discriminate).
      nia. }
    lia. }
  rewrite Hexact in Hval.
  destruct (Float32.nonNegative_cases _ Hnn) as [(s & Hz)|[Hinf|(m & e & Hfin & Hwf)]].
  - rewrite Hz in Hval. cbn [Float32.value] in Hval. lia.
  - rewrite Hinf in Hval. cbn [Float32.value] in Hval.
    unfold Float32.infinityValue in Hval.
    change (2 ^ 277) with (2 ^ 128 * 2 ^ 149) in Hval.
    change (2 ^ 24) with 16777216 in Hn.
    assert (16777216 < 2 ^ 128) by (vm_compute; reflexivity).
    nia.
  - rewrite Hfin in Hval |- *. cbn [Float32.value] in Hval.
    rewrite Hfin in Hwf.
    destruct (Float32.finite_bounds _ _ _ Hwf) as (He & Hm & Hnorm).
    assert (He23 : -23 <= e).
    { destruct (Z_le_gt_dec (-23) e) as [|Hlt]; auto. exfalso.
      assert (Hp : 2 ^ (e + 149) <= 2 ^ 125) by (apply Float32.pow2_mono; lia).
      change (2 ^ 149) with (2 ^ 24 * 2 ^ 125) in Hval.
      assert (0 < 2 ^ 125) by (vm_compute; reflexivity).
      assert (0 < 2 ^ (e + 149)) by (apply Float32.pow2_gt0; lia).
      nia. }
    exists m, e. repeat split; auto; lia.
Qed.

Lemma floatToInt_exact m e n :
  -149 <= e -> Zpos m * 2 ^ (e + 149) = n * 2 ^ 149 ->
  floatToInt (S754_finite false m e) = n.
Proof.
  intros He Hval. cbn [floatToInt cond_Zopp].
  assert (H149 : 0 < 2 ^ 149) by (vm_compute; reflexivity).
  destruct (Z.leb_spec 0 e) as [Hpos|Hneg].
  - rewrite (@Float32.pow2_split e 149) in Hval by lia.
    apply Z.mul_reg_r with (p := 2 ^ 149); lia.
  - assert (Hp : 0 < 2 ^ (- e)) by (apply Float32.pow2_gt0; lia).
    assert (Hq : 0 < 2 ^ (e + 149)) by (apply Float32.pow2_gt0; lia).
    replace 149 with ((e + 149) + - e) in Hval at 2 by lia.
    rewrite (@Float32.pow2_split (e + 149) (- e)) in Hval by lia.
    assert (Hm : Zpos m = n * 2 ^ (- e)).
    { apply Z.mul_reg_r with (p := 2 ^ (e + 149)); lia. }
    rewrite Hm. apply Z.div_mul. lia.
Qed.

(** With [ratioCPUtoGPU = 1] and at most 2^24 queries, [gpuResults] is
    [numResults] itself. *)
Lemma gpuResults_exact n :
  0 <= n <= 2 ^ 24 ->
  floatToInt (SFdiv Float32.prec Float32.emax (intToFloat n) ratioCPUtoGPU) = n.
Proof.
  intros Hn. destruct (Z.eq_dec n 0) as [->|Hne]; [reflexivity|].
  destruct (@intToFloat_shape n) as (m & e & -> & Hwf & Hm & He & Hval); [lia|].
  unfold ratioCPUtoGPU, f32_1.
  rewrite Float32.div_one by (auto; lia).
  apply floatToInt_exact; auto. lia.
Qed.

(** *** The plans of [runDijkstraMultiGPUandCPU] for up to 2^24 queries *)

Lemma flat_map_idle ctx i vc offset count :
  flat_map planQueries (map (planAt ctx i 0 vc offset) (seq 0 count)) = [].
Proof.
  induction (seq 0 count) as [|k l IH]; [reflexivity|].
  cbn [map flat_map]. rewrite IH. reflexivity.
Qed.

Lemma heteroPlans_shape (gpuDeviceCount cpuDeviceCount vertexCount numResults : Z) c :
  0 <= numResults <= 2 ^ 24 ->
  1 <= gpuDeviceCount -> 1 <= cpuDeviceCount ->
  gpuDeviceCount + cpuDeviceCount < 2 ^ 32 ->
  0 <= vertexCount -> numResults * vertexCount < 2 ^ 31 ->
  Z.to_nat cpuDeviceCount = S c ->
  let r := numResults / (gpuDeviceCount + cpuDeviceCount) in
  multiGPUandCPUPlans gpuDeviceCount cpuDeviceCount vertexCount numResults =
  map (planAt gpuContext 0 r vertexCount 0) (seq 0 (Z.to_nat gpuDeviceCount)) ++
  map (planAt cpuContext 0 0 vertexCount (gpuDeviceCount * r)) (seq 0 c) ++
  [mkPlan cpuContext (cpuDeviceCount - 1) (gpuDeviceCount * r)
          (gpuDeviceCount * r * vertexCount) (numResults - gpuDeviceCount * r)].
Proof.
  intros Hn Hg Hc Htot Hv Hnv Hcc r.
  assert (H24 : 2 ^ 24 < 2 ^ 31) by (vm_compute; reflexivity).
  assert (Hr : 0 <= r) by (apply Z.div_pos; lia).
  assert (Hle : (gpuDeviceCount + cpuDeviceCount) * r <= numResults)
    by (apply Z.mul_div_le; lia).
  assert (Hgr : 0 <= gpuDeviceCount * r) by (apply Z.mul_nonneg_nonneg; lia).
  assert (Hcr : 0 <= cpuDeviceCount * r) by (apply Z.mul_nonneg_nonneg; lia).
  assert (Hgn : gpuDeviceCount * r <= numResults) by lia.
  assert (Hgv : gpuDeviceCount * r * vertexCount <= numResults * vertexCount)
    by (apply Z.mul_le_mono_nonneg_r; lia).
  assert (Hgv0 : 0 <= gpuDeviceCount * r * vertexCount)
    by (apply Z.mul_nonneg_nonneg; lia).
  unfold multiGPUandCPUPlans. cbv zeta.
  rewrite gpuResults_exact by lia.
  replace (numResults - numResults) with 0 by lia. change (int32 0) with 0.
  unfold uint32 at 1. rewrite (Z.mod_small (gpuDeviceCount + cpuDeviceCount)) by lia.
  rewrite divIntByUInt_exact by lia. fold r.
  rewrite (planLoop_spec gpuContext) by (rewrite ?Z2Nat.id by lia; lia).
  rewrite Z2Nat.id by lia. rewrite Z.add_0_l.
  rewrite (planLoop_spec cpuContext) by (rewrite ?Z.mul_0_r, ?Z.add_0_r; lia).
  rewrite Hcc, seq_S, map_app. cbn [map].
  rewrite Z.mul_0_r, Z.add_0_r.
  assert (Hlast : planAt cpuContext 0 0 vertexCount (gpuDeviceCount * r) (0 + c)
                  = mkPlan cpuContext (cpuDeviceCount - 1) (gpuDeviceCount * r)
                           (gpuDeviceCount * r * vertexCount) 0).
  { unfold planAt. f_equal; lia. }
  rewrite Hlast. unfold addRemainder.
  destruct (Z.ltb_spec (gpuDeviceCount * r) numResults) as [Hlt|Hge].
  - rewrite !app_assoc, addToLast_snoc.
    cbn [plan_context plan_deviceId plan_sourceVertices plan_outResultCosts plan_numResults].
    rewrite (@int32_small (numResults - gpuDeviceCount * r)) by lia.
    rewrite Z.add_0_l.
    rewrite (@int32_small (numResults - gpuDeviceCount * r)) by lia.
    reflexivity.
  - assert (numResults - gpuDeviceCount * r = 0).
    { assert (1 * r <= cpuDeviceCount * r) by (apply Z.mul_le_mono_nonneg_r; lia).
      assert (r = 0 \/ 0 < r) as [H0|Hpos] by lia.
      - rewrite H0 in *. lia.
      - lia. }
    do 3 f_equal. f_equal. lia.
Qed.

(** X15.  Take [0 <= numResults <= 2^24] (the range in which the
    conversion of the count to [float] is exact), at least one device in
    each context with [G + C < 2^32] devices in all, [0 <= vertexCount]
    and [numResults * vertexCount < 2^31], so that no offset and no output
    index leaves the range of [int].  Then [runDijkstraMultiGPUandCPU]
    plans every query exactly once: GPU [i] takes the
    [r = numResults / (G + C)] queries from [i * r] on, every CPU device
    but the last takes none, and the last CPU device takes all that is
    left, [numResults - G * r]. *)
Theorem hetero_plans_up_to_2_24 (gpuDeviceCount cpuDeviceCount vertexCount numResults : Z) :
  0 <= numResults <= 2 ^ 24 ->
  1 <= gpuDeviceCount -> 1 <= cpuDeviceCount ->
  gpuDeviceCount + cpuDeviceCount < 2 ^ 32 ->
  0 <= vertexCount -> numResults * vertexCount < 2 ^ 31 ->
  let r := numResults / (gpuDeviceCount + cpuDeviceCount) in
  let plans := multiGPUandCPUPlans gpuDeviceCount cpuDeviceCount vertexCount numResults in
  length plans = Z.to_nat (gpuDeviceCount + cpuDeviceCount) /\
  (forall i, 0 <= i < gpuDeviceCount ->
     nth (Z.to_nat i) plans (mkPlan gpuContext 0 0 0 0) =
     mkPlan gpuContext i (i * r) (i * r * vertexCount) r) /\
  (forall j, 0 <= j < cpuDeviceCount ->
     nth (Z.to_nat (gpuDeviceCount + j)) plans (mkPlan gpuContext 0 0 0 0) =
     mkPlan cpuContext j (gpuDeviceCount * r) (gpuDeviceCount * r * vertexCount)
            (if j =? cpuDeviceCount - 1 then numResults - gpuDeviceCount * r else 0)) /\
  flat_map planQueries plans = queryRange 0 numResults.
Proof.
  intros Hn Hg Hc Htot Hv Hnv r plans.
  assert (Hr : 0 <= r) by (apply Z.div_pos; lia).
  assert (Hle : (gpuDeviceCount + cpuDeviceCount) * r <= numResults)
    by (apply Z.mul_div_le; lia).
  assert (Hcc : exists c, Z.to_nat cpuDeviceCount = S c /\ Z.of_nat c = cpuDeviceCount - 1).
  { exists (Z.to_nat (cpuDeviceCount - 1)). split; lia. }
  destruct Hcc as (c & Hcc & Hcz).
  unfold plans. rewrite (@heteroPlans_shape _ _ vertexCount _ c Hn Hg Hc Htot Hv Hnv Hcc).
  fold r.
  set (A := map (planAt gpuContext 0 r vertexCount 0) (seq 0 (Z.to_nat gpuDeviceCount))).
  set (B := map (planAt cpuContext 0 0 vertexCount (gpuDeviceCount * r)) (seq 0 c)).
  assert (HA : length A = Z.to_nat gpuDeviceCount)
    by (unfold A; now rewrite length_map, length_seq).
  assert (HB : length B = c) by (unfold B; now rewrite length_map, length_seq).
  split; [|split; [|split]].
  - rewrite !length_app, HA, HB. cbn [length]. lia.
  - intros i Hi.
    rewrite app_nth1 by lia. unfold A.
    rewrite nth_indep with (d' := planAt gpuContext 0 r vertexCount 0 0%nat)
      by (rewrite length_map, length_seq; lia).
    rewrite map_nth, seq_nth by lia.
    unfold planAt. rewrite Nat.add_0_l, Z2Nat.id by lia. f_equal; ring.
  - intros j Hj.
    rewrite app_nth2 by lia. rewrite HA.
    replace (Z.to_nat (gpuDeviceCount + j) - Z.to_nat gpuDeviceCount)%nat
      with (Z.to_nat j) by lia.
    destruct (Z.eqb_spec j (cpuDeviceCount - 1)) as [->|Hne].
    + rewrite app_nth2 by lia. rewrite HB.
      replace (Z.to_nat (cpuDeviceCount - 1) - c)%nat with 0%nat by lia. reflexivity.
    + rewrite app_nth1 by lia. unfold B.
      rewrite nth_indep
        with (d' := planAt cpuContext 0 0 vertexCount (gpuDeviceCount * r) 0%nat)
        by (rewrite length_map, length_seq; lia).
      rewrite map_nth, seq_nth by lia.
      unfold planAt. rewrite Nat.add_0_l, Z2Nat.id by lia. f_equal; ring.
  - rewrite !flat_map_app. unfold A, B.
    rewrite flat_map_equal_slices, flat_map_idle by lia.
    cbn [flat_map app]. rewrite app_nil_r.
    unfold planQueries; cbn [plan_sourceVertices plan_numResults].
    fold (queryRange (gpuDeviceCount * r) (numResults - gpuDeviceCount * r)).
    rewrite Z2Nat.id by lia.
    replace (gpuDeviceCount * r) with (0 + gpuDeviceCount * r) at 2 by lia.
    rewrite queryRange_app by nia. f_equal. lia.
Qed.

(** *** A negative [numResults] *)


(** *** The theorems on the plans at work *)

Lemma multiGPU_partition_witness :
  0 <= 10 < 2 ^ 31 /\ 1 <= 3 < 2 ^ 32 /\ 0 <= 8 /\ 10 * 8 < 2 ^ 31 /\
  flat_map planQueries (multiGPUPlans 3 8 10) = queryRange 0 10.
Proof.
  assert (H1 : 0 <= 10 < 2 ^ 31) by lia.
  assert (H2 : 1 <= 3 < 2 ^ 32) by lia.
  assert (H3 : 0 <= 8) by lia.
  assert (H4 : 10 * 8 < 2 ^ 31) by lia.
  repeat (split; [assumption|]).
  exact (proj2 (proj2 (@multiGPU_partition 3 8 10 H1 H2 H3 H4))).
Defined.

Lemma hetero_plans_up_to_2_24_witness :
  0 <= 9 <= 2 ^ 24 /\ 1 + 2 < 2 ^ 32 /\ 9 * 8 < 2 ^ 31 /\
  flat_map planQueries (multiGPUandCPUPlans 1 2 8 9) = queryRange 0 9.
Proof.
  assert (H1 : 0 <= 9 <= 2 ^ 24) by lia.
  assert (H2 : 1 <= 1) by lia.
  assert (H3 : 1 <= 2) by lia.
  assert (H4 : 1 + 2 < 2 ^ 32) by lia.
  assert (H5 : 0 <= 8) by lia.
  assert (H6 : 9 * 8 < 2 ^ 31) by lia.
  repeat (split; [assumption|]).
  exact (proj2 (proj2 (proj2 (@hetero_plans_up_to_2_24 1 2 8 9 H1 H2 H3 H4 H5 H6)))).
Defined.

End Partitioner.

(** ** The host side of the device engine *)

Module DeviceEngine.

(** Modelled from the spec: the kernels [initializeBuffers],
    [OCL_SSSP_KERNEL1] and [OCL_SSSP_KERNEL2] of [dijkstra.cl], which is
    not among the sources.  The specification gives them the
    initialisation and the two phases that the reference engine runs
    "identically"; a launch is taken to run its work-items one after the
    other, in increasing order. *)
Definition initializeBuffersKernel (g : Graph32) (src : nat) (dev : State32) : State32 :=
  initializeBuffers32 g src dev.

Definition OCL_SSSP_KERNEL1 (g : Graph32) (dev : State32) : State32 :=
  kernel1_32 g dev.

Definition OCL_SSSP_KERNEL2 (g : Graph32) (dev : State32) : State32 :=
  kernel2_32 g dev.

(** An [int] of the host array after [r] of its four bytes were overwritten
    with the first [r] bytes of the device's [int] (little-endian). *)
Definition mixInt (r : nat) (dev host : Z) : Z :=
  if (r =? 0)%nat then host
  else if (4 <=? r)%nat then dev
  else Partitioner.int32
         (dev mod 256 ^ Z.of_nat r
          + (Partitioner.uint32 host / 256 ^ Z.of_nat r) * 256 ^ Z.of_nat r)%Z.

(** [clEnqueueReadBuffer(queue, maskArrayDevice, ..., 0, nbytes,
    maskArrayHost, ...)]: the first [nbytes] bytes of the host array are
    replaced by those of the device buffer, the rest of the host array keeps
    what it held. *)
Fixpoint readMaskFrom (j nbytes : nat) (dev host : list Z) : list Z :=
  match host with
  | [] => []
  | h :: rest =>
      mixInt (nbytes - 4 * j) (load 0%Z dev j) h :: readMaskFrom (S j) nbytes dev rest
  end.

(** The source asks for [sizeof(unsigned char) * vertexCount] bytes. *)
Definition readMask (g : Graph32) (dev : State32) (maskArrayHost : list Z) : list Z :=
  readMaskFrom 0 (1 * vertexCount g) (maskArray dev) maskArrayHost.

(** The [while (!maskArrayEmpty(maskArrayHost, ...))] loop of
    [runDijkstra]. *)
Fixpoint deviceLoop (fuel : nat) (g : Graph32) (dev : State32) (maskArrayHost : list Z)
  : option (State32 * list Z) :=
  match fuel with
  | O => None
  | S fuel' =>
      if maskArrayEmpty maskArrayHost (vertexCount g) then Some (dev, maskArrayHost)
      else
        let dev' := OCL_SSSP_KERNEL2 g (OCL_SSSP_KERNEL1 g dev) in
        deviceLoop fuel' g dev' (readMask g dev' maskArrayHost)
  end.

Fixpoint deviceQueries (fuel : nat) (g : Graph32) (sourceVertices : list nat)
         (queries : list nat) (dev : State32) (maskArrayHost : list Z)
         (out : list Float32.float32) : option (list Float32.float32) :=
  match queries with
  | [] => Some out
  | i :: rest =>
      let dev1 := initializeBuffersKernel g (load 0 sourceVertices i) dev in
      match deviceLoop fuel g dev1 (readMask g dev1 maskArrayHost) with
      | None => None
      | Some (dev2, host2) =>
          deviceQueries fuel g sourceVertices rest dev2 host2
                        (memcpyAt Float32.zero out (rowIndex i (vertexCount g))
                                  (costArray dev2) (vertexCount g))
      end
  end.

(** [runDijkstra].  [maskArrayHost] is what [malloc] returned: the array is
    read before all of it was written, so its first content matters. *)
Definition runDijkstra (fuel : nat) (g : Graph32) (sourceVertices : list nat)
           (outResultCosts : list Float32.float32) (numResults : nat)
           (maskArrayHost : list Z) : option (list Float32.float32) :=
  deviceQueries fuel g sourceVertices (seq 0 numResults)
                (allocState Float32.zero g) maskArrayHost outResultCosts.

(** The path 0 -> 1 -> 2 -> 3, every edge of weight 1.0. *)
Definition path4 : Graph32 :=
  mkGraph 4 3 [0; 1; 2; 3] [1; 2; 3] [f32_1; f32_1; f32_1].

Example path4_reference :
  runDijkstraRef32 5 path4 [0] (repeat Float32.zero 4) 1
  = Some [Float32.zero; f32_1; f32_2; f32_3].
Proof. vm_compute. reflexivity. Qed.

Example path4_device_clean_memory :
  runDijkstra 5 path4 [0] (repeat Float32.zero 4) 1 [0; 0; 0; 0]%Z
  = Some [Float32.zero; f32_1; Float32.FLT_MAX; Float32.FLT_MAX].
Proof. vm_compute. reflexivity. Qed.

Lemma readMask_path4 (dev : State32) h0 h1 h2 h3 :
  readMask path4 dev [h0; h1; h2; h3] = [load 0%Z (maskArray dev) 0; h1; h2; h3].
Proof. reflexivity. Qed.

Lemma maskArrayEmpty_path4 h0 h1 h2 h3 :
  maskArrayEmpty [h0; h1; h2; h3] (vertexCount path4) =
  negb (h0 =? 1)%Z && (negb (h1 =? 1)%Z && (negb (h2 =? 1)%Z && negb (h3 =? 1)%Z)).
Proof.
  unfold maskArrayEmpty. cbn [vertexCount path4 seq maskScan load nth].
  destruct (h0 =? 1)%Z, (h1 =? 1)%Z, (h2 =? 1)%Z, (h3 =? 1)%Z; reflexivity.
Qed.

(** Once the part of the host array that is never written holds a 1, the
    loop cannot end. *)
Lemma deviceLoop_stuck h1 h2 h3 :
  (negb (h1 =? 1)%Z && (negb (h2 =? 1)%Z && negb (h3 =? 1)%Z)) = false ->
  forall fuel dev h0, deviceLoop fuel path4 dev [h0; h1; h2; h3] = None.
Proof.
  intros Hstuck. induction fuel as [|fuel IH]; intros dev h0; [reflexivity|].
  cbn [deviceLoop]. rewrite maskArrayEmpty_path4.
  rewrite Hstuck, andb_false_r.
  rewrite readMask_path4. apply IH.
Qed.

(** The device state when the loop is entered for source 0, and after one
    trip through its body. *)
Definition path4Start : State32 :=
  initializeBuffersKernel path4 0 (allocState Float32.zero path4).

Definition path4Next : State32 :=
  OCL_SSSP_KERNEL2 path4 (OCL_SSSP_KERNEL1 path4 path4Start).

(** C1.  On the path 0 -> 1 -> 2 -> 3 with source 0, whatever the host
    array held when it was allocated, [runDijkstra], if it returns at all,
    returns after a single relaxation step: vertices 2 and 3 are reported
    at [FLT_MAX], where [runDijkstraRef] reports 2.0 and 3.0.  The host
    reads back [vertexCount] bytes of the mask, that is its first entry
    only. *)
Theorem device_stops_early (maskArrayHost : list Z) (fuel : nat)
        (out : list Float32.float32) :
  length maskArrayHost = 4 ->
  runDijkstra fuel path4 [0] (repeat Float32.zero 4) 1 maskArrayHost = Some out ->
  out = [Float32.zero; f32_1; Float32.FLT_MAX; Float32.FLT_MAX] /\
  runDijkstraRef32 5 path4 [0] (repeat Float32.zero 4) 1
  = Some [Float32.zero; f32_1; f32_2; f32_3].
Proof.
  intros Hlen Hrun.
  destruct maskArrayHost as [|g0 [|g1 [|g2 [|g3 [|]]]]]; try discriminate.
  unfold runDijkstra in Hrun. cbn [seq deviceQueries] in Hrun.
  change (load 0 [0] 0) with 0 in Hrun.
  fold path4Start in Hrun.
  rewrite readMask_path4 in Hrun.
  change (load 0%Z (maskArray path4Start) 0) with 1%Z in Hrun.
  destruct fuel as [|fuel]; [discriminate|].
  cbn [deviceLoop] in Hrun. rewrite maskArrayEmpty_path4 in Hrun.
  cbn [Z.eqb Pos.eqb negb andb] in Hrun.
  fold path4Next in Hrun. rewrite readMask_path4 in Hrun.
  change (load 0%Z (maskArray path4Next) 0) with 0%Z in Hrun.
  destruct fuel as [|fuel]; [discriminate|].
  destruct (negb (g1 =? 1)%Z && (negb (g2 =? 1)%Z && negb (g3 =? 1)%Z)) eqn:Hrest.
  - cbn [deviceLoop] in Hrun. rewrite maskArrayEmpty_path4 in Hrun.
    rewrite Hrest in Hrun. cbn [Z.eqb negb andb] in Hrun.
    cbn [deviceQueries] in Hrun.
    split; [|exact path4_reference].
    injection Hrun as <-. vm_compute. reflexivity.
  - rewrite (deviceLoop_stuck _ _ _ Hrest) in Hrun. discriminate.
Qed.

Lemma device_stops_early_witness :
  length [0; 0; 0; 0]%Z = 4 /\
  runDijkstra 5 path4 [0] (repeat Float32.zero 4) 1 [0; 0; 0; 0]%Z
  = Some [Float32.zero; f32_1; Float32.FLT_MAX; Float32.FLT_MAX] /\
  runDijkstraRef32 5 path4 [0] (repeat Float32.zero 4) 1
  = Some [Float32.zero; f32_1; f32_2; f32_3].
Proof.
  assert (H1 : length [0; 0; 0; 0]%Z = 4) by reflexivity.
  assert (H2 : runDijkstra 5 path4 [0] (repeat Float32.zero 4) 1 [0; 0; 0; 0]%Z
               = Some [Float32.zero; f32_1; Float32.FLT_MAX; Float32.FLT_MAX])
    by (vm_compute; reflexivity).
  split; [exact H1|]. split; [exact H2|].
  exact (proj2 (@device_stops_early _ 5 _ H1 H2)).
Defined.

(** *** What the read-back brings to the host *)

Lemma readMaskFrom_length : forall host j nbytes dev,
  length (readMaskFrom j nbytes dev host) = length host.
Proof.
  induction host as [|h rest IH]; intros j nbytes dev; [reflexivity|].
  cbn [readMaskFrom length]. now rewrite IH.
Qed.

Lemma readMaskFrom_load : forall host j nbytes dev k,
  k < length host ->
  load 0%Z (readMaskFrom j nbytes dev host) k =
  mixInt (nbytes - 4 * (j + k)) (load 0%Z dev (j + k)) (load 0%Z host k).
Proof.
  induction host as [|h rest IH]; intros j nbytes dev k Hk; [simpl in Hk; lia|].
  cbn [readMaskFrom]. destruct k as [|k].
  - unfold load at 1 4. cbn [nth]. now rewrite Nat.add_0_r.
  - unfold load at 1 4. cbn [nth]. fold (load 0%Z (readMaskFrom (S j) nbytes dev rest) k).
    fold (load 0%Z rest k).
    rewrite IH by (simpl in Hk; lia).
    replace (S j + k) with (j + S k) by lia. reflexivity.
Qed.

Lemma readMask_load (g : Graph32) (dev : State32) (host : list Z) k :
  k < length host ->
  load 0%Z (readMask g dev host) k =
  mixInt (vertexCount g - 4 * k) (load 0%Z (maskArray dev) k) (load 0%Z host k).
Proof.
  intros Hk. unfold readMask. rewrite readMaskFrom_load by assumption.
  now rewrite Nat.mul_1_l, Nat.add_0_l.
Qed.

Lemma readMask_length (g : Graph32) (dev : State32) (host : list Z) :
  length (readMask g dev host) = length host.
Proof. apply readMaskFrom_length. Qed.

(** X17.  The read-back of [runDijkstra] asks for [vertexCount] bytes of a
    mask of [vertexCount] [int]s.  An entry whose four bytes lie within the
    first [vertexCount] bytes arrives on the host; an entry that starts at
    byte [vertexCount] or later is not transferred, and the host keeps what
    it held there. *)
Theorem readMask_first_quarter (g : Graph32) (dev : State32) (maskArrayHost : list Z)
        (j : nat) :
  length maskArrayHost = vertexCount g ->
  length (maskArray dev) = vertexCount g ->
  j < vertexCount g ->
  length (readMask g dev maskArrayHost) = vertexCount g /\
  (4 * j + 4 <= vertexCount g ->
   load 0%Z (readMask g dev maskArrayHost) j = load 0%Z (maskArray dev) j) /\
  (vertexCount g <= 4 * j ->
   load 0%Z (readMask g dev maskArrayHost) j = load 0%Z maskArrayHost j).
Proof.
  intros Hlen _ Hj. split; [now rewrite readMask_length|].
  rewrite readMask_load by lia. unfold mixInt. split; intros Hq.
  - destruct (Nat.eqb_spec (vertexCount g - 4 * j) 0); [lia|].
    destruct (Nat.leb_spec 4 (vertexCount g - 4 * j)); [reflexivity | lia].
  - destruct (Nat.eqb_spec (vertexCount g - 4 * j) 0); [reflexivity | lia].
Qed.

(** *** A 1 left in the part of the host array that is never written *)

Lemma deviceLoop_stale (g : Graph32) (j : nat) :
  j < vertexCount g -> vertexCount g <= 4 * j ->
  forall fuel dev host,
    length host = vertexCount g -> load 0%Z host j = 1%Z ->
    deviceLoop fuel g dev host = None.
Proof.
  intros Hj Hq. induction fuel as [|fuel IH]; intros dev host Hlen Hone; [reflexivity|].
  cbn [deviceLoop].
  destruct (maskArrayEmpty host (vertexCount g)) eqn:Hempty.
  - exfalso. apply (proj1 (maskArrayEmpty_true_iff _ _) Hempty j Hj). exact Hone.
  - apply IH.
    + now rewrite readMask_length.
    + rewrite readMask_load by lia. unfold mixInt.
      destruct (Nat.eqb_spec (vertexCount g - 4 * j) 0); [exact Hone | lia].
Qed.

(** X18.  If the memory handed out for [maskArrayHost] holds a 1 in an
    entry that the read-back never writes, the [while] loop of [runDijkstra]
    cannot end, whatever the kernels do: no bound on the number of trips
    is enough for the first query to finish. *)
Theorem stale_one_never_returns (g : Graph32) (sourceVertices : list nat)
        (outResultCosts : list Float32.float32) (numResults : nat)
        (maskArrayHost : list Z) (j fuel : nat) :
  length maskArrayHost = vertexCount g ->
  j < vertexCount g ->
  vertexCount g <= 4 * j ->
  load 0%Z maskArrayHost j = 1%Z ->
  0 < numResults ->
  runDijkstra fuel g sourceVertices outResultCosts numResults maskArrayHost = None.
Proof.
  intros Hlen Hj Hq Hone Hnum.
  destruct numResults as [|m]; [lia|].
  unfold runDijkstra. cbn [seq deviceQueries].
  rewrite (@deviceLoop_stale g j Hj Hq).
  - reflexivity.
  - now rewrite readMask_length.
  - rewrite readMask_load by lia. unfold mixInt.
    destruct (Nat.eqb_spec (vertexCount g - 4 * j) 0); [exact Hone | lia].
Qed.

(** *** A source beyond the first quarter *)

(** Low bytes that are all zero never make an [int] equal to 1. *)
Lemma mixInt_zero_not_one r h : 0 < r -> mixInt r 0 h <> 1%Z.
Proof.
  intros Hr. unfold mixInt.
  destruct (Nat.eqb_spec r 0); [lia|].
  destruct (Nat.leb_spec 4 r); [discriminate|].
  unfold Partitioner.int32.
  assert (Hc : exists c, (256 ^ Z.of_nat r = 256 * c)%Z /\
                         (4294967296 = 256 * c * (4294967296 / (256 * c)))%Z).
  { destruct r as [|[|[|[|r]]]]; try lia.
    - exists 1%Z. split; reflexivity.
    - exists 256%Z. split; reflexivity.
    - exists 65536%Z. split; reflexivity. }
  destruct Hc as (c & -> & Hdiv).
  rewrite Z.mod_0_l by lia. rewrite Z.add_0_l.
  set (q := (Partitioner.uint32 h / (256 * c))%Z).
  change (2 ^ 32)%Z with 4294967296%Z. change (2 ^ 31)%Z with 2147483648%Z.
  pose proof (Z.div_mod (q * (256 * c)) 4294967296 ltac:(lia)) as Hdm.
  set (u := ((q * (256 * c)) mod 4294967296)%Z) in *.
  set (k := ((q * (256 * c)) / 4294967296)%Z) in *.
  set (d := (4294967296 / (256 * c))%Z) in *.
  clearbody u k d q.
  assert (E : (4294967296 * k = 256 * c * d * k)%Z) by (rewrite <- Hdiv; reflexivity).
  assert (Hu : (u = 256 * (c * q - c * d * k))%Z) by lia.
  destruct (Z.ltb_spec u 2147483648); lia.
Qed.

(** X19.  Take a source whose mask entry the read-back does not reach
    ([vertexCount <= 4 * source]) and a host array that holds no 1 in the
    entries that are never written.  Then the host sees an empty frontier
    right after the initialisation: [runDijkstra] returns without a single
    launch of the two relaxation kernels, and the row it reports is the
    initialisation itself, zero at the source and [FLT_MAX] everywhere
    else. *)
Theorem source_past_first_quarter (g : Graph32) (source : nat)
        (outResultCosts : list Float32.float32) (maskArrayHost : list Z) (fuel : nat) :
  length maskArrayHost = vertexCount g ->
  source < vertexCount g ->
  vertexCount g <= 4 * source ->
  vertexCount g <= length outResultCosts ->
  (forall k, k < vertexCount g -> vertexCount g <= 4 * k ->
             load 0%Z maskArrayHost k <> 1%Z) ->
  exists out,
    runDijkstra (S fuel) g [source] outResultCosts 1 maskArrayHost = Some out /\
    forall v, v < vertexCount g ->
              load Float32.zero out v
              = if v =? source then Float32.zero else Float32.FLT_MAX.
Proof.
  intros Hlen Hsrc Hq Hout Hclean.
  set (dev1 := initializeBuffersKernel g source (allocState Float32.zero g)).
  assert (Hinit : forall v, v < vertexCount g ->
            load 0%Z (maskArray dev1) v = (if v =? source then 1%Z else 0%Z) /\
            load Float32.zero (costArray dev1) v
            = (if v =? source then Float32.zero else Float32.FLT_MAX)).
  { intros v Hv.
    destruct (initializeBuffers_spec Float32.zero Float32.FLT_MAX source
                (allocState_sized Float32.zero g) Hv) as (Hm & Hc & _).
    split; assumption. }
  assert (Hempty : maskArrayEmpty (readMask g dev1 maskArrayHost) (vertexCount g) = true).
  { apply maskArrayEmpty_true_iff. intros k Hk.
    rewrite readMask_load by lia.
    destruct (Nat.le_gt_cases (vertexCount g) (4 * k)) as [Hfar|Hnear].
    - unfold mixInt.
      destruct (Nat.eqb_spec (vertexCount g - 4 * k) 0); [|lia].
      now apply Hclean.
    - destruct (Hinit k Hk) as (-> & _).
      destruct (Nat.eqb_spec k source); [lia|].
      apply mixInt_zero_not_one. lia. }
  exists (memcpy Float32.zero outResultCosts (0 * vertexCount g) (costArray dev1)
                 (vertexCount g)).
  split.
  - unfold runDijkstra. cbn [seq deviceQueries].
    change (load 0 [source] 0) with source. fold dev1.
    cbn [deviceLoop]. rewrite Hempty. reflexivity.
  - intros v Hv. rewrite memcpy_load. cbn [Nat.mul Nat.add].
    destruct (Nat.ltb_spec v (vertexCount g)); [|lia].
    destruct (Nat.ltb_spec v (length outResultCosts)); [|lia].
    cbn [Nat.leb andb]. rewrite Nat.sub_0_r. apply Hinit. exact Hv.
Qed.

(** *** The theorems on the read-back at work on the path *)

Lemma readMask_first_quarter_witness :
  length [5; 6; 7; 8]%Z = vertexCount path4 /\
  length (maskArray path4Start) = vertexCount path4 /\
  load 0%Z (readMask path4 path4Start [5; 6; 7; 8]%Z) 1 = load 0%Z [5; 6; 7; 8]%Z 1.
Proof.
  assert (H1 : length [5; 6; 7; 8]%Z = vertexCount path4) by reflexivity.
  assert (H2 : length (maskArray path4Start) = vertexCount path4) by reflexivity.
  assert (H3 : 1 < vertexCount path4) by (simpl; lia).
  assert (H4 : vertexCount path4 <= 4 * 1) by (simpl; lia).
  repeat (split; [assumption|]).
  exact (proj2 (proj2 (@readMask_first_quarter path4 path4Start [5; 6; 7; 8]%Z 1
                         H1 H2 H3)) H4).
Defined.

Lemma stale_one_never_returns_witness :
  length [0; 0; 1; 0]%Z = vertexCount path4 /\
  load 0%Z [0; 0; 1; 0]%Z 2 = 1%Z /\
  runDijkstra 100 path4 [0] (repeat Float32.zero 4) 1 [0; 0; 1; 0]%Z = None.
Proof.
  assert (H1 : length [0; 0; 1; 0]%Z = vertexCount path4) by reflexivity.
  assert (H2 : load 0%Z [0; 0; 1; 0]%Z 2 = 1%Z) by reflexivity.
  repeat (split; [assumption|]).
  apply (@stale_one_never_returns path4 [0] (repeat Float32.zero 4) 1 [0; 0; 1; 0]%Z 2 100
           H1).
  - simpl; lia.
  - simpl; lia.
  - exact H2.
  - lia.
Defined.

Lemma path4_clean_host k :
  k < vertexCount path4 -> vertexCount path4 <= 4 * k ->
  load 0%Z [0; 0; 0; 0]%Z k <> 1%Z.
Proof.
  intros Hk _. destruct k as [|[|[|[|k]]]]; try discriminate.
  simpl in Hk. lia.
Defined.

Lemma source_past_first_quarter_witness :
  length [0; 0; 0; 0]%Z = vertexCount path4 /\
  exists out,
    runDijkstra 1 path4 [1] (repeat Float32.zero 4) 1 [0; 0; 0; 0]%Z = Some out /\
    forall v, v < vertexCount path4 ->
              load Float32.zero out v
              = if v =? 1 then Float32.zero else Float32.FLT_MAX.
Proof.
  assert (H1 : length [0; 0; 0; 0]%Z = vertexCount path4) by reflexivity.
  split; [exact H1|].
  apply (@source_past_first_quarter path4 1 (repeat Float32.zero 4) [0; 0; 0; 0]%Z 0 H1).
  - simpl; lia.
  - simpl; lia.
  - simpl; lia.
  - exact path4_clean_host.
Defined.

(** *** The worker threads *)

(** [dijkstraThread]: [runDijkstra] on the part of the caller's arrays that
    the plan points to, [&sourceVertices[k]] and [&outResultCosts[k']];
    [maskArrayHost] is what the worker's own [malloc] returned.  A count
    that is not positive runs no query.  With a negative [k] or [k'] the
    pointer lies before the caller's array, and nothing of the array is
    written. *)
Definition dijkstraThread (fuel : nat) (g : Graph32) (sourceVertices : list nat)
           (maskArrayHost : list Z) (plan : Partitioner.DevicePlan)
           (outResultCosts : list Float32.float32) : option (list Float32.float32) :=
  if ((Partitioner.plan_sourceVertices plan <? 0)
      || (Partitioner.plan_outResultCosts plan <? 0))%Z
  then Some outResultCosts
  else
    let src0 := Z.to_nat (Partitioner.plan_sourceVertices plan) in
    let out0 := Z.to_nat (Partitioner.plan_outResultCosts plan) in
    match runDijkstra fuel g (skipn src0 sourceVertices) (skipn out0 outResultCosts)
                      (Z.to_nat (Partitioner.plan_numResults plan)) maskArrayHost with
    | Some rows => Some (firstn out0 outResultCosts ++ rows)
    | None => None
    end.

Lemma deviceQueries_frame fuel (g : Graph32) srcs : forall qs dev host out out',
  (forall i, In i qs -> (Z.of_nat (i * vertexCount g) < 2 ^ 31)%Z) ->
  deviceQueries fuel g srcs qs dev host out = Some out' ->
  length out' = length out /\
  forall j, (forall i, In i qs ->
                       ~ (i * vertexCount g <= j < i * vertexCount g + vertexCount g)) ->
            load Float32.zero out' j = load Float32.zero out j.
Proof.
  induction qs as [|i qs IH]; intros dev host out out' Hint Hrun.
  - cbn [deviceQueries] in Hrun. injection Hrun as <-. auto.
  - cbn [deviceQueries] in Hrun.
    destruct (deviceLoop fuel g _ _) as [[dev2 host2]|]; [|discriminate].
    rewrite memcpyAt_row in Hrun by (apply Hint; now left).
    apply IH in Hrun; [|intros i' Hi'; apply Hint; now right].
    destruct Hrun as (Hlen & Hkeep). split.
    + rewrite Hlen. apply memcpy_length.
    + intros j Hj. rewrite Hkeep by (intros i' Hi'; apply Hj; now right).
      rewrite memcpy_load. specialize (Hj i (or_introl eq_refl)).
      destruct (Nat.leb_spec (i * vertexCount g) j);
        destruct (Nat.ltb_spec j (i * vertexCount g + vertexCount g));
        cbn [andb]; auto. lia.
Qed.

Lemma runDijkstra_frame fuel (g : Graph32) srcs out numResults host out' :
  (Z.of_nat (numResults * vertexCount g) < 2 ^ 31)%Z ->
  runDijkstra fuel g srcs out numResults host = Some out' ->
  length out' = length out /\
  forall j, numResults * vertexCount g <= j ->
            load Float32.zero out' j = load Float32.zero out j.
Proof.
  intros Hint Hrun. unfold runDijkstra in Hrun.
  assert (Hrow : forall i, In i (seq 0 numResults) ->
                           i * vertexCount g + vertexCount g <= numResults * vertexCount g).
  { intros i Hi. apply in_seq in Hi.
    assert ((i + 1) * vertexCount g <= numResults * vertexCount g)
      by (apply Nat.mul_le_mono_r; lia). lia. }
  apply deviceQueries_frame in Hrun.
  - destruct Hrun as (Hlen & Hkeep).
    split; [exact Hlen|]. intros j Hj. apply Hkeep.
    intros i Hi. specialize (Hrow i Hi). lia.
  - intros i Hi. specialize (Hrow i Hi). lia.
Qed.

(** A worker writes the rows of its own queries only. *)
Lemma dijkstraThread_frame fuel (g : Graph32) srcs host plan out out' :
  (0 <= Partitioner.plan_outResultCosts plan)%Z ->
  Z.to_nat (Partitioner.plan_outResultCosts plan)
  + Z.to_nat (Partitioner.plan_numResults plan) * vertexCount g <= length out ->
  (Z.of_nat (length out) < 2 ^ 31)%Z ->
  dijkstraThread fuel g srcs host plan out = Some out' ->
  length out' = length out /\
  forall j, j < Z.to_nat (Partitioner.plan_outResultCosts plan) \/
            Z.to_nat (Partitioner.plan_outResultCosts plan)
            + Z.to_nat (Partitioner.plan_numResults plan) * vertexCount g <= j ->
            load Float32.zero out' j = load Float32.zero out j.
Proof.
  unfold dijkstraThread.
  set (out0 := Z.to_nat (Partitioner.plan_outResultCosts plan)).
  set (num := Z.to_nat (Partitioner.plan_numResults plan)).
  intros Hnonneg Hfit Hint Hrun.
  destruct ((Partitioner.plan_sourceVertices plan <? 0)
            || (Partitioner.plan_outResultCosts plan <? 0))%Z.
  { injection Hrun as <-. auto. }
  destruct (runDijkstra fuel g _ _ num host) as [rows|] eqn:Hrows; [|discriminate].
  injection Hrun as <-.
  apply runDijkstra_frame in Hrows; [|lia]. destruct Hrows as (Hlen & Hkeep).
  rewrite length_skipn in Hlen.
  assert (Hfirst : length (firstn out0 out) = out0) by (apply firstn_length_le; lia).
  split.
  - rewrite length_app, Hfirst, Hlen. lia.
  - intros j [Hj|Hj]; unfold load.
    + rewrite app_nth1 by lia. rewrite nth_firstn.
      destruct (Nat.ltb_spec j out0); [reflexivity | lia].
    + rewrite app_nth2 by lia. rewrite Hfirst.
      fold (load Float32.zero rows (j - out0)).
      rewrite Hkeep by lia. unfold load. rewrite nth_skipn. f_equal. lia.
Qed.

(** X20.  Take [1 <= deviceCount < 2^32], [numResults < 2^31],
    [numResults * vertexCount < 2^31] and an output buffer of exactly
    [numResults * vertexCount] entries, so that every plan of
    [runDijkstraMultiGPU] points into the buffer.  Then the workers do not
    write into each other's part of it: whatever [dijkstraThread] does with
    the plan of device [i], the buffer keeps its length and every entry of
    the rows planned for another device [k] is left as it was. *)
Theorem workers_do_not_interfere (g : Graph32) (fuel : nat) (sourceVertices : list nat)
        (maskArrayHost : list Z) (deviceCount : Z) (numResults : nat) (i k : Z)
        (outResultCosts out : list Float32.float32) (j : nat) :
  (1 <= deviceCount < 2 ^ 32)%Z ->
  (Z.of_nat numResults < 2 ^ 31)%Z ->
  (Z.of_nat numResults * Z.of_nat (vertexCount g) < 2 ^ 31)%Z ->
  length outResultCosts = numResults * vertexCount g ->
  (0 <= i < deviceCount)%Z -> (0 <= k < deviceCount)%Z -> i <> k ->
  let plans := Partitioner.multiGPUPlans deviceCount (Z.of_nat (vertexCount g))
                                         (Z.of_nat numResults) in
  let p := nth (Z.to_nat i) plans (Partitioner.mkPlan Partitioner.gpuContext 0 0 0 0) in
  let q := nth (Z.to_nat k) plans (Partitioner.mkPlan Partitioner.gpuContext 0 0 0 0) in
  dijkstraThread fuel g sourceVertices maskArrayHost p outResultCosts = Some out ->
  (Partitioner.plan_outResultCosts q <= Z.of_nat j
   < Partitioner.plan_outResultCosts q
     + Partitioner.plan_numResults q * Z.of_nat (vertexCount g))%Z ->
  length out = length outResultCosts /\
  j < length outResultCosts /\
  nth_error out j = nth_error outResultCosts j.
Proof.
  intros Hd Hn Hnv Hlen Hi Hk Hik plans p q Hrun Hj.
  set (n := Z.of_nat (vertexCount g)) in *.
  set (N := Z.of_nat numResults) in *.
  set (r := (N / deviceCount)%Z).
  assert (HN : (0 <= N < 2 ^ 31)%Z) by (unfold N; lia).
  assert (Hr : (0 <= r)%Z) by (apply Z.div_pos; lia).
  pose proof (Z.div_mod N deviceCount ltac:(lia)) as Hdm. fold r in Hdm.
  pose proof (Z.mod_pos_bound N deviceCount ltac:(lia)) as Hmod.
  assert (Hn0 : (0 <= n)%Z) by (unfold n; lia).
  assert (Hp : p = Partitioner.mkPlan Partitioner.gpuContext i (i * r) (i * r * n)
                     (if (i =? deviceCount - 1)%Z then r + N mod deviceCount else r)%Z).
  { unfold p, plans. now apply Partitioner.multiGPUPlans_nth. }
  assert (Hq : q = Partitioner.mkPlan Partitioner.gpuContext k (k * r) (k * r * n)
                     (if (k =? deviceCount - 1)%Z then r + N mod deviceCount else r)%Z).
  { unfold q, plans. now apply Partitioner.multiGPUPlans_nth. }
  rewrite Hq in Hj.
  cbn [Partitioner.plan_outResultCosts Partitioner.plan_numResults] in Hj.
  set (np := (if (i =? deviceCount - 1)%Z then r + N mod deviceCount else r)%Z) in *.
  set (nq := (if (k =? deviceCount - 1)%Z then r + N mod deviceCount else r)%Z) in *.
  assert (Hstep : forall a b : Z, (0 <= a)%Z -> (a + 1 <= b)%Z ->
                                  (a * r * n + r * n <= b * r * n)%Z).
  { intros a b Ha Hab.
    assert (H1 : ((a + 1) * r <= b * r)%Z) by (apply Z.mul_le_mono_nonneg_r; lia).
    assert (H2 : ((a + 1) * r * n <= b * r * n)%Z) by (apply Z.mul_le_mono_nonneg_r; lia).
    lia. }
  assert (Hslice : forall a na, (0 <= a < deviceCount)%Z ->
            na = (if (a =? deviceCount - 1)%Z then r + N mod deviceCount else r)%Z ->
            (0 <= na /\ a * r + na <= N /\ (a < deviceCount - 1 -> na = r))%Z).
  { intros a na Ha ->. destruct (Z.eqb_spec a (deviceCount - 1)) as [->|Hne].
    - repeat split; try lia.
    - repeat split; try lia.
      assert (((a + 1) * r <= deviceCount * r)%Z)
        by (apply Z.mul_le_mono_nonneg_r; lia).
      lia. }
  destruct (Hslice i np Hi eq_refl) as (Hnp0 & Hnp1 & Hnp2).
  destruct (Hslice k nq Hk eq_refl) as (Hnq0 & Hnq1 & Hnq2).
  assert (HA : (0 <= i * r * n)%Z)
    by (apply Z.mul_nonneg_nonneg; [apply Z.mul_nonneg_nonneg|]; lia).
  assert (HB : (i * r * n + np * n <= N * n)%Z).
  { assert (((i * r + np) * n <= N * n)%Z) by (apply Z.mul_le_mono_nonneg_r; lia).
    lia. }
  assert (HBq : (k * r * n + nq * n <= N * n)%Z).
  { assert (((k * r + nq) * n <= N * n)%Z) by (apply Z.mul_le_mono_nonneg_r; lia).
    lia. }
  assert (HC : (0 <= np * n)%Z) by (apply Z.mul_nonneg_nonneg; lia).
  assert (E1 : Z.to_nat np * vertexCount g = Z.to_nat (np * n)).
  { unfold n. rewrite Z2Nat.inj_mul by lia. now rewrite Nat2Z.id. }
  assert (E2 : numResults * vertexCount g = Z.to_nat (N * n)).
  { unfold N, n. rewrite <- Nat2Z.inj_mul. now rewrite Nat2Z.id. }
  assert (Hjin : j < length outResultCosts) by (rewrite Hlen, E2; lia).
  destruct (@dijkstraThread_frame fuel g sourceVertices maskArrayHost p outResultCosts out)
    as (Hlen' & Hkeep); auto.
  { rewrite Hp. cbn [Partitioner.plan_outResultCosts]. exact HA. }
  { rewrite Hp. cbn [Partitioner.plan_outResultCosts Partitioner.plan_numResults].
    fold np. rewrite Hlen, E1, E2. lia. }
  { rewrite Hlen, E2. lia. }
  split; [exact Hlen'|]. split; [exact Hjin|].
  rewrite (@nth_error_load _ Float32.zero out) by lia.
  rewrite (@nth_error_load _ Float32.zero outResultCosts) by lia.
  f_equal.
  apply Hkeep. rewrite Hp.
  cbn [Partitioner.plan_outResultCosts Partitioner.plan_numResults]. fold np.
  rewrite E1.
  destruct (Z_lt_le_dec k i) as [Hlt|Hge].
  - left. assert (Hq' : nq = r) by (apply Hnq2; lia). rewrite Hq' in Hj.
    pose proof (Hstep k i ltac:(lia) ltac:(lia)). lia.
  - right. assert (Hp' : np = r) by (apply Hnp2; lia). rewrite Hp' in *.
    pose proof (Hstep i k ltac:(lia) ltac:(lia)). lia.
Qed.

Lemma workers_do_not_interfere_witness :
  dijkstraThread 5 path4 [0; 0] [0; 0; 0; 0]%Z
                 (nth 0 (Partitioner.multiGPUPlans 2 4 2)
                      (Partitioner.mkPlan Partitioner.gpuContext 0 0 0 0))
                 (repeat f32_4 8)
  = Some [Float32.zero; f32_1; Float32.FLT_MAX; Float32.FLT_MAX;
          f32_4; f32_4; f32_4; f32_4] /\
  nth_error
       [Float32.zero; f32_1; Float32.FLT_MAX; Float32.FLT_MAX; f32_4; f32_4; f32_4; f32_4] 5
  = nth_error (repeat f32_4 8) 5.
Proof.
  assert (Hrun : dijkstraThread 5 path4 [0; 0] [0; 0; 0; 0]%Z
                   (nth 0 (Partitioner.multiGPUPlans 2 4 2)
                        (Partitioner.mkPlan Partitioner.gpuContext 0 0 0 0))
                   (repeat f32_4 8)
                 = Some [Float32.zero; f32_1; Float32.FLT_MAX; Float32.FLT_MAX;
                         f32_4; f32_4; f32_4; f32_4])
    by (vm_compute; reflexivity).
  split; [exact Hrun|].
  apply (@workers_do_not_interfere path4 5 [0; 0] [0; 0; 0; 0]%Z 2 2 0 1
           (repeat f32_4 8)
           [Float32.zero; f32_1; Float32.FLT_MAX; Float32.FLT_MAX;
            f32_4; f32_4; f32_4; f32_4] 5).
  - lia.
  - simpl; lia.
  - simpl; lia.
  - reflexivity.
  - lia.
  - lia.
  - lia.
  - exact Hrun.
  - vm_compute. split; [discriminate | reflexivity].
Defined.
End DeviceEngine.
